(** * Accumulation-and-patching app: a shallow embedding of the Python services

    The development follows the layout of the Python package.

    - [Py]: outcomes of Python calls (a value or a raised exception) and the
      state-and-exception monad in which the effectful services are written;
      [builtins], [np], [fs]: the few operations of Python, numpy and
      [os.path] the services use.
    - [color_utils], [data_service], [config], [patching_service]: one Rocq
      module per Python module, each function translated from its source.
      The dataset, the accumulator and the frame patcher live outside the app;
      the services are parametrised by their operations ([DatasetApi],
      [PatchingApi]).  Arrays that are handed around have an identity: they
      are locations in a store, and a run of [patch_frame] records the calls
      it makes.
    - [frame_instances], [downsampling], [visualization_service],
      [instance_selector], [viewer_3d]: the remaining functions of the data
      service, the utilities and the components that compute a value.
    - [reference], [demo], [demo_dataset], [demo_views]: collaborators
      written after the design document and small stored inputs, on which
      the services run.
    - The facts: one section per module, then the theorems at work on the
      small inputs.

    The entries of an array are finite floats, each taken as the rational
    number [Q] it is.  Where the source computes with them (the height
    colours, the voxel indices) the model rounds as numpy does, in the
    format of the array, with infinities and NaN among the results
    ([np.float], [np.Format]); minima, maxima and comparisons are exact in
    numpy too.  The progress fractions and the colour channels [c / 255] are
    kept as the exact quotients. *)

From Stdlib Require Import ZArith QArith Qminmax String List Lia Lqa.
From Stdlib Require Import Qround Qabs Qpower DecimalString DecimalPos DecimalZ.
From stdpp Require Import gmap strings list fin_maps sorting.

Open Scope string_scope.
Open Scope list_scope.

(* ===================================================================== *)
(** * Python outcomes *)
(* ===================================================================== *)

Module Py.

(** The exception classes that occur in the modelled code.  Collaborators
    may raise any of them; [Error] stands for every other class. *)
Inductive exn : Type :=
| IndexError
| ValueError
| FileNotFoundError
| IsADirectoryError
| ZeroDivisionError
| Error (msg : string).

(** A call either returns a value or raises. *)
Inductive outcome (A : Type) : Type :=
| Ret (a : A)
| Raise (e : exn).
Arguments Ret {A} a.
Arguments Raise {A} e.

Definition returned {A} (o : outcome A) : Prop :=
  match o with Ret _ => True | Raise _ => False end.

(** Sequencing of pure-but-fallible steps. *)
Definition obind {A B} (o : outcome A) (k : A -> outcome B) : outcome B :=
  match o with
  | Ret a => k a
  | Raise e => Raise e
  end.

(** Stateful code: the state survives a raise, as Python mutations do. *)
Definition M (S A : Type) : Type := S -> outcome A * S.

Definition ret {S A} (a : A) : M S A := fun s => (Ret a, s).

Definition raise {S A} (e : exn) : M S A := fun s => (Raise e, s).

Definition bind {S A B} (m : M S A) (k : A -> M S B) : M S B :=
  fun s =>
    match m s with
    | (Ret a, s') => k a s'
    | (Raise e, s') => (Raise e, s')
    end.

End Py.

Import Py.

Declare Scope py_scope.
Delimit Scope py_scope with py.
Notation "'let*' x ':=' m 'in' k" := (bind m (fun x => k))
  (at level 10, x name, m at level 100, k at level 200) : py_scope.
Notation "'do' m 'then' k" := (bind m (fun _ => k))
  (at level 10, m at level 100, k at level 200) : py_scope.
Notation "'let+' x ':=' o 'in' k" := (obind o (fun x => k))
  (at level 10, x name, o at level 100, k at level 200) : py_scope.

Module builtins.

(** [str(k)] of an integer: its decimal numeral, with a leading minus sign
    for negative numbers. *)
Definition str (k : Z) : string := NilZero.string_of_int (Z.to_int k).

(** [int(s)] of a string, on decimal numerals with an optional minus sign:
    the strings [str] produces, which are the ones the app converts back.
    Anything else is a [ValueError] here (Python also reads a numeral with a
    plus sign, with blanks around it or with underscores between digits). *)
Definition int (s : string) : outcome Z :=
  match NilZero.int_of_string s with
  | Some d => Ret (Z.of_int d)
  | None => Raise ValueError
  end.

(** [int(x)] of a float: truncation towards zero. *)
Definition int_of_float (x : Q) : Z := Z.quot (Qnum x) (Z.pos (Qden x)).

(** [l[i]] on a list; a negative index counts from the end. *)
Definition getitem {A : Type} (l : list A) (i : Z) : outcome A :=
  let j := if (i <? 0)%Z then (i + Z.of_nat (length l))%Z else i in
  if (j <? 0)%Z then Raise IndexError
  else
    match l !! Z.to_nat j with
    | Some x => Ret x
    | None => Raise IndexError
    end.

(** The values found in the dictionaries the services return. *)
Inductive object : Type :=
| PyNone
| PyBool (b : bool)
| PyInt (n : Z)
| PyStr (s : string).

End builtins.

(* ===================================================================== *)
(** * numpy *)
(* ===================================================================== *)

Module np.

(** A two-dimensional float array of shape [(length rows, shape1)].  The
    column count is kept apart so that a shape [(0, n)] is representable. *)
Record ndarray : Type := Array { shape1 : nat; rows : list (list Q) }.

Definition shape0 (a : ndarray) : nat := length (rows a).

(** Every row has [shape1] entries. *)
Definition wf (a : ndarray) : Prop :=
  Forall (fun r => length r = shape1 a) (rows a).

(** [a[i, :]] *)
Definition row (i : nat) (a : ndarray) : outcome (list Q) :=
  match rows a !! i with
  | Some r => Ret r
  | None => Raise IndexError
  end.

(** [a[:, j]] *)
Definition col (j : nat) (a : ndarray) : outcome (list Q) :=
  if decide (j < shape1 a)%nat
  then Ret (map (fun r => nth j r 0%Q) (rows a))
  else Raise IndexError.

(** [z.min()] and [z.max()] of a one-dimensional array; numpy raises
    [ValueError] on a zero-size array. *)
Definition amin (z : list Q) : outcome Q :=
  match z with
  | [] => Raise ValueError
  | v :: vs => Ret (fold_left Qmin vs v)
  end.

Definition amax (z : list Q) : outcome Q :=
  match z with
  | [] => Raise ValueError
  | v :: vs => Ret (fold_left Qmax vs v)
  end.

(** What [np.load] may hand back: an integer vector (segment labels) or a
    float matrix (coordinates). *)
Inductive value : Type :=
| Ints (l : list Z)
| Floats (a : ndarray).

(** ** Floating-point arithmetic

    The result of an arithmetic operation on floats is the exact result
    rounded to the format of the operands, float32 or float64; it may be an
    infinity or a NaN.  The sign of a zero is not kept: a zero counts as
    positive. *)
Inductive float : Type :=
| Finite (q : Q)
| Inf (negative : bool)
| NaN.

(** [x <= y] on floats, which is false when one of them is a NaN. *)
Definition float_le (x y : float) : Prop :=
  match x, y with
  | NaN, _ | _, NaN => False
  | Inf true, _ => True
  | _, Inf false => True
  | Finite p, Finite q => (p <= q)%Q
  | _, _ => False
  end.

(** [x] is the finite float of value [q]. *)
Definition has_value (x : float) (q : Q) : Prop :=
  match x with
  | Finite p => (p == q)%Q
  | _ => False
  end.

(** [x] is a finite float of [lo, hi]. *)
Definition between (lo hi : Q) (x : float) : Prop :=
  match x with
  | Finite p => (lo <= p /\ p <= hi)%Q
  | _ => False
  end.

(** A float format, by its rounding: [rounded q] is the float of the format
    the real number [q] is rounded to. *)
Class Format : Type := { rounded : Q -> float }.

(** What the facts below use of a rounding to nearest: it keeps the order,
    and 0 and 1 are floats of the format. *)
Record rounds_to_nearest (fmt : Format) : Prop := RoundsToNearest {
  rounded_le : forall x y : Q, (x <= y)%Q -> float_le (rounded x) (rounded y);
  rounded_0 : has_value (rounded 0) 0;
  rounded_1 : has_value (rounded 1) 1
}.

(** [x == 0] *)
Definition is_zero (x : float) : bool :=
  match x with
  | Finite q => Qeq_bool q 0
  | _ => false
  end.

(** [a - b] on finite floats. *)
Definition sub {fmt : Format} (a b : Q) : float := rounded (a - b).

(** [x / y]: numpy divides by the rules of IEEE 754, a division by zero
    gives an infinity or a NaN and raises nothing. *)
Definition div {fmt : Format} (x y : float) : float :=
  match x, y with
  | NaN, _ | _, NaN => NaN
  | Inf _, Inf _ => NaN
  | Inf s, Finite b => Inf (xorb s (negb (Qle_bool 0 b)))
  | Finite _, Inf _ => Finite 0
  | Finite a, Finite b =>
      if Qeq_bool b 0
      then if Qeq_bool a 0 then NaN else Inf (negb (Qle_bool 0 a))
      else rounded (a / b)
  end.

(** [np.floor(x)] *)
Definition floor (x : float) : float :=
  match x with
  | Finite q => Finite (inject_Z (Qfloor q))
  | _ => x
  end.

(** *** The binary formats of IEEE 754

    [round_to prec emin emax] rounds to the nearest float with [prec]
    significant bits and exponents from [emin] to [emax], subnormal numbers
    included, ties to the even significand, and to an infinity from
    [2 ^ (emax + 1) - 2 ^ (emax - prec)] on. *)

(** [floor (log2 x)] of a positive rational. *)
Definition log2_floor (x : Q) : Z :=
  let k := (Z.log2 (Qnum x) - Z.log2 (Zpos (Qden x)))%Z in
  if Qle_bool (2 ^ k) x then k else (k - 1)%Z.

(** The integer nearest to [x], the even one of the two when [x] is half
    way between them. *)
Definition nearest_even (x : Q) : Z :=
  let f := Qfloor x in
  match Qcompare (x - inject_Z f) (1 # 2) with
  | Lt => f
  | Gt => (f + 1)%Z
  | Eq => if Z.even f then f else (f + 1)%Z
  end.

(** The exponent of the last place of the floats around the positive
    number [a], and [a] rounded to a multiple of that place. *)
Definition exponent (prec emin : Z) (a : Q) : Z :=
  (Z.max (log2_floor a) emin - (prec - 1))%Z.

Definition magnitude (prec emin : Z) (a : Q) : Q :=
  (inject_Z (nearest_even (a / 2 ^ exponent prec emin a))
   * 2 ^ exponent prec emin a)%Q.

Definition round_to (prec emin emax : Z) (x : Q) : float :=
  if Qeq_bool x 0 then Finite 0
  else
    let v := magnitude prec emin (Qabs x) in
    let negative := negb (Qle_bool 0 x) in
    if Qle_bool (2 ^ (emax + 1)) v then Inf negative
    else Finite (Qred (if negative then - v else v)).

Definition float64 : Format := {| rounded := round_to 53 (-1022) 1023 |}.
Definition float32 : Format := {| rounded := round_to 24 (-126) 127 |}.

(** [np.zeros_like(z)] *)
Definition zeros_like (z : list Q) : list float := map (fun _ => Finite 0) z.

(** [np.full(n, v, dtype=np.int32)] *)
Definition full (n : nat) (v : Z) : list Z := replicate n v.

(** ** Sorted unique values

    [np.unique] returns the distinct values in increasing order; with
    [return_counts] also how often each occurs, with [return_index] also the
    position of its first occurrence.  The order and the equality are those
    of the element type: integers, rationals (compared by value), or rows
    compared lexicographically ([axis=0]). *)

Section Unique.

Context {A : Type} (ltb eqb : A -> A -> bool).

Fixpoint insert_unique (x : A) (l : list A) : list A :=
  match l with
  | [] => [x]
  | y :: rest =>
      if ltb x y then x :: l
      else if eqb x y then l
      else y :: insert_unique x rest
  end.

Definition unique_by (l : list A) : list A := foldr insert_unique [] l.

Fixpoint count_by (x : A) (l : list A) : nat :=
  match l with
  | [] => 0
  | y :: rest => if eqb x y then S (count_by x rest) else count_by x rest
  end.

Fixpoint first_index (x : A) (l : list A) : nat :=
  match l with
  | [] => 0
  | y :: rest => if eqb x y then 0 else S (first_index x rest)
  end.

(** [np.unique(l, return_counts=True)], as the list of pairs. *)
Definition unique_counts_by (l : list A) : list (A * nat) :=
  map (fun u => (u, count_by u l)) (unique_by l).

(** The second result of [np.unique(l, return_index=True)]. *)
Definition unique_index_by (l : list A) : list nat :=
  map (fun u => first_index u l) (unique_by l).

End Unique.

(** [np.unique] of an integer vector. *)
Definition unique (l : list Z) : list Z := unique_by Z.ltb Z.eqb l.

Definition unique_counts (l : list Z) : list (Z * nat) :=
  unique_counts_by Z.ltb Z.eqb l.

(** Rows of integers in lexicographic order. *)
Fixpoint row_ltb (r1 r2 : list Z) : bool :=
  match r1, r2 with
  | [], [] => false
  | [], _ :: _ => true
  | _ :: _, [] => false
  | a :: r1', b :: r2' => (a <? b)%Z || ((a =? b)%Z && row_ltb r1' r2')
  end.

Definition row_eqb (r1 r2 : list Z) : bool := bool_decide (r1 = r2).

(** [a[:, indices]]: the listed columns, in the listed order; an index past
    the last column is an [IndexError]. *)
Definition take_columns (indices : list nat) (a : ndarray) : outcome ndarray :=
  if forallb (fun i => i <? shape1 a)%nat indices
  then Ret (Array (length indices)
                  (map (fun r => map (fun i => nth i r 0%Q) indices) (rows a)))
  else Raise IndexError.

(** [v[indices]] on a vector. *)
Definition take_entries {A : Type} (d : A) (indices : list nat) (v : list A)
    : outcome (list A) :=
  if forallb (fun i => i <? length v)%nat indices
  then Ret (map (fun i => nth i v d) indices)
  else Raise IndexError.

(** The point with index [i] of a cloud of shape (D, N): its column. *)
Definition column (i : nat) (a : ndarray) : list Q :=
  map (fun r => nth i r 0%Q) (rows a).

End np.

(* ===================================================================== *)
(** * app/utils/color_utils.py *)
(* ===================================================================== *)

Module color_utils.

Local Open Scope py_scope.

(** The first statement of [colorize_by_height]: pick the height channel,
    from row 2 when the leading dimension is 3 or 4 (layout (D, N)), from
    column 2 otherwise (layout (N, D)). *)
Definition height_channel (points : np.ndarray) : outcome (list Q) :=
  if (np.shape0 points =? 3)%nat || (np.shape0 points =? 4)%nat
  then np.row 2 points
  else np.col 2 points.

(** The arithmetic is that of the format of [points]; bounds that are
    given are floats of that format. *)
Definition colorize_by_height {fmt : np.Format} (points : np.ndarray)
    (z_min z_max : option Q) : outcome (list np.float) :=
  let+ z := height_channel points in
  let+ z_min := match z_min with None => np.amin z | Some v => Ret v end in
  let+ z_max := match z_max with None => np.amax z | Some v => Ret v end in
  let z_range := np.sub z_max z_min in
  if np.is_zero z_range
  then Ret (np.zeros_like z)
  else Ret (map (fun v => np.div (np.sub v z_min) z_range) z).

(** The two layouts of a cloud of N points with D channels each: shape
    (D, N), one row per channel, and shape (N, D), one row per point. *)
Inductive layout : Type :=
| channels_first
| points_first.

Definition n_points (l : layout) (points : np.ndarray) : nat :=
  match l with
  | channels_first => np.shape1 points
  | points_first => np.shape0 points
  end.

Definition n_channels (l : layout) (points : np.ndarray) : nat :=
  match l with
  | channels_first => np.shape0 points
  | points_first => np.shape1 points
  end.

(** The heights of the points of a cloud stored in the layout [l]: channel
    2, one value per point. *)
Definition heights (l : layout) (points : np.ndarray) : outcome (list Q) :=
  match l with
  | channels_first => np.row 2 points
  | points_first => np.col 2 points
  end.

(** The layout [colorize_by_height] takes an array to be stored in: (D, N)
    when the leading dimension is 3 or 4, (N, D) otherwise. *)
Definition read_as (points : np.ndarray) : layout :=
  if (np.shape0 points =? 3)%nat || (np.shape0 points =? 4)%nat
  then channels_first
  else points_first.

(** The arrays the function is written for: a non-empty cloud stored as
    (D, N) with 3 or 4 channels, or as (N, D) with at least 3 channels. *)
Definition point_cloud (points : np.ndarray) : Prop :=
  np.wf points /\
  (((np.shape0 points = 3 \/ np.shape0 points = 4) /\ 1 <= np.shape1 points)%nat
   \/ (1 <= np.shape0 points /\ 3 <= np.shape1 points)%nat).

(** Predefined color palette for instances (20 distinct colors). *)
Definition INSTANCE_COLORS : list (Z * Z * Z) :=
  [(255, 0, 0); (0, 255, 0); (0, 0, 255); (255, 255, 0); (255, 0, 255);
   (0, 255, 255); (255, 128, 0); (128, 0, 255); (0, 255, 128); (255, 0, 128);
   (128, 255, 0); (0, 128, 255); (255, 128, 128); (128, 255, 128);
   (128, 128, 255); (255, 255, 128); (255, 128, 255); (128, 255, 255);
   (192, 64, 0); (64, 192, 0)]%Z.

(** Background/unlabeled color. *)
Definition BACKGROUND_COLOR : Z * Z * Z := (128, 128, 128)%Z.

(** A colour of the 0-255 range: every channel is one byte. *)
Definition byte_color (c : Z * Z * Z) : Prop :=
  let '(r, g, b) := c in
  (0 <= r <= 255 /\ 0 <= g <= 255 /\ 0 <= b <= 255)%Z.

Definition instance_id_to_color (instance_id : Z) : outcome (Z * Z * Z) :=
  if (instance_id <? 0)%Z then Ret BACKGROUND_COLOR
  else
    match
      INSTANCE_COLORS
        !! Z.to_nat (instance_id mod Z.of_nat (length INSTANCE_COLORS))
    with
    | Some c => Ret c
    | None => Raise IndexError
    end.

(** [np.array(color) / 255.0] *)
Definition normalised (color : Z * Z * Z) : list Q :=
  let '(r, g, b) := color in [r # 255; g # 255; b # 255].

(** The loop of [colorize_by_instance] over the labels. *)
Fixpoint color_rows (segments : list Z) : outcome (list (list Q)) :=
  match segments with
  | [] => Ret []
  | seg_id :: rest =>
      let+ color := instance_id_to_color seg_id in
      let+ rows := color_rows rest in
      Ret (normalised color :: rows)
  end.

(** The result has shape (N, 3). *)
Definition colorize_by_instance (segments : list Z) : outcome np.ndarray :=
  let+ rows := color_rows segments in
  Ret (np.Array 3 rows).

Definition get_unique_instances (segments : list Z)
    (excluded_classes : option (gset Z)) : list Z :=
  let excluded_classes := default ∅ excluded_classes in
  let unique_ids := np.unique segments in
  filter (fun uid => uid ∉ excluded_classes) unique_ids.

End color_utils.

(* ===================================================================== *)
(** * The file system, as [os.path] and [np.load] see it *)
(* ===================================================================== *)

Module fs.

(** What a path may hold: a directory, a well-formed [.npy] file, or a file
    numpy cannot decode. *)
Inductive node : Type :=
| Dir
| Npy (a : np.value)
| Garbage.

Record disk : Type := Disk { nodes : gmap string node }.

(** [os.path.exists(path)] *)
Definition os_path_exists (d : disk) (path : string) : bool :=
  match nodes d !! path with
  | Some _ => true
  | None => false
  end.

(** The path separator, the character [/]. *)
Definition sep : Ascii.ascii := Ascii.ascii_of_nat 47.

Definition starts_with_sep (s : string) : bool :=
  match s with
  | String c _ => Ascii.eqb c sep
  | EmptyString => false
  end.

Fixpoint ends_with_sep (s : string) : bool :=
  match s with
  | EmptyString => false
  | String c EmptyString => Ascii.eqb c sep
  | String _ rest => ends_with_sep rest
  end.

(** [os.path.join(a, b)] of [posixpath], for two components. *)
Definition os_path_join (a b : string) : string :=
  if starts_with_sep b then b
  else if String.eqb a EmptyString || ends_with_sep a then (a ++ b)%string
  else (a ++ "/" ++ b)%string.

(** [np.load(path)] *)
Definition np_load (d : disk) (path : string) : outcome np.value :=
  match nodes d !! path with
  | None => Raise FileNotFoundError
  | Some Dir => Raise IsADirectoryError
  | Some Garbage => Raise ValueError
  | Some (Npy a) => Ret a
  end.

End fs.

(* ===================================================================== *)
(** * Collaborators of the data service *)
(* ===================================================================== *)

(** Modelled from the spec: the dataset class [PointceptDataset] and the
    helper [group_instances_across_frames] live in the [src] package of the
    repository and are not part of the app sources.  Section 6 of the spec
    gives their interface only: they read the stored scene and either return
    or raise.  They are kept abstract; everything the app does with them is
    translated from the app's code. *)
Class DatasetApi : Type := {
  Dataset : Type;
  (** [PointceptDataset(data_root)] *)
  PointceptDataset : string -> fs.disk -> outcome Dataset;
  (** [dataset._get_frame_dir(scene_id, frame_id)] *)
  _get_frame_dir : Dataset -> string -> string -> fs.disk -> outcome string;
  (** [dataset.get_frame_point_cloud(scene_id, frame_id)], of shape (D, N) *)
  dataset_get_frame_point_cloud :
    Dataset -> string -> string -> fs.disk -> outcome np.ndarray;
  (** [group_instances_across_frames(scene_id, dataset)] *)
  group_instances_across_frames :
    string -> Dataset -> fs.disk -> outcome (gmap Z (list string))
}.

(* ===================================================================== *)
(** * app/services/data_service.py *)
(* ===================================================================== *)

Module data_service.

Local Open Scope py_scope.

Section WithDataset.

Context `{api : DatasetApi}.

(** The state the service runs in: the stored dataset and one memo table
    per decorated function. *)
Record app : Type := App {
  disk : fs.disk;
  dataset_cache : gmap string Dataset;
  point_cloud_cache : gmap (string * string * string) np.ndarray;
  segments_cache : gmap (string * string * string) np.value;
  grouping_cache : gmap (string * string) (gmap string (list string))
}.

Definition set_dataset_cache (c : gmap string Dataset) (st : app) : app :=
  App (disk st) c (point_cloud_cache st) (segments_cache st) (grouping_cache st).

Definition set_point_cloud_cache
    (c : gmap (string * string * string) np.ndarray) (st : app) : app :=
  App (disk st) (dataset_cache st) c (segments_cache st) (grouping_cache st).

Definition set_segments_cache
    (c : gmap (string * string * string) np.value) (st : app) : app :=
  App (disk st) (dataset_cache st) (point_cloud_cache st) c (grouping_cache st).

Definition set_grouping_cache
    (c : gmap (string * string) (gmap string (list string))) (st : app) : app :=
  App (disk st) (dataset_cache st) (point_cloud_cache st) (segments_cache st) c.

(** [@st.cache_data] and [@st.cache_resource]: answer from the memo table
    when the arguments were seen before, run the function and remember its
    value otherwise.  A raised exception is not remembered. *)
Definition st_cache {K V : Type} `{Countable K}
    (table : app -> gmap K V) (set_table : gmap K V -> app -> app)
    (body : K -> M app V) (k : K) : M app V :=
  fun st =>
    match table st !! k with
    | Some v => (Ret v, st)
    | None =>
        match body k st with
        | (Ret v, st') => (Ret v, set_table (<[k := v]> (table st')) st')
        | (Raise e, st') => (Raise e, st')
        end
    end.

(** A collaborator call that reads the stored dataset. *)
Definition read {A : Type} (f : fs.disk -> outcome A) : M app A :=
  fun st => (f (disk st), st).

Definition get_dataset : string -> M app Dataset :=
  st_cache dataset_cache set_dataset_cache
    (fun data_root => read (PointceptDataset data_root)).

Definition get_frame_point_cloud : string * string * string -> M app np.ndarray :=
  st_cache point_cloud_cache set_point_cloud_cache
    (fun '(data_root, scene_id, frame_id) =>
       let* dataset := get_dataset data_root in
       read (dataset_get_frame_point_cloud dataset scene_id frame_id)).

Definition get_frame_segments : string * string * string -> M app np.value :=
  st_cache segments_cache set_segments_cache
    (fun '(data_root, scene_id, frame_id) =>
       let* dataset := get_dataset data_root in
       let* frame_dir := read (_get_frame_dir dataset scene_id frame_id) in
       let segment_path := fs.os_path_join frame_dir "segment.npy" in
       let* present := read (fun d => Ret (fs.os_path_exists d segment_path)) in
       if (present : bool)
       then read (fun d => fs.np_load d segment_path)
       else
         let* pc := get_frame_point_cloud (data_root, scene_id, frame_id) in
         ret (np.Ints (np.full (np.shape1 pc) (-1)))).

Definition group_instances_for_scene
    : string * string -> M app (gmap string (list string)) :=
  st_cache grouping_cache set_grouping_cache
    (fun '(data_root, scene_id) =>
       let* dataset := get_dataset data_root in
       let* grouped := read (group_instances_across_frames scene_id dataset) in
       ret (kmap (M2 := gmap string) builtins.str grouped)).

Definition clear_cache : M app unit :=
  fun st => (Ret tt, App (disk st) ∅ ∅ ∅ ∅).

(** ** What each function computes on a cold cache

    The same bodies with the memo tables erased: functions of the stored
    dataset alone.  The memo tables are coherent when every remembered value
    is the one the function would compute from the stored dataset now, as is
    the case when the dataset does not change while the app runs. *)

Definition cold_point_cloud (k : string * string * string) (d : fs.disk)
    : outcome np.ndarray :=
  let '(data_root, scene_id, frame_id) := k in
  let+ dataset := PointceptDataset data_root d in
  dataset_get_frame_point_cloud dataset scene_id frame_id d.

Definition cold_segments (k : string * string * string) (d : fs.disk)
    : outcome np.value :=
  let '(data_root, scene_id, frame_id) := k in
  let+ dataset := PointceptDataset data_root d in
  let+ frame_dir := _get_frame_dir dataset scene_id frame_id d in
  let segment_path := fs.os_path_join frame_dir "segment.npy" in
  if fs.os_path_exists d segment_path
  then fs.np_load d segment_path
  else
    let+ pc := cold_point_cloud k d in
    Ret (np.Ints (np.full (np.shape1 pc) (-1))).

Definition cold_grouping (k : string * string) (d : fs.disk)
    : outcome (gmap string (list string)) :=
  let '(data_root, scene_id) := k in
  let+ dataset := PointceptDataset data_root d in
  let+ grouped := group_instances_across_frames scene_id dataset d in
  Ret (kmap (M2 := gmap string) builtins.str grouped).

Record coherent (st : app) : Prop := Coherent {
  coherent_dataset : forall k v,
    dataset_cache st !! k = Some v -> PointceptDataset k (disk st) = Ret v;
  coherent_point_cloud : forall k v,
    point_cloud_cache st !! k = Some v -> cold_point_cloud k (disk st) = Ret v;
  coherent_segments : forall k v,
    segments_cache st !! k = Some v -> cold_segments k (disk st) = Ret v;
  coherent_grouping : forall k v,
    grouping_cache st !! k = Some v -> cold_grouping k (disk st) = Ret v
}.

(** The app as it starts: nothing remembered yet. *)
Definition fresh (d : fs.disk) : app := App d ∅ ∅ ∅ ∅.

End WithDataset.

End data_service.

(* ===================================================================== *)
(** * app/config.py *)
(* ===================================================================== *)

Module config.

(** What app/config.py configures for the patching service:
    [ACCUMULATION_STEP], the frame-sampling stride.  The service takes it
    from the configuration as it is, so the service is modelled for any
    configured value. *)
Class Settings : Type := {
  ACCUMULATION_STEP : Z
}.

(** [ACCUMULATION_STEP = 3], the value in app/config.py. *)
#[global] Instance shipped : Settings := {| ACCUMULATION_STEP := 3 |}.

(** Excluded segment classes (non-dynamic objects). *)
Definition EXCLUDED_SEGMENT_CLASSES : list Z :=
  [-1; 0; 1; 2; 4; 5; 9; 10; 12; 15; 20; 21; 17; 13]%Z.

End config.

(* ===================================================================== *)
(** * app/services/data_service.py: [get_frame_instances] *)
(* ===================================================================== *)

(** The fifth decorated function of the data service has a memo table of
    its own, next to the four of [data_service.app]. *)
Module frame_instances.

Import data_service.

Local Open Scope py_scope.

Section WithDataset.

Context `{api : DatasetApi}.

(** The arguments of a call: [excluded_classes] is [None] or a tuple. *)
Definition key : Type := string * string * string * option (list Z).

Record app_ext : Type := AppExt {
  base : app;
  instances_cache : gmap key (gmap Z nat)
}.

(** A call of one of the four other functions. *)
Definition lift {A : Type} (m : M app A) : M app_ext A :=
  fun st =>
    let (r, b) := m (base st) in
    (r, AppExt b (instances_cache st)).

(** A step that touches no state. *)
Definition pure {A : Type} (o : outcome A) : M app_ext A := fun st => (o, st).

(** [@st.cache_data] on the fifth table. *)
Definition st_cache_instances (body : key -> M app_ext (gmap Z nat)) (k : key)
    : M app_ext (gmap Z nat) :=
  fun st =>
    match instances_cache st !! k with
    | Some v => (Ret v, st)
    | None =>
        match body k st with
        | (Ret v, st') =>
            (Ret v, AppExt (base st') (<[k := v]> (instances_cache st')))
        | (Raise e, st') => (Raise e, st')
        end
    end.

(** The first loop: the instances whose frame list holds [frame_id], their
    keys read back as integers. *)
Definition frame_instance_ids (frame_id : string)
    (grouped : gmap string (list string)) : outcome (gset Z) :=
  map_fold
    (fun instance_id frame_ids acc =>
       let+ ids := acc in
       if bool_decide (frame_id ∈ frame_ids)
       then let+ k := builtins.int instance_id in Ret ({[k]} ∪ ids)
       else Ret ids)
    (Ret ∅) grouped.

(** [np.unique(segments, return_counts=True)] with both results read as
    Python integers. *)
Definition unique_counts_of (segments : np.value) : list (Z * nat) :=
  match segments with
  | np.Ints l => np.unique_counts l
  | np.Floats a =>
      map (fun '(uid, cnt) => (builtins.int_of_float uid, cnt))
        (np.unique_counts_by (fun x y => negb (Qle_bool y x)) Qeq_bool
           (concat (np.rows a)))
  end.

(** The dictionary comprehension: a later pair replaces an earlier one with
    the same key. *)
Definition segment_counts (segments : np.value) : gmap Z nat :=
  foldl (fun d '(uid, cnt) => <[uid := cnt]> d) ∅ (unique_counts_of segments).

(** The second loop. *)
Definition instances_of (excluded_classes : list Z)
    (frame_instance_ids : gset Z) (segment_counts : gmap Z nat) : gmap Z nat :=
  set_fold
    (fun instance_id instances =>
       if bool_decide (instance_id ∈ excluded_classes) then instances
       else
         let point_count := default 0%nat (segment_counts !! instance_id) in
         <[instance_id := point_count]> instances)
    ∅ frame_instance_ids.

Definition get_frame_instances : key -> M app_ext (gmap Z nat) :=
  st_cache_instances
    (fun '(data_root, scene_id, frame_id, excluded_classes) =>
       let excluded_classes :=
         default config.EXCLUDED_SEGMENT_CLASSES excluded_classes in
       let* grouped := lift (group_instances_for_scene (data_root, scene_id)) in
       let* frame_instance_ids := pure (frame_instance_ids frame_id grouped) in
       let* segments :=
         lift (get_frame_segments (data_root, scene_id, frame_id)) in
       ret (instances_of excluded_classes frame_instance_ids
              (segment_counts segments))).

(** [clear_cache] empties the fifth table with the others. *)
Definition clear_cache : M app_ext unit :=
  fun st => (Ret tt, AppExt (snd (data_service.clear_cache (base st))) ∅).

(** What the function computes on a cold cache. *)
Definition cold_instances (k : key) (d : fs.disk) : outcome (gmap Z nat) :=
  let '(data_root, scene_id, frame_id, excluded_classes) := k in
  let excluded_classes :=
    default config.EXCLUDED_SEGMENT_CLASSES excluded_classes in
  let+ grouped := cold_grouping (data_root, scene_id) d in
  let+ frame_instance_ids := frame_instance_ids frame_id grouped in
  let+ segments := cold_segments (data_root, scene_id, frame_id) d in
  Ret (instances_of excluded_classes frame_instance_ids
         (segment_counts segments)).

(** Coherent tables, the fifth included. *)
Definition coherent_ext (st : app_ext) : Prop :=
  coherent (base st) /\
  forall k v,
    instances_cache st !! k = Some v -> cold_instances k (disk (base st)) = Ret v.

(** The app as it starts. *)
Definition fresh_ext (d : fs.disk) : app_ext := AppExt (fresh d) ∅.

(** The stored dataset changes under the app: [d] replaces it, the memo
    tables stay as they are. *)
Definition with_disk (d : fs.disk) (st : app_ext) : app_ext :=
  AppExt (App d (dataset_cache (base st)) (point_cloud_cache (base st))
            (segments_cache (base st)) (grouping_cache (base st)))
         (instances_cache st).

End WithDataset.

End frame_instances.

(* ===================================================================== *)
(** * app/utils/downsampling.py *)
(* ===================================================================== *)

Module downsampling.

Local Open Scope py_scope.

(** The second component of a result: the labels of the points kept, or,
    without labels, the indices of the points kept. *)
Inductive kept : Type :=
| Labels (segments : list Z)
| Indices (indices : list nat).

(** [out] and [k] hold the points of [points] with the indices [indices],
    in that order, each with its label. *)
Definition selects (points : np.ndarray) (segments : option (list Z))
    (indices : list nat) (out : np.ndarray) (k : kept) : Prop :=
  np.shape1 out = length indices /\
  np.shape0 out = np.shape0 points /\
  np.wf out /\
  (forall j i, indices !! j = Some i -> np.column j out = np.column i points) /\
  k = match segments with
      | Some s => Labels (map (fun i => nth i s 0%Z) indices)
      | None => Indices indices
      end.

Section RandomDownsample.

(** The state of numpy's global random generator, and
    [np.random.choice(n, size=k, replace=False)] on it. *)
Context {Rng : Type} (random_choice : nat -> Z -> M Rng (list nat)).

Definition random_downsample (points : np.ndarray) (max_points : Z)
    (segments : option (list Z)) : M Rng (np.ndarray * kept) :=
  let n_points := np.shape1 points in
  if (Z.of_nat n_points <=? max_points)%Z then
    match segments with
    | Some segments => ret (points, Labels segments)
    | None => ret (points, Indices (seq 0 n_points))
    end
  else
    let* indices := random_choice n_points max_points in
    fun g =>
      (let+ downsampled_points := np.take_columns indices points in
       match segments with
       | Some segments =>
           let+ labels := np.take_entries 0%Z indices segments in
           Ret (downsampled_points, Labels labels)
       | None => Ret (downsampled_points, Indices indices)
       end, g).

(** What numpy documents of a sample without replacement of [k] out of
    [n], for [0 <= k <= n] and [n] positive: [k] distinct indices below
    [n]. *)
Definition samples_without_replacement : Prop :=
  forall (n : nat) (k : Z) (g : Rng),
    (0 <= k <= Z.of_nat n)%Z -> (1 <= n)%nat ->
    exists indices g',
      random_choice n k g = (Ret indices, g') /\
      Z.of_nat (length indices) = k /\
      NoDup indices /\
      Forall (fun i => i < n)%nat indices.

End RandomDownsample.

Section VoxelDownsample.

(** The format of [points]. *)
Context {fmt : np.Format}.

(** [.astype(np.int32)] of a float: the integer it holds when that is in
    the 32-bit range; beyond it, and on an infinity or a NaN, the result
    depends on the platform. *)
Context (astype_int32 : np.float -> Z).

(** One entry of [np.floor(coords / voxel_size).astype(np.int32)]: the
    Python float [voxel_size] is converted to the format of the array, the
    quotient is rounded in that format, then floored and cast. *)
Definition voxel_index (voxel_size : Q) (c : Q) : Z :=
  astype_int32 (np.floor (np.div (np.Finite c) (np.rounded voxel_size))).

(** [np.floor(coords / voxel_size).astype(np.int32)]: one row of up to three
    voxel coordinates per point. *)
Definition voxel_indices (points : np.ndarray) (voxel_size : Q)
    : list (list Z) :=
  let coords :=
    map (fun i => np.column i (np.Array (np.shape1 points)
                                        (firstn 3 (np.rows points))))
        (seq 0 (np.shape1 points)) in
  map (map (voxel_index voxel_size)) coords.

Definition voxel_downsample (points : np.ndarray) (voxel_size : Q)
    (segments : option (list Z)) : outcome (np.ndarray * kept) :=
  let voxel_indices := voxel_indices points voxel_size in
  let unique_indices :=
    np.unique_index_by np.row_ltb np.row_eqb voxel_indices in
  let+ downsampled_points := np.take_columns unique_indices points in
  match segments with
  | Some segments =>
      let+ labels := np.take_entries 0%Z unique_indices segments in
      Ret (downsampled_points, Labels labels)
  | None => Ret (downsampled_points, Indices unique_indices)
  end.

(** The voxel of a point: the cell of the grid of width [voxel_size] that
    holds its first three coordinates; [voxel points voxel_size j] is the
    voxel of the point with index [j]. *)
Definition voxel_of (voxel_size : Q) (point : list Q) : list Z :=
  map (voxel_index voxel_size) (firstn 3 point).

Definition voxel (points : np.ndarray) (voxel_size : Q) (j : nat) : list Z :=
  voxel_of voxel_size (np.column j points).

End VoxelDownsample.

End downsampling.

(* ===================================================================== *)
(** * app/services/visualization_service.py *)
(* ===================================================================== *)

Module visualization_service.

Local Open Scope py_scope.

(** The dictionary [get_point_cloud_stats] returns; the last two keys are
    present only when segment labels were given. *)
Record stats : Type := Stats {
  num_points : nat;
  x_range : Q * Q;
  y_range : Q * Q;
  z_range : Q * Q;
  num_instances : option nat;
  instance_ids : option (list Z)
}.

(** Every entry of [r] lies in the range. *)
Definition within (range : Q * Q) (r : list Q) : Prop :=
  Forall (fun v => fst range <= v /\ v <= snd range)%Q r.

(** [(float(points[i, :].min()), float(points[i, :].max()))] *)
Definition axis_range (i : nat) (points : np.ndarray) : outcome (Q * Q) :=
  let+ lo := (let+ r := np.row i points in np.amin r) in
  let+ hi := (let+ r := np.row i points in np.amax r) in
  Ret (lo, hi).

Definition get_point_cloud_stats (points : np.ndarray)
    (segments : option (list Z)) : outcome stats :=
  let+ x_range := axis_range 0 points in
  let+ y_range := axis_range 1 points in
  let+ z_range := axis_range 2 points in
  match segments with
  | Some segments =>
      let unique_instances := np.unique segments in
      Ret (Stats (np.shape1 points) x_range y_range z_range
             (Some (length unique_instances))
             (Some (filter (fun i => 0 <= i)%Z unique_instances)))
  | None =>
      Ret (Stats (np.shape1 points) x_range y_range z_range None None)
  end.

End visualization_service.

(* ===================================================================== *)
(** * app/components/instance_selector.py *)
(* ===================================================================== *)

Module instance_selector.

(** What the user did to the widgets in this run of the script:
    [button label] tells whether the button was clicked, [checkbox key value]
    is the state of the checkbox with that key, whose initial state is
    [value].  The calls that only display ([st.info], [st.subheader],
    [st.caption]) return nothing and are left out. *)
Record widgets : Type := Widgets {
  button : string -> bool;
  checkbox : string -> bool -> bool
}.

(** The order of the key [lambda x: -x[1]]: more points first. *)
Definition more_points (a b : Z * nat) : Prop := (snd b <= snd a)%nat.

#[global] Instance more_points_dec : RelDecision more_points.
Proof. intros a b. unfold more_points. apply _. Defined.

(** [sorted(instances.items(), key=lambda x: -x[1])] *)
Definition sorted_instances (instances : gmap Z nat) : list (Z * nat) :=
  merge_sort more_points (map_to_list instances).

Definition render_instance_selector (ui : widgets) (instances : gmap Z nat)
    (selected_instances : gset Z) : gset Z :=
  if bool_decide (instances = ∅) then ∅
  else if button ui "Select All" then dom instances
  else if button ui "Clear All" then ∅
  else
    foldl
      (fun new_selection '(instance_id, point_count) =>
         let checked :=
           checkbox ui ("instance_checkbox_" ++ builtins.str instance_id)%string
             (bool_decide (instance_id ∈ selected_instances)) in
         if (checked : bool) then {[instance_id]} ∪ new_selection
         else new_selection)
      ∅ (sorted_instances instances).

(** [[str(i) for i in selected_instances]], as [main] passes the selection
    to [patch_frame]. *)
Definition instance_ids (selected_instances : gset Z) : list string :=
  map builtins.str (elements selected_instances).

End instance_selector.

(* ===================================================================== *)
(** * app/components/viewer_3d.py *)
(* ===================================================================== *)

Module viewer_3d.

Local Open Scope py_scope.

(** What a metric shows, before it is formatted: a count, a dash, or a
    percentage. *)
Inductive shown : Type :=
| Count (n : Z)
| Dash
| Percent (x : Q).

(** One call of [st.metric]. *)
Record metric : Type := Metric {
  label : string;
  value : shown;
  delta : option Z
}.

(** The page is the list of metrics shown so far. *)
Definition st_metric (m : metric) : M (list metric) unit :=
  fun page => (Ret tt, page ++ [m]).

(** [a / b] on Python integers. *)
Definition truediv (a b : Z) : outcome Q :=
  if (b =? 0)%Z then Raise ZeroDivisionError
  else Ret (Qmake a 1 / Qmake b 1)%Q.

(** The three metrics shown before the percentage, [patched] being the
    second. *)
Definition first_three (original_pc : np.ndarray) (patched : metric)
    (selected_instances : gset Z) : list metric :=
  [Metric "Original Points" (Count (Z.of_nat (np.shape1 original_pc))) None;
   patched;
   Metric "Selected Instances" (Count (Z.of_nat (size selected_instances)))
     None].

(** The second metric when a patched cloud is shown. *)
Definition patched_metric (original_pc patched_pc : np.ndarray) : metric :=
  Metric "Patched Points" (Count (Z.of_nat (np.shape1 patched_pc)))
    (Some (Z.of_nat (np.shape1 patched_pc)
           - Z.of_nat (np.shape1 original_pc))%Z).

Definition render_comparison_stats (original_pc : np.ndarray)
    (patched_pc : option np.ndarray) (selected_instances : gset Z)
    : M (list metric) unit :=
  let n := Z.of_nat (np.shape1 original_pc) in
  do st_metric (Metric "Original Points" (Count n) None) then
  do match patched_pc with
     | Some patched_pc =>
         let delta := (Z.of_nat (np.shape1 patched_pc) - n)%Z in
         st_metric (Metric "Patched Points"
                      (Count (Z.of_nat (np.shape1 patched_pc))) (Some delta))
     | None => st_metric (Metric "Patched Points" Dash None)
     end then
  do st_metric (Metric "Selected Instances"
                  (Count (Z.of_nat (size selected_instances))) None) then
  match patched_pc with
  | Some patched_pc =>
      let* change_pct :=
        (fun page =>
           (let+ ratio :=
              truediv (Z.of_nat (np.shape1 patched_pc) - n)%Z n in
            Ret (ratio * 100)%Q, page)) in
      st_metric (Metric "Change" (Percent change_pct) None)
  | None => st_metric (Metric "Change" Dash None)
  end.

End viewer_3d.

(* ===================================================================== *)
(** * Collaborators of the patching service *)
(* ===================================================================== *)

(** Arrays handed between the service and its collaborators are objects with
    an identity: a location in a store of arrays.  [heap] only ever grows by
    allocation at its end; [ext] is whatever else the collaborators keep
    (the working copies of the frame patchers, the stored scene). *)
Definition loc : Type := nat.

Record store (Ext : Type) : Type := Store {
  heap : list np.ndarray;
  ext : Ext
}.
Arguments Store {Ext} heap ext.
Arguments heap {Ext} s.
Arguments ext {Ext} s.

#[global] Instance ndarray_inhabited : Inhabited np.ndarray :=
  populate (np.Array 0 []).

(** Modelled from the spec: the two accumulation strategies of the closed
    set named in section 4.2, whose classes are not part of the app sources.
    Their constructors take no argument. *)
Inductive AccumulationStrategy : Type :=
| DefaultAccumulatorStrategy
| GreedyGridAccumulatorStrategy.

(** The object built by [PointCloudAccumulator(step=..., grouped_instances=...,
    dataset=...)]: it keeps its three keyword arguments. *)
Record PointCloudAccumulator (D : Type) : Type := Accumulator {
  step : Z;
  grouped_instances : gmap string (list string);
  accumulator_dataset : D
}.
Arguments Accumulator {D} step grouped_instances accumulator_dataset.
Arguments step {D} p.
Arguments grouped_instances {D} p.
Arguments accumulator_dataset {D} p.

(** Modelled from the spec: the operations of the dataset, the accumulator
    and the frame patcher that [patch_frame] calls (sections 4.3, 4.4 and 6).
    Their code is not part of the app sources; each may mutate the store and
    may raise.  [frame] and [_segments] read the two attributes of a frame
    patcher. *)
Class PatchingApi : Type := {
  dataset_t : Type;
  Ext : Type;
  FramePatcher : Type;
  load_frame_patcher :
    dataset_t -> string -> string -> M (store Ext) FramePatcher;
  merge :
    PointCloudAccumulator dataset_t -> string -> string ->
    AccumulationStrategy -> M (store Ext) loc;
  patch_instance : FramePatcher -> string -> loc -> M (store Ext) unit;
  frame : FramePatcher -> store Ext -> np.ndarray;
  _segments : FramePatcher -> store Ext -> list Z
}.

(* ===================================================================== *)
(** * app/services/patching_service.py *)
(* ===================================================================== *)

Module patching_service.

Local Open Scope py_scope.

Section WithCollaborators.

Context `{api : PatchingApi}.

(** The configuration the service runs under. *)
Context {settings : config.Settings}.

(** The state of the caller's progress callback (the progress bar). *)
Context {Ui : Type}.

(** What is observed of a call: the calls the service makes, in order.
    An event is recorded when the call is made, before its outcome is
    known. *)
Inductive event : Type :=
| NewAccumulator (acc : PointCloudAccumulator dataset_t)
| LoadFramePatcher (dataset : dataset_t) (scene_id frame_id : string)
| Progress (fraction : Q) (text : string)
| Merge (acc : PointCloudAccumulator dataset_t) (scene_id instance_id : string)
        (strategy : AccumulationStrategy)
| Merged (accumulated_pc : loc)
| Copy (src dst : loc)
| PatchInstance (patcher : FramePatcher) (instance_id : string) (arr : loc).

Record world : Type := World {
  store_of : store Ext;
  ui : Ui;
  log : list event
}.

(** A progress callback gets a fraction and a text, acts on the caller's
    own state, and may raise. *)
Definition callback : Type := Q -> string -> M Ui unit.

Definition emit (e : event) : M world unit :=
  fun w => (Ret tt, World (store_of w) (ui w) (log w ++ [e])).

(** A call into a collaborator. *)
Definition call {A : Type} (m : M (store Ext) A) : M world A :=
  fun w =>
    let (r, s) := m (store_of w) in
    (r, World s (ui w) (log w)).

(** A call of the progress callback. *)
Definition call_back (f : callback) (fraction : Q) (text : string)
    : M world unit :=
  do emit (Progress fraction text) then
  fun w =>
    let (r, u) := f fraction text (ui w) in
    (r, World (store_of w) u (log w)).

(** [np.copy(a)]: a new array object with the contents of [a]. *)
Definition np_copy (a : loc) : M world loc :=
  fun w =>
    let s := store_of w in
    let dst := length (heap s) in
    (Ret dst,
     World (Store (heap s ++ [heap s !!! a]) (ext s)) (ui w)
           (log w ++ [Copy a dst])).

(** [i / total] on Python integers. *)
Definition truediv (i total : nat) : outcome Q :=
  match total with
  | O => Raise ZeroDivisionError
  | S _ => Ret (Z.of_nat i # Pos.of_nat total)
  end.

Record PatchingService : Type := Service {
  dataset : dataset_t;
  strategy : AccumulationStrategy;
  strategy_name : string
}.

Definition _get_strategy (strategy_name : string) : AccumulationStrategy :=
  if String.eqb strategy_name "greedy_grid"
  then GreedyGridAccumulatorStrategy
  else DefaultAccumulatorStrategy.

(** [PatchingService.__init__] *)
Definition __init__ (dataset : dataset_t) (strategy : string)
    : PatchingService :=
  Service dataset (_get_strategy strategy) strategy.

(** [if progress_callback: progress_callback(fraction, text)] *)
Definition report (progress_callback : option callback)
    (fraction : outcome Q) (text : string) : M world unit :=
  match progress_callback with
  | Some f =>
      match fraction with
      | Ret q => call_back f q text
      | Raise e => raise e
      end
  | None => ret tt
  end.

(** [f"Patching instance {instance_id}..."] *)
Definition progress_text (instance_id : string) : string :=
  ("Patching instance " ++ instance_id ++ "...")%string.

(** The statements of the loop body after the progress report: skip an
    instance that is not a key of [grouped_instances], otherwise accumulate
    and patch. *)
Definition accumulate_and_patch (self : PatchingService)
    (accumulator : PointCloudAccumulator dataset_t) (patcher : FramePatcher)
    (scene_id : string) (grouped_instances : gmap string (list string))
    (instance_id : string) : M world unit :=
  match grouped_instances !! instance_id with
  | None => ret tt
  | Some _ =>
      let* accumulated_pc :=
        (do emit (Merge accumulator scene_id instance_id (strategy self)) then
         let* m := call (merge accumulator scene_id instance_id (strategy self)) in
         do emit (Merged m) then ret m) in
      let* fresh_copy := np_copy accumulated_pc in
      do emit (PatchInstance patcher instance_id fresh_copy) then
      call (patch_instance patcher instance_id fresh_copy)
  end.

(** The body of the [for] loop of [patch_frame], for the instance at
    index [i]. *)
Definition patch_one (self : PatchingService)
    (accumulator : PointCloudAccumulator dataset_t) (patcher : FramePatcher)
    (scene_id : string) (grouped_instances : gmap string (list string))
    (progress_callback : option callback)
    (total i : nat) (instance_id : string) : M world unit :=
  do report progress_callback (truediv i total)
       (progress_text instance_id) then
  accumulate_and_patch self accumulator patcher scene_id grouped_instances
    instance_id.

(** [for i, instance_id in enumerate(instance_ids): ...], from index [i]. *)
Fixpoint patch_loop (self : PatchingService)
    (accumulator : PointCloudAccumulator dataset_t) (patcher : FramePatcher)
    (scene_id : string) (grouped_instances : gmap string (list string))
    (progress_callback : option callback)
    (total i : nat) (instance_ids : list string) : M world unit :=
  match instance_ids with
  | [] => ret tt
  | instance_id :: rest =>
      do patch_one self accumulator patcher scene_id grouped_instances
           progress_callback total i instance_id then
      patch_loop self accumulator patcher scene_id grouped_instances
        progress_callback total (S i) rest
  end.

Definition patch_frame (self : PatchingService)
    (scene_id frame_id : string) (instance_ids : list string)
    (grouped_instances : gmap string (list string))
    (progress_callback : option callback)
    : M world (np.ndarray * list Z) :=
  let accumulator :=
    Accumulator config.ACCUMULATION_STEP grouped_instances (dataset self) in
  do emit (NewAccumulator accumulator) then
  let* patcher :=
    (do emit (LoadFramePatcher (dataset self) scene_id frame_id) then
     call (load_frame_patcher (dataset self) scene_id frame_id)) in
  let total := length instance_ids in
  do patch_loop self accumulator patcher scene_id grouped_instances
       progress_callback total 0 instance_ids then
  do report progress_callback (Ret 1%Q) "Patching complete!" then
  fun w => (Ret (frame patcher (store_of w), _segments patcher (store_of w)), w).

(** The world in which a call starts: nothing observed yet. *)
Definition start (s : store Ext) (u : Ui) : world := World s u [].

(** The world right after the frame patcher was loaded. *)
Definition loaded (self : PatchingService) (scene_id frame_id : string)
    (grouped_instances : gmap string (list string))
    (s1 : store Ext) (u : Ui) : world :=
  World s1 u
    [NewAccumulator
       (Accumulator config.ACCUMULATION_STEP grouped_instances (dataset self));
     LoadFramePatcher (dataset self) scene_id frame_id].

(** [PatchingService.get_instance_info]: the dictionary returned, with the
    keys it has. *)
Definition get_instance_info (self : PatchingService)
    (scene_id instance_id : string)
    (grouped_instances : gmap string (list string))
    : outcome (gmap string builtins.object) :=
  match grouped_instances !! instance_id with
  | None =>
      Ret (<["frames" := builtins.PyInt 0]>
             (<["exists" := builtins.PyBool false]> ∅))
  | Some frames =>
      let+ first_frame :=
        match frames with
        | [] => Ret builtins.PyNone
        | _ => let+ f := builtins.getitem frames 0 in Ret (builtins.PyStr f)
        end in
      let+ last_frame :=
        match frames with
        | [] => Ret builtins.PyNone
        | _ => let+ f := builtins.getitem frames (-1) in Ret (builtins.PyStr f)
        end in
      Ret (<["frames" := builtins.PyInt (Z.of_nat (length frames))]>
             (<["first_frame" := first_frame]>
                (<["last_frame" := last_frame]>
                   (<["exists" := builtins.PyBool true]> ∅))))
  end.

(** ** What is stated about a run *)

Implicit Types (self : PatchingService) (w : world) (f : callback)
  (progress_callback : option callback)
  (grouped : gmap string (list string)).

(** What [report] does: nothing without a callback; otherwise one call of
    the callback, recorded, whose outcome is the outcome of the statement. *)
Inductive reported progress_callback (fraction : outcome Q) (text : string) w
  : outcome unit -> world -> Prop :=
| reported_none :
    progress_callback = None ->
    reported progress_callback fraction text w (Ret tt) w
| reported_undefined f e :
    progress_callback = Some f -> fraction = Raise e ->
    reported progress_callback fraction text w (Raise e) w
| reported_call f q r u :
    progress_callback = Some f -> fraction = Ret q ->
    f q text (ui w) = (r, u) ->
    reported progress_callback fraction text w r
      (World (store_of w) u (log w ++ [Progress q text])).

(** The four ways one iteration can go. *)
Inductive patched_one self (acc : PointCloudAccumulator dataset_t)
    (patcher : FramePatcher) (scene_id : string) grouped progress_callback
    (total i : nat) (instance_id : string) w
  : outcome unit -> world -> Prop :=
| one_report_raised e w1 :
    reported progress_callback (truediv i total) (progress_text instance_id)
      w (Raise e) w1 ->
    patched_one self acc patcher scene_id grouped progress_callback
      total i instance_id w (Raise e) w1
| one_skipped w1 :
    reported progress_callback (truediv i total) (progress_text instance_id)
      w (Ret tt) w1 ->
    grouped !! instance_id = None ->
    patched_one self acc patcher scene_id grouped progress_callback
      total i instance_id w (Ret tt) w1
| one_merge_raised w1 frames e s' :
    reported progress_callback (truediv i total) (progress_text instance_id)
      w (Ret tt) w1 ->
    grouped !! instance_id = Some frames ->
    merge acc scene_id instance_id (strategy self) (store_of w1)
      = (Raise e, s') ->
    patched_one self acc patcher scene_id grouped progress_callback
      total i instance_id w (Raise e)
      (World s' (ui w1)
         (log w1 ++ [Merge acc scene_id instance_id (strategy self)]))
| one_patched w1 frames m s2 r s' :
    reported progress_callback (truediv i total) (progress_text instance_id)
      w (Ret tt) w1 ->
    grouped !! instance_id = Some frames ->
    merge acc scene_id instance_id (strategy self) (store_of w1)
      = (Ret m, s2) ->
    patch_instance patcher instance_id (length (heap s2))
      (Store (heap s2 ++ [heap s2 !!! m]) (ext s2)) = (r, s') ->
    patched_one self acc patcher scene_id grouped progress_callback
      total i instance_id w r
      (World s' (ui w1)
         (log w1 ++ [Merge acc scene_id instance_id (strategy self);
                     Merged m; Copy m (length (heap s2));
                     PatchInstance patcher instance_id (length (heap s2))])).

(** The events one iteration may record. *)
Inductive step_event self (acc : PointCloudAccumulator dataset_t)
    (patcher : FramePatcher) (scene_id : string) grouped
    (total i : nat) (instance_id : string) : event -> Prop :=
| step_progress q :
    truediv i total = Ret q ->
    step_event self acc patcher scene_id grouped total i instance_id
      (Progress q (progress_text instance_id))
| step_merge :
    is_Some (grouped !! instance_id) ->
    step_event self acc patcher scene_id grouped total i instance_id
      (Merge acc scene_id instance_id (strategy self))
| step_merged m :
    is_Some (grouped !! instance_id) ->
    step_event self acc patcher scene_id grouped total i instance_id (Merged m)
| step_copy m l :
    is_Some (grouped !! instance_id) ->
    step_event self acc patcher scene_id grouped total i instance_id (Copy m l)
| step_patch l :
    is_Some (grouped !! instance_id) ->
    step_event self acc patcher scene_id grouped total i instance_id
      (PatchInstance patcher instance_id l).

(** An event that is no accumulation, copy or patch. *)
Definition quiet (e : event) : Prop :=
  match e with
  | Merge _ _ _ _ | Merged _ | Copy _ _ | PatchInstance _ _ _ => False
  | _ => True
  end.

(** The events of the loop and of the closing report. *)
Inductive service_event self (acc : PointCloudAccumulator dataset_t)
    (scene_id : string) grouped (instance_ids : list string)
  : event -> Prop :=
| service_progress q text :
    service_event self acc scene_id grouped instance_ids (Progress q text)
| service_merge instance_id :
    instance_id ∈ instance_ids -> is_Some (grouped !! instance_id) ->
    service_event self acc scene_id grouped instance_ids
      (Merge acc scene_id instance_id (strategy self))
| service_merged m :
    service_event self acc scene_id grouped instance_ids (Merged m)
| service_copy m l :
    service_event self acc scene_id grouped instance_ids (Copy m l)
| service_patch patcher instance_id l :
    instance_id ∈ instance_ids -> is_Some (grouped !! instance_id) ->
    service_event self acc scene_id grouped instance_ids
      (PatchInstance patcher instance_id l).

(** An event that builds no accumulator and merges, if at all, on [acc]. *)
Definition on_accumulator (acc : PointCloudAccumulator dataset_t) (e : event)
    : Prop :=
  match e with
  | NewAccumulator _ => False
  | Merge a _ _ _ => a = acc
  | _ => True
  end.

(** The callback raises [e] on some call. *)
Definition callback_raises f (e : exn) : Prop :=
  exists q text v, fst (f q text v) = Raise e.

(** An event that is no merge and no patch of [instance_id]. *)
Definition not_about (instance_id : string) (e : event) : Prop :=
  match e with
  | Merge _ _ x _ | PatchInstance _ x _ => x <> instance_id
  | _ => True
  end.

(** The fractions the callback was called with, in order. *)
Fixpoint fractions (lg : list event) : list Q :=
  match lg with
  | [] => []
  | Progress q _ :: rest => q :: fractions rest
  | _ :: rest => fractions rest
  end.

(** The fraction reported for the instance at index [i]. *)
Definition fraction_of (total i : nat) : Q := Z.of_nat i # Pos.of_nat total.

(** A collaborator raises [e] in the course of a run, and [wf] is the world
    at that moment: either the load of the frame patcher raises, or the
    instances before some key [instance_id] of the index have been processed,
    the progress of [instance_id] has been reported, and then the merge, or
    after it the patch, of [instance_id] raises.  The store of [wf] is the
    store the raising call left behind. *)
Inductive collaborator_raises self scene_id frame_id
    (instance_ids : list string) grouped progress_callback
    (s : store Ext) (u : Ui) (e : exn) : world -> Prop :=
| load_raises s1 :
    load_frame_patcher (dataset self) scene_id frame_id s = (Raise e, s1) ->
    collaborator_raises self scene_id frame_id instance_ids grouped
      progress_callback s u e (loaded self scene_id frame_id grouped s1 u)
| merge_raises patcher s1 before instance_id after wk w1 s' :
    instance_ids = before ++ instance_id :: after ->
    load_frame_patcher (dataset self) scene_id frame_id s = (Ret patcher, s1) ->
    patch_loop self
      (Accumulator config.ACCUMULATION_STEP grouped (dataset self))
      patcher scene_id grouped progress_callback (length instance_ids) 0
      before (loaded self scene_id frame_id grouped s1 u) = (Ret tt, wk) ->
    report progress_callback (truediv (length before) (length instance_ids))
      (progress_text instance_id) wk = (Ret tt, w1) ->
    is_Some (grouped !! instance_id) ->
    merge (Accumulator config.ACCUMULATION_STEP grouped (dataset self))
      scene_id instance_id (strategy self) (store_of w1) = (Raise e, s') ->
    collaborator_raises self scene_id frame_id instance_ids grouped
      progress_callback s u e
      (World s' (ui w1)
         (log w1 ++
          [Merge (Accumulator config.ACCUMULATION_STEP grouped (dataset self))
             scene_id instance_id (strategy self)]))
| patch_instance_raises patcher s1 before instance_id after wk w1 m s2 s' :
    instance_ids = before ++ instance_id :: after ->
    load_frame_patcher (dataset self) scene_id frame_id s = (Ret patcher, s1) ->
    patch_loop self
      (Accumulator config.ACCUMULATION_STEP grouped (dataset self))
      patcher scene_id grouped progress_callback (length instance_ids) 0
      before (loaded self scene_id frame_id grouped s1 u) = (Ret tt, wk) ->
    report progress_callback (truediv (length before) (length instance_ids))
      (progress_text instance_id) wk = (Ret tt, w1) ->
    is_Some (grouped !! instance_id) ->
    merge (Accumulator config.ACCUMULATION_STEP grouped (dataset self))
      scene_id instance_id (strategy self) (store_of w1) = (Ret m, s2) ->
    patch_instance patcher instance_id (length (heap s2))
      (Store (heap s2 ++ [heap s2 !!! m]) (ext s2)) = (Raise e, s') ->
    collaborator_raises self scene_id frame_id instance_ids grouped
      progress_callback s u e
      (World s' (ui w1)
         (log w1 ++
          [Merge (Accumulator config.ACCUMULATION_STEP grouped (dataset self))
             scene_id instance_id (strategy self);
           Merged m; Copy m (length (heap s2));
           PatchInstance patcher instance_id (length (heap s2))])).

(** The instances merged, in order, each with the strategy used. *)
Fixpoint merges (lg : list event) : list (string * AccumulationStrategy) :=
  match lg with
  | [] => []
  | Merge _ _ instance_id strategy :: rest =>
      (instance_id, strategy) :: merges rest
  | _ :: rest => merges rest
  end.

(** The instances patched, in order. *)
Fixpoint patches (lg : list event) : list string :=
  match lg with
  | [] => []
  | PatchInstance _ instance_id _ :: rest => instance_id :: patches rest
  | _ :: rest => patches rest
  end.

(** The requested instances that are keys of the index, in the order and
    with the repetitions of the request. *)
Definition present grouped (instance_ids : list string) : list string :=
  filter (fun instance_id => is_Some (grouped !! instance_id)) instance_ids.

(** Collaborators that never free an array, and a merge that returns an
    array that exists. *)
Record keeps_arrays : Prop := KeepsArrays {
  merge_keeps : forall acc scene_id instance_id strat (s : store Ext),
    (length (heap s)
     <= length (heap (snd (merge acc scene_id instance_id strat s))))%nat;
  merge_returns_array : forall acc scene_id instance_id strat (s s' : store Ext) m,
    merge acc scene_id instance_id strat s = (Ret m, s') ->
    (m < length (heap s'))%nat;
  patch_instance_keeps : forall patcher instance_id l (s : store Ext),
    (length (heap s)
     <= length (heap (snd (patch_instance patcher instance_id l s))))%nat
}.

(** ** The calls a run makes *)

(** The calls to the collaborators that process the instances
    [instance_ids], one after the other, from the store [s]: each instance
    is merged on [acc] with the strategy [strat]; then the array [m] the
    merge returned is copied, to a new array at the end of the heap; then
    that new array is passed to [patch_instance] of [patcher].  The
    processing ends at the first call that raises, or after the last
    instance: [o] is how it ends and [s'] the store it leaves.  [copies]
    has, for every call of [patch_instance] made, the array the merge
    returned and the array passed. *)
Inductive processed (acc : PointCloudAccumulator dataset_t)
    (strat : AccumulationStrategy) (patcher : FramePatcher)
    (scene_id : string)
  : list string -> store Ext -> list (loc * loc) -> outcome unit ->
    store Ext -> Prop :=
| processed_all s :
    processed acc strat patcher scene_id [] s [] (Ret tt) s
| processed_merge_raises instance_id rest s e s' :
    merge acc scene_id instance_id strat s = (Raise e, s') ->
    processed acc strat patcher scene_id (instance_id :: rest) s []
      (Raise e) s'
| processed_patch_raises instance_id rest s m s2 e s' :
    merge acc scene_id instance_id strat s = (Ret m, s2) ->
    patch_instance patcher instance_id (length (heap s2))
      (Store (heap s2 ++ [heap s2 !!! m]) (ext s2)) = (Raise e, s') ->
    processed acc strat patcher scene_id (instance_id :: rest) s
      [(m, length (heap s2))] (Raise e) s'
| processed_next instance_id rest s m s2 s3 copies o s' :
    merge acc scene_id instance_id strat s = (Ret m, s2) ->
    patch_instance patcher instance_id (length (heap s2))
      (Store (heap s2 ++ [heap s2 !!! m]) (ext s2)) = (Ret tt, s3) ->
    processed acc strat patcher scene_id rest s3 copies o s' ->
    processed acc strat patcher scene_id (instance_id :: rest) s
      ((m, length (heap s2)) :: copies) o s'.

(** The calls of the callback [f] with the arguments [calls], one after the
    other, from the state [u] of the caller.  They end at the first call
    that raises, or after the last: [o] is how they end and [u'] the state
    they leave. *)
Inductive called_back f
  : list (Q * string) -> Ui -> outcome unit -> Ui -> Prop :=
| called_all u :
    called_back f [] u (Ret tt) u
| called_raises fraction text rest u e u' :
    f fraction text u = (Raise e, u') ->
    called_back f ((fraction, text) :: rest) u (Raise e) u'
| called_next fraction text rest u u1 o u' :
    f fraction text u = (Ret tt, u1) ->
    called_back f rest u1 o u' ->
    called_back f ((fraction, text) :: rest) u o u'.

(** The arguments of the progress reports of the loop over [instance_ids],
    the first of which has index [i]. *)
Fixpoint loop_reports (total i : nat) (instance_ids : list string)
    : list (Q * string) :=
  match instance_ids with
  | [] => []
  | instance_id :: rest =>
      (fraction_of total i, progress_text instance_id)
        :: loop_reports total (S i) rest
  end.

End WithCollaborators.

End patching_service.

(* ===================================================================== *)
(** * Reference collaborators *)
(* ===================================================================== *)

Module reference.

Local Open Scope py_scope.

(** One stored frame, or the working copy a frame patcher owns: the point
    cloud, of shape (D, N), and one label per point. *)
Record frame_data : Type := FrameData {
  points : np.ndarray;
  labels : list Z
}.

Record state : Type := State {
  scene_frames : gmap (string * string) frame_data;
  patchers : list frame_data
}.

(** [int(s)] of a decimal numeral. *)
Definition int (s : string) : outcome Z :=
  match NilZero.int_of_string s with
  | Some d => Ret (Z.of_int d)
  | None => Raise ValueError
  end.

(** The entries of [xs] at the positions where [mask] holds. *)
Fixpoint keep {A : Type} (mask : list bool) (xs : list A) : list A :=
  match mask, xs with
  | b :: mask', x :: xs' => if b then x :: keep mask' xs' else keep mask' xs'
  | _, _ => []
  end.

(** [a[:, mask]] *)
Definition columns (mask : list bool) (a : np.ndarray) : np.ndarray :=
  np.Array (length (keep mask mask)) (map (keep mask) (np.rows a)).

(** [np.hstack((a, b))]; the channel counts must agree. *)
Definition hstack (a b : np.ndarray) : outcome np.ndarray :=
  if decide (np.shape0 a = np.shape0 b)
  then Ret (np.Array (np.shape1 a + np.shape1 b)
                     (zip_with app (np.rows a) (np.rows b)))
  else Raise ValueError.

(** [frames[::n]], counting positions from [k]. *)
Fixpoint sample_from {A : Type} (k n : nat) (frames : list A) : list A :=
  match frames with
  | [] => []
  | f :: rest =>
      if (k mod n =? 0)%nat
      then f :: sample_from (S k) n rest
      else sample_from (S k) n rest
  end.

Definition alloc (a : np.ndarray) : M (store state) loc :=
  fun s => (Ret (length (heap s)), Store (heap s ++ [a]) (ext s)).

(** Modelled from the spec: [load_frame_patcher] seeds a frame patcher with
    a copy of the stored frame (section 6); a frame that is not stored is a
    collaborator failure. *)
Definition load_frame_patcher (_ : string) (scene_id frame_id : string)
    : M (store state) nat :=
  fun s =>
    match scene_frames (ext s) !! (scene_id, frame_id) with
    | None => (Raise FileNotFoundError, s)
    | Some fd =>
        (Ret (length (patchers (ext s))),
         Store (heap s)
               (State (scene_frames (ext s)) (patchers (ext s) ++ [fd])))
    end.

(** The points of one stored frame that carry the label [id]. *)
Definition observation (st : state) (scene_id : string) (id : Z)
    (frame_id : string) : outcome np.ndarray :=
  match scene_frames st !! (scene_id, frame_id) with
  | None => Raise FileNotFoundError
  | Some fd => Ret (columns (map (Z.eqb id) (labels fd)) (points fd))
  end.

(** Concatenation of the observations, in sampling order. *)
Fixpoint accumulate (st : state) (scene_id : string) (id : Z)
    (merged : np.ndarray) (frames : list string) : outcome np.ndarray :=
  match frames with
  | [] => Ret merged
  | f :: rest =>
      let+ obs := observation st scene_id id f in
      let+ merged' := hstack merged obs in
      accumulate st scene_id id merged' rest
  end.

(** Modelled from the spec: [Accumulator.merge] of section 4.3 with the
    Default strategy of section 4.2, over a scene whose poses are all the
    identity: an instance that is not a key of the index gives the empty
    point set; otherwise every [step]-th frame of its frame list is sampled
    and the observations are concatenated in sampling order.  Greedy-grid
    alignment falls back to the identity here. *)
Definition merge (acc : PointCloudAccumulator string) (scene_id : string)
    (instance_id : string) (_ : AccumulationStrategy)
    : M (store state) loc :=
  fun s =>
    match grouped_instances acc !! instance_id with
    | None => alloc (np.Array 0 []) s
    | Some frames =>
        match int instance_id with
        | Raise e => (Raise e, s)
        | Ret id =>
            match sample_from 0 (Z.to_nat (step acc)) frames with
            | [] => alloc (np.Array 0 []) s
            | f :: rest =>
                match
                  (let+ first := observation (ext s) scene_id id f in
                   accumulate (ext s) scene_id id first rest)
                with
                | Raise e => (Raise e, s)
                | Ret merged => alloc merged s
                end
            end
        end
    end.

(** Modelled from the spec: [patch_instance] of section 4.4.  The points
    labelled with the instance are removed and the replacement is appended,
    each new point tagged with the instance id; when no point carries the
    label the working copy is left as it is; a replacement with another
    channel count is malformed input. *)
Definition patch_instance (patcher : nat) (instance_id : string)
    (replacement : loc) : M (store state) unit :=
  fun s =>
    match patchers (ext s) !! patcher with
    | None => (Raise (Error "unknown frame patcher"), s)
    | Some fd =>
        match int instance_id with
        | Raise e => (Raise e, s)
        | Ret id =>
            let hit := map (Z.eqb id) (labels fd) in
            if forallb negb hit then (Ret tt, s)
            else
              let rest := map negb hit in
              let new_points := heap s !!! replacement in
              match hstack (columns rest (points fd)) new_points with
              | Raise e => (Raise e, s)
              | Ret patched =>
                  let fd' :=
                    FrameData patched
                      (keep rest (labels fd)
                         ++ replicate (np.shape1 new_points) id) in
                  (Ret tt,
                   Store (heap s)
                         (State (scene_frames (ext s))
                                (<[patcher := fd']> (patchers (ext s)))))
              end
        end
    end.

#[global] Instance frame_data_inhabited : Inhabited frame_data :=
  populate (FrameData (np.Array 0 []) []).

Definition frame (patcher : nat) (s : store state) : np.ndarray :=
  points (patchers (ext s) !!! patcher).

Definition _segments (patcher : nat) (s : store state) : list Z :=
  labels (patchers (ext s) !!! patcher).

Definition api : PatchingApi :=
  Build_PatchingApi string state nat
    load_frame_patcher merge patch_instance frame _segments.

End reference.

(* ===================================================================== *)
(** * A small stored scene *)
(* ===================================================================== *)

Module demo.

Import reference.

Local Open Scope Z_scope.

Definition cloud (xs ys zs : list Z) : np.ndarray :=
  np.Array (length xs) [map inject_Z xs; map inject_Z ys; map inject_Z zs].

(** Scene [S]: instance 7 is seen in all four frames, instance 9 in the
    first and the last. *)
Definition f0 : frame_data :=
  FrameData (cloud [1; 2; 3; 4] [0; 0; 1; 1] [5; 6; 7; 8]) [7; 0; 7; 9]%Z.
Definition f1 : frame_data :=
  FrameData (cloud [11; 12] [0; 1] [5; 5]) [7; 0]%Z.
Definition f2 : frame_data :=
  FrameData (cloud [21; 22] [2; 3] [6; 6]) [0; 7]%Z.
Definition f3 : frame_data :=
  FrameData (cloud [31; 32; 33] [4; 5; 6] [9; 9; 9]) [7; 7; 9]%Z.

Definition stored : state :=
  State (list_to_map [(("S", "f0"), f0); (("S", "f1"), f1);
                      (("S", "f2"), f2); (("S", "f3"), f3)]) [].

(** The grouping index of [S]; the entry for instance 8 names a frame that
    is not stored. *)
Definition grouped : gmap string (list string) :=
  list_to_map [("7", ["f0"; "f1"; "f2"; "f3"]); ("9", ["f0"; "f3"]);
               ("8", ["f9"])].

Definition s0 : store state := Store [] stored.

Definition service : patching_service.PatchingService (api := api) :=
  patching_service.__init__ (api := api) "/data" "default".

(** A progress bar that remembers the fractions it was shown. *)
Definition progress_bar : patching_service.callback (Ui := list Q) :=
  fun fraction _ shown => (Ret tt, shown ++ [fraction]).

(** A progress bar that fails once it is asked to show the half. *)
Definition broken_bar : patching_service.callback (Ui := list Q) :=
  fun fraction _ shown =>
    if Qle_bool (1 # 2) fraction
    then (Raise (Error "progress bar"), shown)
    else (Ret tt, shown ++ [fraction]).

(** A call of [patch_frame] on frame [f0] of scene [S]. *)
Definition run (instance_ids : list string)
    (progress_callback : option (patching_service.callback (Ui := list Q)))
    : outcome (np.ndarray * list Z)
      * patching_service.world (api := api) (Ui := list Q) :=
  patching_service.patch_frame (api := api) service "S" "f0" instance_ids
    grouped progress_callback (patching_service.start (api := api) s0 []).

(** The stations of the call on the instances 7, 8, 9 with a progress bar:
    the frame patcher loaded, instance 7 patched, the progress of instance 8
    reported, and the store the merge of instance 8 leaves. *)
Definition accumulator : PointCloudAccumulator string :=
  Accumulator config.ACCUMULATION_STEP grouped "/data".

Definition loaded_store : store state :=
  snd (load_frame_patcher "/data" "S" "f0" s0).

Definition after_7 : patching_service.world (api := api) (Ui := list Q) :=
  snd (patching_service.patch_loop (api := api) service accumulator 0%nat
         "S" grouped (Some progress_bar) 3 0 ["7"]
         (patching_service.loaded (api := api) service "S" "f0" grouped
            loaded_store [])).

Definition reported_8 : patching_service.world (api := api) (Ui := list Q) :=
  snd (patching_service.report (api := api) (Some progress_bar)
         (patching_service.truediv 1 3) (patching_service.progress_text "8")
         after_7).

Definition after_merge_8 : store state :=
  snd (merge accumulator "S" "8" DefaultAccumulatorStrategy
         (patching_service.store_of reported_8)).

(** A frame stored in the (N, D) layout, and one in the (D, N) layout with
    all its points at the same height. *)
Definition cloud_nd : np.ndarray :=
  np.Array 3 [[1; 2; 3]; [4; 5; 7]; [0; 1; 5]; [2; 2; 4]; [9; 9; 6]]%Q.
Definition flat_cloud : np.ndarray := cloud [1; 2; 3] [4; 5; 6] [2; 2; 2].

(** Four points at the height 5, stored in the (N, D) layout. *)
Definition cloud_nd4 : np.ndarray :=
  np.Array 3 [[0; 0; 5]; [2; 1; 5]; [1; 3; 5]; [4; 4; 5]]%Q.

(** Two points of a float64 cloud, stored in the (D, N) layout, whose
    heights are further apart than the largest float64. *)
Definition tall_cloud : np.ndarray :=
  cloud [0; 0] [0; 0] [- 2 ^ 1023; 2 ^ 1023].

End demo.

(* ===================================================================== *)
(** * A small stored dataset *)
(* ===================================================================== *)

Module demo_dataset.

Local Open Scope py_scope.

(** A dataset object remembers its root directory. *)
Definition new_dataset (data_root : string) (d : fs.disk) : outcome string :=
  match fs.nodes d !! data_root with
  | Some fs.Dir => Ret data_root
  | _ => Raise FileNotFoundError
  end.

Definition frame_dir (root scene_id frame_id : string) (_ : fs.disk)
    : outcome string :=
  Ret (fs.os_path_join
         (fs.os_path_join (fs.os_path_join root "training") scene_id)
         frame_id).

Definition load_coord (root scene_id frame_id : string) (d : fs.disk)
    : outcome np.ndarray :=
  let+ dir := frame_dir root scene_id frame_id d in
  let+ a := fs.np_load d (fs.os_path_join dir "coord.npy") in
  match a with
  | np.Floats pc => Ret pc
  | np.Ints _ => Raise ValueError
  end.

(** The instance ids among the labels of one frame, each once. *)
Definition instance_labels (segments : list Z) : list Z :=
  remove_dups
    (filter (fun l => l ∉ config.EXCLUDED_SEGMENT_CLASSES) segments).

(** Modelled from the spec: the grouping of section 4.1 over the frames
    [f0], [f1] of a scene: for each frame in scene order, the frame id is
    appended to the list of every instance id among its labels; a frame
    whose labels do not load makes the whole grouping fail. *)
Fixpoint group_frames (root scene_id : string) (d : fs.disk)
    (frames : list string) (index : gmap Z (list string))
    : outcome (gmap Z (list string)) :=
  match frames with
  | [] => Ret index
  | f :: rest =>
      let+ dir := frame_dir root scene_id f d in
      let+ a := fs.np_load d (fs.os_path_join dir "segment.npy") in
      match a with
      | np.Floats _ => Raise ValueError
      | np.Ints segments =>
          group_frames root scene_id d rest
            (foldl (fun ix l => <[l := default [] (ix !! l) ++ [f]]> ix)
                   index (instance_labels segments))
      end
  end.

Definition group (scene_id : string) (root : string) (d : fs.disk)
    : outcome (gmap Z (list string)) :=
  group_frames root scene_id d ["f0"; "f1"] ∅.

Definition api : DatasetApi :=
  Build_DatasetApi string new_dataset frame_dir load_coord group.

(** Scene [S] has its labels stored for both frames; scene [T] lacks the
    segment file of its frame [f0]. *)
Definition stored : fs.disk :=
  fs.Disk (list_to_map
    [("/data", fs.Dir);
     ("/data/training/S/f0/coord.npy", fs.Npy (np.Floats demo.cloud_nd));
     ("/data/training/S/f0/segment.npy", fs.Npy (np.Ints [7; 0; 7; 9; 30]%Z));
     ("/data/training/S/f1/coord.npy", fs.Npy (np.Floats demo.flat_cloud));
     ("/data/training/S/f1/segment.npy", fs.Npy (np.Ints [7; 0; 31]%Z));
     ("/data/training/T/f0/coord.npy", fs.Npy (np.Floats demo.flat_cloud))]).

(** The app as it starts on that dataset, and the app after the grouping of
    scene [S] has been asked for once. *)
Definition cold_app : data_service.app (api := api) :=
  data_service.fresh (api := api) stored.

Definition warm_app : data_service.app (api := api) :=
  snd (data_service.group_instances_for_scene (api := api) ("/data", "S")
         cold_app).

End demo_dataset.

(* ===================================================================== *)
(** * Small inputs for the views and the frame instances *)
(* ===================================================================== *)

Module demo_views.

Local Open Scope py_scope.

(** A sampler that takes the last [k] indices, highest first; its state
    counts the draws. *)
Definition last_first (n : nat) (k : Z) : M nat (list nat) :=
  fun draws =>
    if (0 <=? k)%Z && (k <=? Z.of_nat n)%Z
    then (Ret (reverse (seq (n - Z.to_nat k) (Z.to_nat k))), S draws)
    else (Raise ValueError, draws).

(** Four points, the first three of them in one voxel of width 2, and
    their labels. *)
Definition near_cloud : np.ndarray :=
  demo.cloud [0; 1; 0; 5]%Z [0; 0; 1; 5]%Z [0; 1; 1; 4]%Z.

Definition near_labels : list Z := [7; 7; 0; 9]%Z.

(** The cast to int32 of a machine that gives the least int32 for what does
    not fit, as x86 does. *)
Definition astype_int32 (x : np.float) : Z :=
  match x with
  | np.Finite q =>
      let z := Z.quot (Qnum q) (Zpos (Qden q)) in
      if ((- 2 ^ 31 <=? z) && (z <? 2 ^ 31))%Z then z else (- 2 ^ 31)%Z
  | _ => (- 2 ^ 31)%Z
  end.

(** A cloud with two rows only. *)
Definition planar_cloud : np.ndarray := np.Array 2 [[1; 2]; [3; 4]]%Q.

(** The statistics of [demo.flat_cloud] with the labels 7, -1, 7. *)
Definition flat_stats : visualization_service.stats :=
  visualization_service.Stats 3 (1, 3)%Q (4, 6)%Q (2, 2)%Q
    (Some 2%nat) (Some [7%Z]).

(** The app as it starts on the small dataset, with its five tables, and
    the instances of frame [f0] of scene [S]. *)
Definition cold_ext : frame_instances.app_ext (api := demo_dataset.api) :=
  frame_instances.fresh_ext (api := demo_dataset.api) demo_dataset.stored.

Definition grouped_S : gmap string (list string) :=
  list_to_map [("7", ["f0"; "f1"]); ("30", ["f0"]); ("31", ["f1"])].

Definition instances_f0 : gmap Z nat := list_to_map [(7, 2%nat); (30, 1%nat)]%Z.

Definition warm_ext : frame_instances.app_ext (api := demo_dataset.api) :=
  snd (frame_instances.get_frame_instances (api := demo_dataset.api)
         ("/data", "S", "f0", None) cold_ext).

(** A dataset that keeps its grouping index precomputed: in scene [T],
    whose frame [f0] has no segment file, the instances 7 and 1 are seen in
    [f0] and the instance 30 in [f1]. *)
Definition index_T : gmap Z (list string) :=
  list_to_map [(7, ["f0"]); (1, ["f0"]); (30, ["f1"])]%Z.

Definition indexed_api : DatasetApi :=
  Build_DatasetApi string demo_dataset.new_dataset demo_dataset.frame_dir
    demo_dataset.load_coord (fun _ _ _ => Ret index_T).

Definition indexed_app : frame_instances.app_ext (api := indexed_api) :=
  frame_instances.fresh_ext (api := indexed_api) demo_dataset.stored.

(** A call of [patch_frame] for a frame that is not stored. *)
Definition failed_load
    : outcome (np.ndarray * list Z)
      * patching_service.world (api := reference.api) (Ui := list Q) :=
  patching_service.patch_frame (api := reference.api) demo.service "S" "nope"
    ["7"] demo.grouped None
    (patching_service.start (api := reference.api) demo.s0 []).

(** A call that asks for instance 9 twice and for an instance that is not
    in the index. *)
Definition repeated_run
    : outcome (np.ndarray * list Z)
      * patching_service.world (api := reference.api) (Ui := list Q) :=
  demo.run ["9"; "999"; "7"; "9"] (Some demo.progress_bar).

End demo_views.

(* ===================================================================== *)
(** * Facts about the rounding of floats *)
(* ===================================================================== *)

Section RoundingFacts.

Local Open Scope Q_scope.

(** Powers of two *)

Lemma pow2_pos (e : Z) : 0 < 2 ^ e.
Proof. apply Qpower_0_lt. reflexivity. Qed.

Lemma pow2_add (a b : Z) : 2 ^ (a + b) == 2 ^ a * 2 ^ b.
Proof. apply Qpower_plus. discriminate. Qed.

Lemma pow2_le (a b : Z) : (a <= b)%Z -> 2 ^ a <= 2 ^ b.
Proof. intros H. apply Qpower_le_compat_l; [exact H | discriminate]. Qed.

Lemma pow2_inject (n : Z) : (0 <= n)%Z -> inject_Z (2 ^ n) == 2 ^ n.
Proof. intros H. now rewrite Zpower_Qpower. Qed.

Lemma div_pow2_le (x y : Q) (e : Z) : x <= y -> x / 2 ^ e <= y / 2 ^ e.
Proof.
  intros H. unfold Qdiv. apply Qmult_le_compat_r; [exact H |].
  apply Qlt_le_weak, Qinv_lt_0_compat, pow2_pos.
Qed.

(** [np.log2_floor] *)

Lemma log2_floor_spec (x : Q) :
  0 < x -> 2 ^ np.log2_floor x <= x /\ x < 2 ^ (np.log2_floor x + 1).
Proof.
  intros Hx. destruct x as [n d]. unfold np.log2_floor. cbn [Qnum Qden].
  assert (Hn : (0 < n)%Z).
  { unfold Qlt in Hx. simpl in Hx. lia. }
  set (ln := Z.log2 n). set (ld := Z.log2 (Z.pos d)).
  destruct (Z.log2_spec n Hn) as [Hn1 Hn2]. fold ln in Hn1, Hn2.
  destruct (Z.log2_spec (Z.pos d) eq_refl) as [Hd1 Hd2]. fold ld in Hd1, Hd2.
  assert (Hln : (0 <= ln)%Z) by apply Z.log2_nonneg.
  assert (Hld : (0 <= ld)%Z) by apply Z.log2_nonneg.
  assert (Hx_eq : n # d == inject_Z n / inject_Z (Z.pos d)) by apply Qmake_Qdiv.
  assert (Hdpos : 0 < inject_Z (Z.pos d)) by reflexivity.
  assert (Qn1 : 2 ^ ln <= inject_Z n).
  { rewrite <- pow2_inject by exact Hln. now rewrite <- Zle_Qle. }
  assert (Qn2 : inject_Z n < 2 ^ (ln + 1)).
  { rewrite <- pow2_inject by lia. rewrite <- Zlt_Qlt.
    now rewrite <- Z.add_1_r in Hn2. }
  assert (Qd1 : 2 ^ ld <= inject_Z (Z.pos d)).
  { rewrite <- pow2_inject by exact Hld. now rewrite <- Zle_Qle. }
  assert (Qd2 : inject_Z (Z.pos d) < 2 ^ (ld + 1)).
  { rewrite <- pow2_inject by lia. rewrite <- Zlt_Qlt.
    now rewrite <- Z.add_1_r in Hd2. }
  assert (Hup : n # d < 2 ^ (ln - ld + 1)).
  { rewrite Hx_eq. apply Qlt_shift_div_r; [exact Hdpos |].
    eapply Qlt_le_trans; [exact Qn2 |].
    replace (ln + 1)%Z with ((ln - ld + 1) + ld)%Z by lia.
    rewrite pow2_add. apply Qmult_le_l; [apply pow2_pos | exact Qd1]. }
  assert (Hlow : 2 ^ (ln - ld - 1) <= n # d).
  { rewrite Hx_eq. apply Qle_shift_div_l; [exact Hdpos |].
    eapply Qle_trans; [| exact Qn1].
    replace ln with ((ln - ld - 1) + (ld + 1))%Z at 2 by lia.
    rewrite pow2_add. apply Qmult_le_l; [apply pow2_pos |].
    now apply Qlt_le_weak. }
  destruct (Qle_bool (2 ^ (ln - ld)) (n # d)) eqn:E.
  - apply Qle_bool_iff in E. split; [exact E | exact Hup].
  - split; [exact Hlow |].
    replace (ln - ld - 1 + 1)%Z with (ln - ld)%Z by lia.
    apply Qnot_le_lt. intros Hc. apply Qle_bool_iff in Hc. congruence.
Qed.

Lemma log2_floor_mono (x y : Q) :
  0 < x -> x <= y -> (np.log2_floor x <= np.log2_floor y)%Z.
Proof.
  intros Hx Hxy.
  assert (Hy : 0 < y) by (eapply Qlt_le_trans; eauto).
  destruct (log2_floor_spec x Hx) as [Hx1 _].
  destruct (log2_floor_spec y Hy) as [_ Hy2].
  destruct (Z_le_gt_dec (np.log2_floor x) (np.log2_floor y)) as [H | H];
    [exact H | exfalso].
  assert (2 ^ (np.log2_floor y + 1) <= 2 ^ np.log2_floor x) by (apply pow2_le; lia).
  lra.
Qed.

(** [np.nearest_even] *)

Lemma nearest_even_bounds (x : Q) :
  (Qfloor x <= np.nearest_even x <= Qfloor x + 1)%Z.
Proof.
  unfold np.nearest_even.
  destruct (Qcompare _ _); [destruct (Z.even _) | |]; lia.
Qed.

Lemma nearest_even_ge (x : Q) (n : Z) :
  inject_Z n <= x -> (n <= np.nearest_even x)%Z.
Proof.
  intros H. pose proof (nearest_even_bounds x) as [Hb _].
  assert (n <= Qfloor x)%Z; [| lia].
  rewrite <- (Qfloor_Z n). now apply Qfloor_resp_le.
Qed.

Lemma nearest_even_le (x : Q) (n : Z) :
  x <= inject_Z n -> (np.nearest_even x <= n)%Z.
Proof.
  intros H. pose proof (nearest_even_bounds x) as [_ Hb].
  pose proof (Qfloor_le x) as Hfl.
  destruct (Z_lt_le_dec (Qfloor x) n) as [Hlt | Hge]; [lia |].
  assert (Hn : (Qfloor x <= n)%Z).
  { rewrite <- (Qfloor_Z n). now apply Qfloor_resp_le. }
  assert (Heq : Qfloor x = n) by lia.
  unfold np.nearest_even. rewrite Heq.
  assert (Hx : x - inject_Z n <= 0) by lra.
  destruct (Qcompare_spec (x - inject_Z n) (1 # 2)) as [E | E | E];
    [lra | lia | lra].
Qed.

Lemma nearest_even_mono (x y : Q) :
  x <= y -> (np.nearest_even x <= np.nearest_even y)%Z.
Proof.
  intros Hxy.
  pose proof (Qfloor_resp_le x y Hxy) as Hfl.
  pose proof (nearest_even_bounds x) as [Hx1 Hx2].
  pose proof (nearest_even_bounds y) as [Hy1 Hy2].
  destruct (Z_lt_le_dec (Qfloor x) (Qfloor y)) as [Hlt | Hge]; [lia |].
  assert (Heq : Qfloor y = Qfloor x) by lia.
  unfold np.nearest_even. rewrite Heq.
  destruct (Qcompare_spec (x - inject_Z (Qfloor x)) (1 # 2)) as [Ex | Ex | Ex];
    destruct (Qcompare_spec (y - inject_Z (Qfloor x)) (1 # 2)) as [Ey | Ey | Ey];
    try destruct (Z.even (Qfloor x)); try lia; lra.
Qed.

(** ** Rounding to a binary format keeps the order *)

Section Binary.

Variables prec emin emax : Z.
Hypothesis prec_pos : (1 <= prec)%Z.

Lemma magnitude_nonneg (a : Q) : 0 <= a -> 0 <= np.magnitude prec emin a.
Proof.
  intros Ha. unfold np.magnitude. apply Qmult_le_0_compat.
  - change 0 with (inject_Z 0). rewrite <- Zle_Qle.
    apply nearest_even_ge. simpl.
    apply Qle_shift_div_l; [apply pow2_pos |]. rewrite Qmult_0_l. exact Ha.
  - apply Qlt_le_weak, pow2_pos.
Qed.

Lemma magnitude_mono (a b : Q) :
  0 < a -> a <= b -> np.magnitude prec emin a <= np.magnitude prec emin b.
Proof.
  intros Ha Hab.
  assert (Hb : 0 < b) by (eapply Qlt_le_trans; eauto).
  pose proof (log2_floor_mono a b Ha Hab) as HL.
  unfold np.magnitude.
  destruct (Z.eq_dec (np.exponent prec emin a) (np.exponent prec emin b)) as [He | He].
  - rewrite He. apply Qmult_le_compat_r; [| apply Qlt_le_weak, pow2_pos].
    rewrite <- Zle_Qle. apply nearest_even_mono. now apply div_pow2_le.
  - assert (Hlt : (np.exponent prec emin a < np.exponent prec emin b)%Z) by (unfold np.exponent in *; lia).
    set (M := Z.max (np.log2_floor a) emin).
    assert (HMb : np.log2_floor b = (np.exponent prec emin b + (prec - 1))%Z)
      by (unfold np.exponent in *; lia).
    assert (HM : (M + 1 <= np.log2_floor b)%Z) by (unfold np.exponent in *; lia).
    destruct (log2_floor_spec a Ha) as [_ Ha2].
    destruct (log2_floor_spec b Hb) as [Hb1 _].
    apply Qle_trans with (2 ^ (M + 1)).
    + assert (Hne : (np.nearest_even (a / 2 ^ np.exponent prec emin a) <= 2 ^ prec)%Z).
      { apply nearest_even_le. rewrite pow2_inject by lia.
        apply Qle_shift_div_r; [apply pow2_pos |].
        rewrite <- pow2_add.
        apply Qlt_le_weak. eapply Qlt_le_trans; [exact Ha2 |].
        apply pow2_le. unfold np.exponent. fold M. lia. }
      rewrite Zle_Qle in Hne. rewrite pow2_inject in Hne by lia.
      replace (M + 1)%Z with (prec + np.exponent prec emin a)%Z
        by (unfold np.exponent; fold M; lia).
      rewrite pow2_add.
      apply Qmult_le_compat_r; [exact Hne | apply Qlt_le_weak, pow2_pos].
    + apply Qle_trans with (2 ^ np.log2_floor b); [apply pow2_le; lia |].
      assert (Hne : (2 ^ (prec - 1) <= np.nearest_even (b / 2 ^ np.exponent prec emin b))%Z).
      { apply nearest_even_ge. rewrite pow2_inject by lia.
        apply Qle_shift_div_l; [apply pow2_pos |].
        rewrite <- pow2_add.
        replace (prec - 1 + np.exponent prec emin b)%Z with (np.log2_floor b) by lia.
        exact Hb1. }
      rewrite Zle_Qle in Hne. rewrite pow2_inject in Hne by lia.
      rewrite HMb. rewrite (Z.add_comm (np.exponent prec emin b)), pow2_add.
      apply Qmult_le_compat_r; [exact Hne | apply Qlt_le_weak, pow2_pos].
Qed.

Lemma round_to_unfold (x : Q) :
  np.round_to prec emin emax x =
  if Qeq_bool x 0 then np.Finite 0
  else
    let v := np.magnitude prec emin (Qabs x) in
    let negative := negb (Qle_bool 0 x) in
    if Qle_bool (2 ^ (emax + 1)) v then np.Inf negative
    else np.Finite (Qred (if negative then - v else v)).
Proof. reflexivity. Qed.

Lemma round_to_pos (x : Q) :
  0 < x ->
  np.round_to prec emin emax x =
  if Qle_bool (2 ^ (emax + 1)) (np.magnitude prec emin (Qabs x)) then np.Inf false
  else np.Finite (Qred (np.magnitude prec emin (Qabs x))).
Proof.
  intros Hx. rewrite round_to_unfold.
  destruct (Qeq_bool x 0) eqn:E; [apply Qeq_bool_iff in E; lra |].
  cbv zeta.
  assert (Hle : Qle_bool 0 x = true) by (apply Qle_bool_iff; lra).
  rewrite Hle. reflexivity.
Qed.

Lemma round_to_neg (x : Q) :
  x < 0 ->
  np.round_to prec emin emax x =
  if Qle_bool (2 ^ (emax + 1)) (np.magnitude prec emin (Qabs x)) then np.Inf true
  else np.Finite (Qred (- np.magnitude prec emin (Qabs x))).
Proof.
  intros Hx. rewrite round_to_unfold.
  destruct (Qeq_bool x 0) eqn:E; [apply Qeq_bool_iff in E; lra |].
  cbv zeta.
  assert (Hle : Qle_bool 0 x = false).
  { destruct (Qle_bool 0 x) eqn:E'; [| reflexivity].
    apply Qle_bool_iff in E'. lra. }
  rewrite Hle. reflexivity.
Qed.

Lemma round_to_zero (x : Q) :
  x == 0 -> np.round_to prec emin emax x = np.Finite 0.
Proof.
  intros Hx. rewrite round_to_unfold.
  apply Qeq_bool_iff in Hx. now rewrite Hx.
Qed.

Theorem round_to_le (x y : Q) :
  x <= y -> np.float_le (np.round_to prec emin emax x) (np.round_to prec emin emax y).
Proof.
  intros Hxy.
  assert (Hbool : forall c v, Qle_bool c v = false -> v < c).
  { intros c v E. apply Qnot_le_lt. intros Hc.
    apply Qle_bool_iff in Hc. congruence. }
  destruct (Q_dec x 0) as [[Hx | Hx] | Hx];
    destruct (Q_dec y 0) as [[Hy | Hy] | Hy]; try lra.
  - (* both negative *)
    rewrite (round_to_neg x Hx), (round_to_neg y Hy).
    assert (Hm : np.magnitude prec emin (Qabs y) <= np.magnitude prec emin (Qabs x)).
    { apply magnitude_mono.
      - rewrite Qabs_neg by lra. lra.
      - rewrite !Qabs_neg by lra. lra. }
    destruct (Qle_bool _ (np.magnitude prec emin (Qabs x))) eqn:Ex;
      destruct (Qle_bool _ (np.magnitude prec emin (Qabs y))) eqn:Ey; cbn [np.float_le]; try exact I.
    + apply Qle_bool_iff in Ey. apply Hbool in Ex. lra.
    + rewrite !Qred_correct. lra.
  - (* negative, positive *)
    rewrite (round_to_neg x Hx), (round_to_pos y Hy).
    pose proof (magnitude_nonneg (Qabs x) (Qabs_nonneg x)).
    pose proof (magnitude_nonneg (Qabs y) (Qabs_nonneg y)).
    destruct (Qle_bool _ (np.magnitude prec emin (Qabs x)));
      destruct (Qle_bool _ (np.magnitude prec emin (Qabs y))); cbn [np.float_le]; try exact I.
    rewrite !Qred_correct. lra.
  - (* negative, zero *)
    rewrite (round_to_neg x Hx), (round_to_zero y Hy).
    pose proof (magnitude_nonneg (Qabs x) (Qabs_nonneg x)).
    destruct (Qle_bool _ (np.magnitude prec emin (Qabs x))); cbn [np.float_le]; [exact I |].
    rewrite Qred_correct. lra.
  - (* both positive *)
    rewrite (round_to_pos x Hx), (round_to_pos y Hy).
    assert (Hm : np.magnitude prec emin (Qabs x) <= np.magnitude prec emin (Qabs y)).
    { apply magnitude_mono.
      - rewrite Qabs_pos by lra. lra.
      - rewrite !Qabs_pos by lra. lra. }
    destruct (Qle_bool _ (np.magnitude prec emin (Qabs x))) eqn:Ex;
      destruct (Qle_bool _ (np.magnitude prec emin (Qabs y))) eqn:Ey; cbn [np.float_le]; try exact I.
    + apply Qle_bool_iff in Ex. apply Hbool in Ey. lra.
    + rewrite !Qred_correct. lra.
  - (* zero, positive *)
    rewrite (round_to_zero x Hx), (round_to_pos y Hy).
    pose proof (magnitude_nonneg (Qabs y) (Qabs_nonneg y)).
    destruct (Qle_bool _ (np.magnitude prec emin (Qabs y))); cbn [np.float_le]; [exact I |].
    rewrite Qred_correct. lra.
  - rewrite (round_to_zero x Hx), (round_to_zero y Hy). cbn [np.float_le]. lra.
Qed.

End Binary.

Lemma float64_rounds_to_nearest : np.rounds_to_nearest np.float64.
Proof.
  split.
  - intros x y. apply round_to_le. lia.
  - vm_compute. reflexivity.
  - vm_compute. reflexivity.
Qed.

Lemma float32_rounds_to_nearest : np.rounds_to_nearest np.float32.
Proof.
  split.
  - intros x y. apply round_to_le. lia.
  - vm_compute. reflexivity.
  - vm_compute. reflexivity.
Qed.

(** ** What follows from keeping the order *)

Context {fmt : np.Format} (nearest : np.rounds_to_nearest fmt).

Lemma rounded_between (x y q : Q) :
  0 <= x -> x <= y -> np.rounded y = np.Finite q ->
  exists p, np.rounded x = np.Finite p /\ 0 <= p /\ p <= q.
Proof.
  intros H0 Hxy Hy.
  pose proof (np.rounded_le fmt nearest 0 x H0) as Hlo.
  pose proof (np.rounded_le fmt nearest x y Hxy) as Hhi.
  pose proof (np.rounded_0 fmt nearest) as Hz.
  rewrite Hy in Hhi.
  destruct (np.rounded 0) as [p0| |]; try contradiction. simpl in Hz.
  destruct (np.rounded x) as [p|[]|]; simpl in Hlo, Hhi; try contradiction.
  exists p. split; [reflexivity |]. split; [lra | exact Hhi].
Qed.

Lemma rounded_unit (x : Q) :
  0 <= x -> x <= 1 -> np.between 0 1 (np.rounded x).
Proof.
  intros H0 H1.
  pose proof (np.rounded_1 fmt nearest) as Hone.
  destruct (np.rounded 1) as [q| |] eqn:E; try contradiction. simpl in Hone.
  destruct (rounded_between x 1 q H0 H1 E) as (p & -> & Hp0 & Hp1).
  simpl. split; lra.
Qed.

Lemma rounded_has_value (x y q : Q) :
  x == y -> np.has_value (np.rounded y) q -> np.has_value (np.rounded x) q.
Proof.
  intros Hxy Hy.
  assert (H1 : x <= y) by lra. assert (H2 : y <= x) by lra.
  pose proof (np.rounded_le fmt nearest x y H1) as Hle.
  pose proof (np.rounded_le fmt nearest y x H2) as Hge.
  destruct (np.rounded y) as [p| |]; try contradiction. simpl in Hy.
  destruct (np.rounded x) as [p'|[]|]; simpl in Hle, Hge; try contradiction.
  simpl. lra.
Qed.

Lemma rounded_inf (x y : Q) (b : bool) :
  x == y -> np.rounded y = np.Inf b -> np.rounded x = np.Inf b.
Proof.
  intros Hxy Hy.
  assert (H1 : x <= y) by lra. assert (H2 : y <= x) by lra.
  pose proof (np.rounded_le fmt nearest x y H1) as Hle.
  pose proof (np.rounded_le fmt nearest y x H2) as Hge.
  rewrite Hy in Hle, Hge.
  destruct (np.rounded x) as [p'|[]|], b; simpl in Hle, Hge;
    try contradiction; reflexivity.
Qed.

Lemma rounded_nonneg (x : Q) :
  0 <= x -> np.float_le (np.Finite 0) (np.rounded x).
Proof.
  intros H0.
  pose proof (np.rounded_le fmt nearest 0 x H0) as Hlo.
  pose proof (np.rounded_0 fmt nearest) as Hz.
  destruct (np.rounded 0) as [p0| |]; try contradiction. simpl in Hz.
  destruct (np.rounded x) as [p|[]|]; simpl in *; try contradiction; try exact I.
  lra.
Qed.

End RoundingFacts.

(* ===================================================================== *)
(** * Facts about [color_utils] *)
(* ===================================================================== *)

Section ColorUtilsFacts.

Import color_utils.

Context {fmt : np.Format}.

Lemma fold_min_le_init (vs : list Q) (v : Q) : (fold_left Qmin vs v <= v)%Q.
Proof.
  revert v. induction vs as [|x xs IH]; intros v; simpl.
  - apply Qle_refl.
  - eapply Qle_trans; [apply IH | apply Q.le_min_l].
Qed.

Lemma fold_min_le_elem (vs : list Q) (v x : Q) :
  In x vs -> (fold_left Qmin vs v <= x)%Q.
Proof.
  revert v. induction vs as [|y ys IH]; intros v [].
  - subst y. simpl. eapply Qle_trans; [apply fold_min_le_init | apply Q.le_min_r].
  - simpl. now apply IH.
Qed.

Lemma fold_max_ge_init (vs : list Q) (v : Q) : (v <= fold_left Qmax vs v)%Q.
Proof.
  revert v. induction vs as [|x xs IH]; intros v; simpl.
  - apply Qle_refl.
  - eapply Qle_trans; [apply Q.le_max_l | apply IH].
Qed.

Lemma fold_max_ge_elem (vs : list Q) (v x : Q) :
  In x vs -> (x <= fold_left Qmax vs v)%Q.
Proof.
  revert v. induction vs as [|y ys IH]; intros v [].
  - subst y. simpl. eapply Qle_trans; [apply Q.le_max_r | apply fold_max_ge_init].
  - simpl. now apply IH.
Qed.

Lemma amin_spec (z : list Q) :
  z <> [] -> exists lo, np.amin z = Ret lo /\ Forall (fun v => lo <= v)%Q z.
Proof.
  destruct z as [|v vs]; [congruence | intros _].
  exists (fold_left Qmin vs v). split; [reflexivity |].
  apply Forall_forall. intros x Hx. apply list_elem_of_In in Hx.
  destruct Hx as [<- | Hx].
  - apply fold_min_le_init.
  - now apply fold_min_le_elem.
Qed.

Lemma amax_spec (z : list Q) :
  z <> [] -> exists hi, np.amax z = Ret hi /\ Forall (fun v => v <= hi)%Q z.
Proof.
  destruct z as [|v vs]; [congruence | intros _].
  exists (fold_left Qmax vs v). split; [reflexivity |].
  apply Forall_forall. intros x Hx. apply list_elem_of_In in Hx.
  destruct Hx as [<- | Hx].
  - apply fold_max_ge_init.
  - now apply fold_max_ge_elem.
Qed.

Lemma fold_min_attained (vs : list Q) (v : Q) :
  exists x, x ∈ v :: vs /\ (x == fold_left Qmin vs v)%Q.
Proof.
  revert v. induction vs as [|y ys IH]; intros v; simpl.
  - exists v. split; [left | reflexivity].
  - destruct (IH (Qmin v y)) as (x & Hx & Heq).
    apply elem_of_cons in Hx as [-> | Hx].
    + destruct (Q.min_dec v y) as [Hm | Hm].
      * exists v. split; [left |]. now rewrite <- Heq.
      * exists y. split; [right; left |]. now rewrite <- Heq.
    + exists x. split; [right; right; exact Hx | exact Heq].
Qed.

Lemma fold_max_attained (vs : list Q) (v : Q) :
  exists x, x ∈ v :: vs /\ (x == fold_left Qmax vs v)%Q.
Proof.
  revert v. induction vs as [|y ys IH]; intros v; simpl.
  - exists v. split; [left | reflexivity].
  - destruct (IH (Qmax v y)) as (x & Hx & Heq).
    apply elem_of_cons in Hx as [-> | Hx].
    + destruct (Q.max_dec v y) as [Hm | Hm].
      * exists v. split; [left |]. now rewrite <- Heq.
      * exists y. split; [right; left |]. now rewrite <- Heq.
    + exists x. split; [right; right; exact Hx | exact Heq].
Qed.

(** The minimum and the maximum of a channel are heights of the channel
    that bound the others. *)
Lemma amin_amax_spec (z : list Q) :
  z <> [] ->
  exists lo hi,
    np.amin z = Ret lo /\ np.amax z = Ret hi /\
    Forall (fun v => lo <= v /\ v <= hi)%Q z /\
    (exists v, v ∈ z /\ (v == lo)%Q) /\ (exists v, v ∈ z /\ (v == hi)%Q).
Proof.
  intros Hne.
  destruct (amin_spec z Hne) as (lo & Hlo & Hlo_le).
  destruct (amax_spec z Hne) as (hi & Hhi & Hhi_ge).
  exists lo, hi. split; [exact Hlo |]. split; [exact Hhi |].
  split.
  { rewrite Forall_forall in *. intros v Hv. split; auto. }
  destruct z as [|v vs]; [congruence |].
  simpl in Hlo, Hhi. injection Hlo as <-. injection Hhi as <-.
  split; [apply fold_min_attained | apply fold_max_attained].
Qed.

(** The function reads the heights in the layout the guard picks. *)
Lemma height_channel_read_as (points : np.ndarray) :
  height_channel points = heights (read_as points) points.
Proof.
  unfold height_channel, read_as.
  now destruct ((np.shape0 points =? 3)%nat || (np.shape0 points =? 4)%nat).
Qed.

(** A cloud stored in the layout it is read in has one height per point. *)
Lemma heights_read_as (l : layout) (points : np.ndarray) :
  np.wf points -> (3 <= n_channels l points)%nat -> read_as points = l ->
  exists z, heights l points = Ret z /\ length z = n_points l points.
Proof.
  intros Hwf Hch Hread. unfold read_as in Hread.
  destruct ((np.shape0 points =? 3)%nat || (np.shape0 points =? 4)%nat) eqn:E;
    subst l; simpl in *.
  - unfold np.row, np.shape0 in *.
    destruct (lookup_lt_is_Some_2 (np.rows points) 2 ltac:(lia)) as [r Hr].
    rewrite Hr. exists r. split; [reflexivity |].
    unfold np.wf in Hwf. rewrite Forall_forall in Hwf.
    exact (Hwf r (list_elem_of_lookup_2 _ _ _ Hr)).
  - unfold np.col. rewrite decide_True by lia.
    eexists. split; [reflexivity |]. now rewrite length_map.
Qed.

Section Nearest.

Hypothesis nearest : np.rounds_to_nearest fmt.

(** A height between the bounds is normalised into [0, 1] when the range
    is finite and not zero. *)
Lemma normalised_in_unit (lo hi v r : Q) :
  (lo <= v)%Q -> (v <= hi)%Q -> np.sub hi lo = np.Finite r -> ~ (r == 0)%Q ->
  np.between 0 1 (np.div (np.sub v lo) (np.Finite r)).
Proof.
  intros Hlo Hhi Hr Hnz. unfold np.sub in *.
  destruct (rounded_between nearest (v - lo) (hi - lo) r
              ltac:(lra) ltac:(lra) Hr) as (p & -> & Hp0 & Hpr).
  unfold np.div.
  destruct (Qeq_bool r 0) eqn:E; [apply Qeq_bool_iff in E; contradiction |].
  assert (Hrpos : (0 < r)%Q) by lra.
  apply (rounded_unit nearest).
  - apply Qle_shift_div_l; [exact Hrpos | lra].
  - apply Qle_shift_div_r; [exact Hrpos | lra].
Qed.

(** The range of heights that are in order is zero or positive, an
    infinity when it overflows. *)
Lemma range_cases (lo hi : Q) :
  (lo <= hi)%Q ->
  (exists r, np.sub hi lo = np.Finite r /\ (0 <= r)%Q) \/
  np.sub hi lo = np.Inf false.
Proof.
  intros Hle. unfold np.sub.
  pose proof (rounded_nonneg nearest (hi - lo) ltac:(lra)) as H.
  destruct (np.rounded (hi - lo)) as [r|[]|]; simpl in H; try contradiction.
  - left. exists r. split; [reflexivity | exact H].
  - now right.
Qed.

(** C10, for the clouds the function reads in the layout they are stored
    in.  Let a non-empty cloud of finite coordinates be stored as (D, N)
    with D = 3 or 4, or as (N, D) with D >= 3 and N other than 3 and 4.
    Called with the default [z_min] and [z_max], [colorize_by_height]
    returns rather than raises, one value per point of the cloud, computed
    from the heights of its points.  When all its points are at the same
    height, and whenever the range [z.max() - z.min()] is zero, the result
    is the all-zeros array and no division takes place; when the range is
    finite every value lies in [0, 1].  A range so large that it overflows
    the format is an infinity, and then the highest points get a NaN. *)
Theorem colorize_by_height_total (l : layout) (points : np.ndarray) :
  np.wf points ->
  (1 <= n_points l points)%nat -> (3 <= n_channels l points)%nat ->
  read_as points = l ->
  exists z lo hi out,
    heights l points = Ret z /\ length z = n_points l points /\
    np.amin z = Ret lo /\ np.amax z = Ret hi /\
    colorize_by_height points None None = Ret out /\
    length out = n_points l points /\
    ((forall v, v ∈ z -> (v == lo)%Q) -> out = np.zeros_like z) /\
    (np.is_zero (np.sub hi lo) = true -> out = np.zeros_like z) /\
    (np.is_zero (np.sub hi lo) = false ->
       out = map (fun v => np.div (np.sub v lo) (np.sub hi lo)) z) /\
    (forall r, np.sub hi lo = np.Finite r -> Forall (np.between 0 1) out) /\
    (np.sub hi lo = np.Inf false -> np.NaN ∈ out).
Proof.
  intros Hwf Hpts Hch Hread.
  destruct (heights_read_as l points Hwf Hch Hread) as (z & Hz & Hlen).
  assert (Hne : z <> []) by (intros ->; simpl in Hlen; lia).
  destruct (amin_amax_spec z Hne)
    as (lo & hi & Hlo & Hhi & Hbounds & (vlo & Hvlo & Elo) & (vhi & Hvhi & Ehi)).
  rewrite Forall_forall in Hbounds.
  assert (Hzero : forall out,
            (if np.is_zero (np.sub hi lo)
             then Ret (np.zeros_like z)
             else Ret (map (fun v => np.div (np.sub v lo) (np.sub hi lo)) z))
            = Ret out ->
            (forall v, v ∈ z -> (v == lo)%Q) -> out = np.zeros_like z).
  { intros out Hout Hflat.
    assert (E : (hi - lo == 0)%Q) by (rewrite <- Ehi, (Hflat vhi Hvhi); ring).
    pose proof (rounded_has_value nearest (hi - lo) 0 0 E
                  (np.rounded_0 fmt nearest)) as Hv.
    unfold np.sub in Hout.
    destruct (np.rounded (hi - lo)) as [r| |]; try contradiction.
    simpl in Hv. apply Qeq_bool_iff in Hv. simpl in Hout. rewrite Hv in Hout.
    now injection Hout as <-. }
  exists z, lo, hi.
  unfold colorize_by_height. rewrite height_channel_read_as, Hread, Hz.
  cbn [obind]. rewrite Hlo. cbn [obind]. rewrite Hhi. cbn [obind].
  destruct (np.is_zero (np.sub hi lo)) eqn:E.
  - exists (np.zeros_like z). split_and!; try reflexivity; try assumption.
    + unfold np.zeros_like. now rewrite length_map.
    + discriminate.
    + intros r Hr. unfold np.zeros_like. apply Forall_forall. intros c Hc.
      apply list_elem_of_In, in_map_iff in Hc as (v & <- & _).
      simpl. split; lra.
    + intros Hinf. rewrite Hinf in E. discriminate.
  - eexists. split_and!; try reflexivity; try assumption.
    + now rewrite length_map.
    + now apply Hzero.
    + discriminate.
    + intros r Hr. rewrite Hr in *. simpl in E.
      assert (Hnz : ~ (r == 0)%Q).
      { intros Hc. apply Qeq_bool_iff in Hc. congruence. }
      apply Forall_forall. intros c Hc.
      apply list_elem_of_In, in_map_iff in Hc as (v & <- & Hv).
      apply list_elem_of_In in Hv. destruct (Hbounds v Hv).
      now apply normalised_in_unit with (hi := hi).
    + intros Hinf. rewrite Hinf.
      apply list_elem_of_In, in_map_iff. exists vhi.
      split; [| now apply list_elem_of_In].
      unfold np.sub in *.
      assert (Ev : (vhi - lo == hi - lo)%Q) by (rewrite Ehi; ring).
      now rewrite (rounded_inf nearest _ _ _ Ev Hinf).
Qed.

End Nearest.

(** The arrays of [point_cloud] are all the well-formed arrays on which the
    function returns: on the others the height channel is missing or empty,
    and the function raises. *)
Lemma colorize_by_height_raises_otherwise (points : np.ndarray) :
  np.wf points -> ~ point_cloud points ->
  exists e, colorize_by_height points None None = Raise e.
Proof.
  intros Hwf Hnot. unfold colorize_by_height, height_channel.
  destruct ((np.shape0 points =? 3)%nat || (np.shape0 points =? 4)%nat) eqn:E.
  - assert (Hlen : (np.shape0 points = 3 \/ np.shape0 points = 4)%nat).
    { apply orb_true_iff in E as [E|E]; apply Nat.eqb_eq in E; auto. }
    assert (Hn : np.shape1 points = 0%nat).
    { destruct (np.shape1 points) eqn:Hs; [reflexivity |].
      exfalso. apply Hnot. split; [exact Hwf |]. left. split; [exact Hlen | lia]. }
    unfold np.row. unfold np.shape0 in Hlen.
    destruct (np.rows points !! 2%nat) as [r|] eqn:Hr; simpl; [| eauto].
    unfold np.wf in Hwf. rewrite Forall_forall in Hwf.
    specialize (Hwf r (list_elem_of_lookup_2 _ _ _ Hr)).
    rewrite Hn in Hwf. destruct r; [| discriminate]. simpl. eauto.
  - apply orb_false_iff in E as [E3 E4]. apply Nat.eqb_neq in E3, E4.
    unfold np.col. destruct (decide (2 < np.shape1 points)%nat) as [Hc|Hc];
      simpl; [| eauto].
    assert (Hrows : np.rows points = []).
    { destruct (np.rows points) eqn:Hr; [reflexivity |].
      exfalso. apply Hnot. split; [exact Hwf |]. right.
      unfold np.shape0. rewrite Hr. simpl. lia. }
    rewrite Hrows. simpl. eauto.
Qed.


End ColorUtilsFacts.

(* ===================================================================== *)
(** * Facts about [data_service] *)
(* ===================================================================== *)

Section DataServiceFacts.

Import data_service.

Context `{api : DatasetApi}.

(** [str] loses nothing: distinct integers print differently. *)
#[local] Instance str_inj : Inj (=) (=) builtins.str.
Proof.
  intros a b Hab. unfold builtins.str in Hab.
  assert (Hnn : forall k : Z,
             Z.to_int k <> Decimal.Pos Decimal.Nil /\
             Z.to_int k <> Decimal.Neg Decimal.Nil).
  { intros [|q|q]; simpl; split; try discriminate;
      intros Hc; injection Hc as Hc;
      exact (DecimalPos.Unsigned.to_uint_nonnil _ Hc). }
  apply to_int_inj.
  destruct (Hnn a) as [Ha1 Ha2], (Hnn b) as [Hb1 Hb2].
  pose proof (NilZero.isi _ Ha1 Ha2) as Ia.
  pose proof (NilZero.isi _ Hb1 Hb2) as Ib.
  rewrite Hab in Ia. congruence.
Qed.

(** The string-keyed mapping holds, under [str k], exactly the frame list
    the helper returned under [k]. *)
Lemma grouping_keys_lookup (grouped : gmap Z (list string)) (k : Z) :
  kmap (M2 := gmap string) builtins.str grouped !! builtins.str k = grouped !! k.
Proof. apply (lookup_kmap builtins.str). Qed.

(** A second call with the same arguments is answered from the memo table. *)
Lemma st_cache_again {K V : Type} `{Countable K}
    (table : app -> gmap K V) (set_table : gmap K V -> app -> app)
    (body : K -> M app V) (k : K) (st st1 : app) (v : V) :
  (forall c st0, table (set_table c st0) = c) ->
  st_cache table set_table body k st = (Ret v, st1) ->
  st_cache table set_table body k st1 = (Ret v, st1).
Proof.
  intros Hget Hrun. unfold st_cache in *.
  destruct (table st !! k) as [v0|] eqn:Hhit.
  - injection Hrun as -> ->. now rewrite Hhit.
  - destruct (body k st) as [[v1|e] st'] eqn:Hbody; [|discriminate].
    injection Hrun as -> <-.
    now rewrite Hget, lookup_insert_eq.
Qed.

Lemma coherent_fresh (d : fs.disk) : coherent (fresh d).
Proof. split; simpl; intros k v Hk; now rewrite lookup_empty in Hk. Qed.

Lemma coherent_clear_cache (st : app) :
  coherent (snd (clear_cache st)) /\ disk (snd (clear_cache st)) = disk st.
Proof. split; [apply coherent_fresh | reflexivity]. Qed.

(** On coherent tables [get_dataset] returns what the constructor returns
    on the stored dataset, and leaves the tables coherent. *)
Lemma get_dataset_cold (data_root : string) (st : app) :
  coherent st ->
  exists st',
    get_dataset data_root st = (PointceptDataset data_root (disk st), st') /\
    coherent st' /\ disk st' = disk st.
Proof.
  intros Hc. unfold get_dataset, st_cache.
  destruct (dataset_cache st !! data_root) as [v|] eqn:Hhit.
  - exists st. rewrite (coherent_dataset _ Hc _ _ Hhit). auto.
  - unfold read.
    destruct (PointceptDataset data_root (disk st)) as [v|e] eqn:Hnew.
    + eexists. split; [reflexivity |]. split; [| reflexivity].
      destruct Hc as [H1 H2 H3 H4]. split; simpl; auto.
      intros k w Hk. destruct (decide (data_root = k)) as [<-|Hne].
      * rewrite lookup_insert_eq in Hk. congruence.
      * rewrite lookup_insert_ne in Hk by done. auto.
    + exists st. auto.
Qed.

Lemma get_frame_point_cloud_cold (k : string * string * string) (st : app) :
  coherent st ->
  exists st',
    get_frame_point_cloud k st = (cold_point_cloud k (disk st), st') /\
    coherent st' /\ disk st' = disk st.
Proof.
  intros Hc. unfold get_frame_point_cloud, st_cache.
  destruct (point_cloud_cache st !! k) as [v|] eqn:Hhit.
  - exists st. rewrite (coherent_point_cloud _ Hc _ _ Hhit). auto.
  - destruct k as [[data_root scene_id] frame_id].
    unfold bind, cold_point_cloud.
    destruct (get_dataset_cold data_root st Hc) as (st1 & -> & Hc1 & Hd1).
    destruct (PointceptDataset data_root (disk st)) as [ds|e] eqn:Hds; simpl.
    2: { exists st1. auto. }
    unfold read. rewrite Hd1.
    destruct (dataset_get_frame_point_cloud ds scene_id frame_id (disk st))
      as [pc|e] eqn:Hpc.
    2: { exists st1. auto. }
    eexists. split; [reflexivity |]. split; [| exact Hd1].
    destruct Hc1 as [H1 H2 H3 H4]. split; simpl; auto.
    intros k w Hk.
    destruct (decide ((data_root, scene_id, frame_id) = k)) as [<-|Hne].
    + rewrite lookup_insert_eq in Hk. injection Hk as <-.
      unfold cold_point_cloud. rewrite Hd1, Hds. exact Hpc.
    + rewrite lookup_insert_ne in Hk by done. auto.
Qed.

Lemma get_frame_segments_cold (k : string * string * string) (st : app) :
  coherent st ->
  exists st',
    get_frame_segments k st = (cold_segments k (disk st), st') /\
    coherent st' /\ disk st' = disk st.
Proof.
  intros Hc. unfold get_frame_segments, st_cache.
  destruct (segments_cache st !! k) as [v|] eqn:Hhit.
  - exists st. rewrite (coherent_segments _ Hc _ _ Hhit). auto.
  - destruct k as [[data_root scene_id] frame_id].
    match goal with
    | |- context [match ?run with _ => _ end] =>
        assert (Hbody : exists st1,
          run = (cold_segments (data_root, scene_id, frame_id) (disk st), st1)
          /\ coherent st1 /\ disk st1 = disk st)
    end.
    { unfold bind, cold_segments.
      destruct (get_dataset_cold data_root st Hc) as (st1 & -> & Hc1 & Hd1).
      destruct (PointceptDataset data_root (disk st)) as [ds|e]; simpl.
      2: { exists st1. auto. }
      unfold read. rewrite Hd1.
      destruct (_get_frame_dir ds scene_id frame_id (disk st)) as [dir|e]; simpl.
      2: { exists st1. auto. }
      destruct (fs.os_path_exists (disk st) (fs.os_path_join dir "segment.npy")).
      { exists st1. rewrite Hd1. auto. }
      destruct (get_frame_point_cloud_cold (data_root, scene_id, frame_id) st1 Hc1)
        as (st2 & -> & Hc2 & Hd2).
      rewrite Hd1.
      change (let+ dataset := PointceptDataset data_root (disk st)
              in dataset_get_frame_point_cloud dataset scene_id frame_id (disk st))%py
        with (cold_point_cloud (data_root, scene_id, frame_id) (disk st)).
      destruct (cold_point_cloud (data_root, scene_id, frame_id) (disk st))
        as [pc|e]; simpl.
      - exists st2. unfold ret. split; [reflexivity |]. split; [exact Hc2 | congruence].
      - exists st2. split; [reflexivity |]. split; [exact Hc2 | congruence]. }
    destruct Hbody as (st1 & -> & Hc1 & Hd1).
    destruct (cold_segments (data_root, scene_id, frame_id) (disk st))
      as [v|e] eqn:Hv.
    2: { exists st1. auto. }
    eexists. split; [reflexivity |]. split; [| exact Hd1].
    destruct Hc1 as [H1 H2 H3 H4]. split; simpl; auto.
    intros k w Hk.
    destruct (decide ((data_root, scene_id, frame_id) = k)) as [<-|Hne].
    + rewrite lookup_insert_eq in Hk. injection Hk as <-. now rewrite Hd1.
    + rewrite lookup_insert_ne in Hk by done. auto.
Qed.

Lemma group_instances_for_scene_cold (k : string * string) (st : app) :
  coherent st ->
  exists st',
    group_instances_for_scene k st = (cold_grouping k (disk st), st') /\
    coherent st' /\ disk st' = disk st.
Proof.
  intros Hc. unfold group_instances_for_scene, st_cache.
  destruct (grouping_cache st !! k) as [v|] eqn:Hhit.
  - exists st. rewrite (coherent_grouping _ Hc _ _ Hhit). auto.
  - destruct k as [data_root scene_id].
    unfold bind at 1.
    destruct (get_dataset_cold data_root st Hc) as (st1 & -> & Hc1 & Hd1).
    unfold cold_grouping.
    destruct (PointceptDataset data_root (disk st)) as [ds|e] eqn:Hds; simpl.
    2: { exists st1. auto. }
    unfold bind, read, ret. rewrite Hd1.
    destruct (group_instances_across_frames scene_id ds (disk st))
      as [grouped|e] eqn:Hg; simpl.
    2: { exists st1. auto. }
    eexists. split; [reflexivity |]. split; [| exact Hd1].
    destruct Hc1 as [H1 H2 H3 H4]. split; simpl; auto.
    intros k w Hk.
    destruct (decide ((data_root, scene_id) = k)) as [<-|Hne].
    + rewrite lookup_insert_eq in Hk. injection Hk as <-.
      unfold cold_grouping. rewrite Hd1, Hds. simpl. now rewrite Hg.
    + rewrite lookup_insert_ne in Hk by done. auto.
Qed.

(** C9. With the segment file of a frame missing from the stored dataset,
    [get_frame_segments] returns an integer array with one entry per point
    of that frame's point cloud, every entry the sentinel -1; with the file
    present it returns what [np.load] returns for it. *)
Theorem get_frame_segments_missing_file
    (st : app) (data_root scene_id frame_id : string)
    (dataset : Dataset) (frame_dir : string) :
  coherent st ->
  PointceptDataset data_root (disk st) = Ret dataset ->
  _get_frame_dir dataset scene_id frame_id (disk st) = Ret frame_dir ->
  let segment_path := fs.os_path_join frame_dir "segment.npy" in
  let result := fst (get_frame_segments (data_root, scene_id, frame_id) st) in
  (fs.os_path_exists (disk st) segment_path = true ->
     result = fs.np_load (disk st) segment_path) /\
  (forall pc,
     fs.os_path_exists (disk st) segment_path = false ->
     dataset_get_frame_point_cloud dataset scene_id frame_id (disk st) = Ret pc ->
     exists labels,
       result = Ret (np.Ints labels) /\
       length labels = np.shape1 pc /\
       Forall (fun l => l = (-1)%Z) labels).
Proof.
  intros Hc Hds Hdir segment_path result. subst result.
  destruct (get_frame_segments_cold (data_root, scene_id, frame_id) st Hc)
    as (st' & -> & _). simpl.
  rewrite Hds. simpl. rewrite Hdir. simpl. fold segment_path.
  split.
  - intros ->. reflexivity.
  - intros pc -> Hpc. rewrite Hpc. simpl.
    exists (np.full (np.shape1 pc) (-1)). split; [reflexivity |].
    unfold np.full. split; [apply length_replicate |].
    apply Forall_forall. intros l Hl. now apply elem_of_replicate in Hl.
Qed.

(** C6. For a fixed stored scene the grouping is the same on every call:
    from any two coherent states of the app over the same stored dataset
    (before or after other calls, before or after [clear_cache]) the call
    has the same outcome, namely the one computed from the stored scene;
    and a call made right after one that returned a mapping returns that
    same mapping, frame lists included, and changes nothing. *)
Theorem group_instances_for_scene_deterministic
    (data_root scene_id : string) (st1 st2 : app) :
  coherent st1 -> coherent st2 -> disk st1 = disk st2 ->
  fst (group_instances_for_scene (data_root, scene_id) st1)
    = fst (group_instances_for_scene (data_root, scene_id) st2) /\
  (forall m st1',
     group_instances_for_scene (data_root, scene_id) st1 = (Ret m, st1') ->
     group_instances_for_scene (data_root, scene_id) st1' = (Ret m, st1')).
Proof.
  intros Hc1 Hc2 Hd. split.
  - destruct (group_instances_for_scene_cold (data_root, scene_id) st1 Hc1)
      as (? & -> & _).
    destruct (group_instances_for_scene_cold (data_root, scene_id) st2 Hc2)
      as (? & -> & _).
    simpl. now rewrite Hd.
  - intros m st1' Hrun.
    unfold group_instances_for_scene in *.
    eapply st_cache_again; [| exact Hrun]. reflexivity.
Qed.

End DataServiceFacts.

(* ===================================================================== *)
(** * Facts about [patching_service] *)
(* ===================================================================== *)

Section PatchingServiceFacts.

Import patching_service.

Context `{api : PatchingApi} {settings : config.Settings} {Ui : Type}.

Abbreviation world := (world (api := api) (Ui := Ui)).
Abbreviation callback := (callback (Ui := Ui)).
Abbreviation event := (event (api := api)).

Implicit Types (self : PatchingService) (w : world) (f : callback)
  (progress_callback : option callback)
  (grouped : gmap string (list string)).

(** ** The loop body as a step relation *)

Lemma report_spec progress_callback fraction text w :
  reported progress_callback fraction text w
    (fst (report progress_callback fraction text w))
    (snd (report progress_callback fraction text w)).
Proof.
  destruct progress_callback as [f|]; simpl.
  - destruct fraction as [q|e]; simpl.
    + unfold call_back, bind, emit; simpl.
      destruct (f q text (ui w)) as [r u] eqn:Hf.
      destruct r as [[]|e]; simpl; eapply reported_call; eauto.
    + eapply reported_undefined; eauto.
  - now apply reported_none.
Qed.

Lemma patch_one_spec self acc patcher scene_id grouped progress_callback
    total i instance_id w r w' :
  patch_one self acc patcher scene_id grouped progress_callback
    total i instance_id w = (r, w') ->
  patched_one self acc patcher scene_id grouped progress_callback
    total i instance_id w r w'.
Proof.
  unfold patch_one. unfold bind at 1.
  pose proof (report_spec progress_callback (truediv i total)
                (progress_text instance_id) w) as Hrep.
  destruct (report progress_callback (truediv i total)
              (progress_text instance_id) w) as [[[]|e] w1]; simpl in Hrep.
  2: { intros [= <- <-]. now apply one_report_raised. }
  unfold accumulate_and_patch.
  destruct (grouped !! instance_id) as [frames|] eqn:Hg.
  2: { intros [= <- <-]. now apply one_skipped. }
  unfold bind, emit, call, np_copy, ret; simpl.
  destruct (merge acc scene_id instance_id (strategy self) (store_of w1))
    as [[m|e] s2] eqn:Hm; simpl.
  2: { intros [= <- <-]. eapply one_merge_raised; eauto. }
  destruct (patch_instance patcher instance_id (length (heap s2))
              (Store (heap s2 ++ [heap s2 !!! m]) (ext s2)))
    as [r0 s'] eqn:Hp; simpl.
  repeat rewrite <- app_assoc. simpl.
  intros [= <- <-]. eapply one_patched; eauto.
Qed.

Lemma reported_log progress_callback fraction text w r w1 :
  reported progress_callback fraction text w r w1 ->
  store_of w1 = store_of w /\
  exists new, log w1 = log w ++ new /\
    (new = [] \/ exists q, fraction = Ret q /\ new = [Progress q text]).
Proof.
  intros [Hcb | f e Hcb Hfr | f q r0 u Hcb Hfr Hf]; simpl.
  - split; [reflexivity |]. exists []. rewrite app_nil_r. auto.
  - split; [reflexivity |]. exists []. rewrite app_nil_r. auto.
  - split; [reflexivity |]. eexists. split; [reflexivity |]. right. eauto.
Qed.

Lemma patched_one_events self acc patcher scene_id grouped progress_callback
    total i instance_id w r w' :
  patched_one self acc patcher scene_id grouped progress_callback
    total i instance_id w r w' ->
  exists new, log w' = log w ++ new /\
    Forall (step_event self acc patcher scene_id grouped total i instance_id) new.
Proof.
  assert (Hrep : forall o w1,
    reported progress_callback (truediv i total) (progress_text instance_id)
      w o w1 ->
    exists new, log w1 = log w ++ new /\
      Forall (step_event self acc patcher scene_id grouped total i instance_id)
        new).
  { intros o w1 H. apply reported_log in H as (_ & new & Hlog & Hnew).
    exists new. split; [exact Hlog |].
    destruct Hnew as [-> | (q & Hq & ->)]; [constructor |].
    repeat constructor. exact Hq. }
  intros [e w1 H | w1 H Hg | w1 frames e s' H Hg Hm
         | w1 frames m s2 r0 s' H Hg Hm Hp];
    destruct (Hrep _ _ H) as (new & Hlog & Hnew); simpl.
  - eauto.
  - eauto.
  - exists (new ++ [Merge acc scene_id instance_id (strategy self)]).
    rewrite Hlog, <- app_assoc. split; [reflexivity |].
    apply Forall_app. split; [exact Hnew |].
    repeat constructor. now rewrite Hg.
  - eexists (new ++ [_; _; _; _]).
    rewrite Hlog, <- app_assoc. split; [reflexivity |].
    apply Forall_app. split; [exact Hnew |].
    assert (is_Some (grouped !! instance_id)) by (now rewrite Hg).
    repeat constructor; assumption.
Qed.

(** ** The loop *)

(** An invariant of every iteration is an invariant of the loop, also when
    the loop is left by an exception. *)
Lemma patch_loop_invariant self acc patcher scene_id grouped
    progress_callback total (I : world -> Prop) (instance_ids : list string) :
  (forall i instance_id w r w',
     instance_id ∈ instance_ids -> I w ->
     patched_one self acc patcher scene_id grouped progress_callback
       total i instance_id w r w' -> I w') ->
  forall i w r w',
    I w ->
    patch_loop self acc patcher scene_id grouped progress_callback
      total i instance_ids w = (r, w') ->
    I w'.
Proof.
  induction instance_ids as [|x xs IH]; intros Hstep i w r w' HI Hrun.
  - injection Hrun as <- <-. exact HI.
  - simpl in Hrun. unfold bind in Hrun.
    destruct (patch_one self acc patcher scene_id grouped progress_callback
                total i x w) as [r1 w1] eqn:H1.
    apply patch_one_spec in H1.
    assert (HI1 : I w1).
    { eapply Hstep; [| exact HI | exact H1]. left. }
    destruct r1 as [[]|e].
    + eapply IH; [| exact HI1 | exact Hrun].
      intros j y v rv v' Hy. apply Hstep. now right.
    + injection Hrun as <- <-. exact HI1.
Qed.

Lemma patch_loop_app self acc patcher scene_id grouped progress_callback
    total i (xs ys : list string) w :
  patch_loop self acc patcher scene_id grouped progress_callback
    total i (xs ++ ys) w =
  match
    patch_loop self acc patcher scene_id grouped progress_callback
      total i xs w
  with
  | (Ret _, w1) =>
      patch_loop self acc patcher scene_id grouped progress_callback
        total (i + length xs) ys w1
  | (Raise e, w1) => (Raise e, w1)
  end.
Proof.
  revert i w. induction xs as [|x xs IH]; intros i w; simpl.
  - now rewrite Nat.add_0_r.
  - unfold bind.
    destruct (patch_one self acc patcher scene_id grouped progress_callback
                total i x w) as [[[]|e] w1]; [| reflexivity].
    rewrite IH. now replace (S i + length xs)%nat with (i + S (length xs))%nat by lia.
Qed.

(** ** The whole call, unfolded *)

Lemma patch_frame_unfold self scene_id frame_id instance_ids grouped
    progress_callback w :
  patch_frame self scene_id frame_id instance_ids grouped progress_callback w =
  let acc := Accumulator config.ACCUMULATION_STEP grouped (dataset self) in
  let lg := log w ++ [NewAccumulator acc;
                      LoadFramePatcher (dataset self) scene_id frame_id] in
  match load_frame_patcher (dataset self) scene_id frame_id (store_of w) with
  | (Raise e, s1) => (Raise e, World s1 (ui w) lg)
  | (Ret patcher, s1) =>
      match
        patch_loop self acc patcher scene_id grouped progress_callback
          (length instance_ids) 0 instance_ids (World s1 (ui w) lg)
      with
      | (Raise e, w2) => (Raise e, w2)
      | (Ret _, w2) =>
          match report progress_callback (Ret 1%Q) "Patching complete!" w2 with
          | (Raise e, w3) => (Raise e, w3)
          | (Ret _, w3) =>
              (Ret (frame patcher (store_of w3),
                    _segments patcher (store_of w3)), w3)
          end
      end
  end.
Proof.
  unfold patch_frame, bind, emit, call; simpl.
  rewrite <- app_assoc; simpl.
  destruct (load_frame_patcher (dataset self) scene_id frame_id (store_of w))
    as [[patcher|e] s1]; reflexivity.
Qed.

(** ** Strategy selection *)

(** C5. [_get_strategy] returns the greedy-grid strategy exactly for the
    name [greedy_grid] and the default strategy for every other string,
    the name [default] and unknown names alike; being a total function it
    raises for no name. *)
Theorem get_strategy_by_name (strategy_name : string) :
  (_get_strategy strategy_name = GreedyGridAccumulatorStrategy
     <-> strategy_name = "greedy_grid") /\
  (_get_strategy strategy_name = DefaultAccumulatorStrategy
     <-> strategy_name <> "greedy_grid") /\
  _get_strategy "default" = DefaultAccumulatorStrategy /\
  _get_strategy "Greedy_Grid" = DefaultAccumulatorStrategy.
Proof.
  unfold _get_strategy.
  destruct (String.eqb_spec strategy_name "greedy_grid") as [Heq | Hne].
  - split_and!; try reflexivity; split; intros H; congruence.
  - split_and!; try reflexivity; split; intros H; congruence.
Qed.

(** ** No instance to patch *)

(** C2. With an empty [instance_ids], [patch_frame] returns the working
    copy of the frame patcher exactly as [load_frame_patcher] left it:
    point cloud and segment labels are read from the store the load
    produced, which the call leaves untouched, and no accumulation, copy or
    patch takes place. *)
Theorem patch_frame_no_instances self scene_id frame_id grouped
    progress_callback (s : store Ext) (u : Ui) patcher s1 :
  load_frame_patcher (dataset self) scene_id frame_id s = (Ret patcher, s1) ->
  (forall f, progress_callback = Some f ->
             fst (f 1%Q "Patching complete!" u) = Ret tt) ->
  exists w',
    patch_frame self scene_id frame_id [] grouped progress_callback
      (start s u)
    = (Ret (frame patcher s1, _segments patcher s1), w') /\
    store_of w' = s1 /\
    Forall quiet (log w').
Proof.
  intros Hload Hcb. rewrite patch_frame_unfold. simpl. rewrite Hload. simpl.
  destruct progress_callback as [f|]; simpl.
  - unfold call_back, bind, emit; simpl.
    specialize (Hcb f eq_refl).
    destruct (f 1%Q "Patching complete!" u) as [r u'].
    simpl in Hcb. subst r. simpl.
    eexists. split; [reflexivity |]. split; [reflexivity |].
    simpl. repeat constructor.
  - eexists. split; [reflexivity |]. split; [reflexivity |].
    simpl. repeat constructor.
Qed.

(** ** The calls a run makes *)

(** A run builds one accumulator, loads one frame patcher, and then only
    reports progress and accumulates and patches instances that are keys of
    the index, always on that accumulator. *)
Lemma patch_frame_log self scene_id frame_id instance_ids grouped
    progress_callback (s : store Ext) (u : Ui) :
  let acc := Accumulator config.ACCUMULATION_STEP grouped (dataset self) in
  exists rest,
    log (snd (patch_frame self scene_id frame_id instance_ids grouped
                progress_callback (start s u)))
    = NewAccumulator acc
        :: LoadFramePatcher (dataset self) scene_id frame_id :: rest /\
    Forall (service_event self acc scene_id grouped instance_ids) rest.
Proof.
  intros acc. rewrite patch_frame_unfold. simpl. fold acc.
  set (base := [NewAccumulator acc;
                LoadFramePatcher (dataset self) scene_id frame_id]).
  set (I := fun w : world =>
         exists rest, log w = base ++ rest /\
           Forall (service_event self acc scene_id grouped instance_ids) rest).
  assert (H0 : forall s1, I (World s1 u base)).
  { intros s1. exists []. split; [now rewrite app_nil_r | constructor]. }
  assert (Hgoal : forall rw : outcome (np.ndarray * list Z) * world,
            I (snd rw) ->
            exists rest, log (snd rw)
              = NewAccumulator acc
                  :: LoadFramePatcher (dataset self) scene_id frame_id :: rest /\
              Forall (service_event self acc scene_id grouped instance_ids) rest).
  { intros rw (rest & Hlog & Hrest). exists rest. now rewrite Hlog. }
  apply Hgoal.
  destruct (load_frame_patcher (dataset self) scene_id frame_id s)
    as [[patcher|e] s1]; simpl; [| apply H0].
  destruct (patch_loop self acc patcher scene_id grouped progress_callback
              (length instance_ids) 0 instance_ids _) as [r2 w2] eqn:Hloop.
  assert (H2 : I w2).
  { eapply patch_loop_invariant; [| apply (H0 s1) | exact Hloop].
    intros i x w r w' Hx (rest & Hlog & Hrest) Hone.
    apply patched_one_events in Hone as (new & Hnew & Hev).
    exists (rest ++ new). rewrite Hnew, Hlog, app_assoc. split; [reflexivity |].
    apply Forall_app. split; [exact Hrest |].
    eapply Forall_impl; [exact Hev |].
    intros e He. destruct He; constructor; assumption. }
  destruct r2 as [[]|e]; simpl; [| exact H2].
  pose proof (report_spec progress_callback (Ret 1%Q) "Patching complete!" w2)
    as Hrep.
  destruct (report progress_callback (Ret 1%Q) "Patching complete!" w2)
    as [r3 w3]. simpl in Hrep.
  apply reported_log in Hrep as (_ & new & Hnew & Hcase).
  assert (H3 : I w3).
  { destruct H2 as (rest & Hlog & Hrest).
    exists (rest ++ new). rewrite Hnew, Hlog, app_assoc. split; [reflexivity |].
    apply Forall_app. split; [exact Hrest |].
    destruct Hcase as [-> | (q & _ & ->)]; repeat constructor. }
  destruct r3 as [[]|e]; exact H3.
Qed.

(** One accumulator is built per call, first thing, and every merge of the
    call is made on it. *)
Lemma patch_frame_accumulators self scene_id frame_id instance_ids grouped
    progress_callback (s : store Ext) (u : Ui) :
  let acc := Accumulator config.ACCUMULATION_STEP grouped (dataset self) in
  exists rest,
    log (snd (patch_frame self scene_id frame_id instance_ids grouped
                progress_callback (start s u)))
    = NewAccumulator acc :: rest /\
    Forall (on_accumulator acc) rest.
Proof.
  intros acc.
  destruct (patch_frame_log self scene_id frame_id instance_ids grouped
              progress_callback s u) as (rest & Hlog & Hrest).
  fold acc in Hlog, Hrest.
  eexists. split; [exact Hlog |].
  constructor; [exact I |].
  eapply Forall_impl; [exact Hrest |].
  intros e He. destruct He; simpl; auto.
Qed.

(** ** The calls to the collaborators *)

Lemma present_key grouped (x : string) (xs : list string) :
  is_Some (grouped !! x) -> present grouped (x :: xs) = x :: present grouped xs.
Proof. intros H. unfold present. now rewrite filter_cons_True. Qed.

Lemma present_no_key grouped (x : string) (xs : list string) :
  grouped !! x = None -> present grouped (x :: xs) = present grouped xs.
Proof.
  intros H. unfold present. rewrite filter_cons_False; [reflexivity |].
  rewrite H. intros [? ?]; discriminate.
Qed.

(** A report that raises although a fraction was computed: the callback
    raised. *)
Lemma reported_raises progress_callback q text w e w1 :
  reported progress_callback (Ret q) text w (Raise e) w1 ->
  exists f, progress_callback = Some f /\ callback_raises f e.
Proof.
  intros H. inversion H as [| f e' Hcb Hfr | f q' r0 u0 Hcb Hfr Hf]; subst.
  - discriminate.
  - exists f. split; [reflexivity |].
    exists q', text, (ui w). now rewrite Hf.
Qed.

(** The loop, as the calls it makes to the collaborators. *)
Lemma patch_loop_processed self acc patcher scene_id grouped progress_callback
    total (instance_ids : list string) i w r w' :
  (instance_ids <> [] -> total <> 0%nat) ->
  patch_loop self acc patcher scene_id grouped progress_callback
    total i instance_ids w = (r, w') ->
  exists attempted copies o,
    attempted `prefix_of` instance_ids /\
    processed acc (strategy self) patcher scene_id
      (present grouped attempted) (store_of w) copies o (store_of w') /\
    (r = Ret tt -> attempted = instance_ids /\ o = Ret tt) /\
    (forall e, o = Raise e -> r = Raise e) /\
    (forall e, r = Raise e -> o = Ret tt ->
       exists f, progress_callback = Some f /\ callback_raises f e).
Proof.
  revert i w. induction instance_ids as [|x xs IH]; intros i w Htotal Hrun.
  - injection Hrun as <- <-. exists [], [], (Ret tt).
    split_and!; try done. constructor.
  - assert (Hne : total <> 0%nat) by (apply Htotal; discriminate).
    destruct total as [|n]; [congruence |].
    cbn [patch_loop] in Hrun. unfold bind in Hrun.
    destruct (patch_one self acc patcher scene_id grouped progress_callback
                (S n) i x w) as [r1 w1] eqn:H1.
    apply patch_one_spec in H1.
    destruct H1 as [e w1 H | w1 H Hg | w1 frames e s' H Hg Hm
                   | w1 frames m s2 r0 s' H Hg Hm Hp].
    + injection Hrun as <- <-.
      pose proof (reported_log _ _ _ _ _ _ H) as [Hs _].
      exists [], [], (Ret tt). rewrite Hs.
      split_and!; try done; [apply prefix_nil | constructor |].
      intros e0 [= <-] _. simpl in H. eapply reported_raises. exact H.
    + pose proof (reported_log _ _ _ _ _ _ H) as [Hs _].
      apply IH in Hrun
        as (attempted & copies & o & Hpre & Hproc & Hret & Hraise & Hcb);
        [| intros _; exact Hne].
      exists (x :: attempted), copies, o.
      rewrite present_no_key by exact Hg. rewrite <- Hs.
      split_and!; try done; [now apply prefix_cons |].
      intros Hr. destruct (Hret Hr) as [-> ->]. done.
    + injection Hrun as <- <-.
      pose proof (reported_log _ _ _ _ _ _ H) as [Hs _].
      exists [x], [], (Raise e).
      rewrite present_key by (rewrite Hg; eauto). simpl. rewrite <- Hs.
      split_and!; try done.
      * apply prefix_cons, prefix_nil.
      * now apply processed_merge_raises.
    + pose proof (reported_log _ _ _ _ _ _ H) as [Hs _].
      rewrite Hs in Hm.
      destruct r0 as [[]|e].
      * apply IH in Hrun
          as (attempted & copies & o & Hpre & Hproc & Hret & Hraise & Hcb);
          [| intros _; exact Hne].
        exists (x :: attempted), ((m, length (heap s2)) :: copies), o.
        rewrite present_key by (rewrite Hg; eauto).
        split_and!; try done; [now apply prefix_cons | |].
        -- eapply processed_next; eauto.
        -- intros Hr. destruct (Hret Hr) as [-> ->]. done.
      * injection Hrun as <- <-.
        exists [x], [(m, length (heap s2))], (Raise e).
        rewrite present_key by (rewrite Hg; eauto). simpl.
        split_and!; try done; [apply prefix_cons, prefix_nil |].
        eapply processed_patch_raises; eauto.
Qed.

(** The whole call, as the calls it makes to the collaborators once the
    frame patcher is loaded. *)
Lemma patch_frame_processed self scene_id frame_id instance_ids grouped
    progress_callback (s : store Ext) (u : Ui) patcher s1 r w' :
  load_frame_patcher (dataset self) scene_id frame_id s = (Ret patcher, s1) ->
  patch_frame self scene_id frame_id instance_ids grouped progress_callback
    (start s u) = (r, w') ->
  exists attempted copies o,
    attempted `prefix_of` instance_ids /\
    processed (Accumulator config.ACCUMULATION_STEP grouped (dataset self))
      (strategy self) patcher scene_id
      (present grouped attempted) s1 copies o (store_of w') /\
    (forall res, r = Ret res ->
       attempted = instance_ids /\ o = Ret tt /\
       res = (frame patcher (store_of w'), _segments patcher (store_of w'))) /\
    (forall e, o = Raise e -> r = Raise e) /\
    (forall e, r = Raise e -> o = Ret tt ->
       exists f, progress_callback = Some f /\ callback_raises f e).
Proof.
  intros Hload. rewrite patch_frame_unfold. simpl. rewrite Hload.
  destruct (patch_loop _ _ _ _ _ _ _ _ _ _) as [r2 w2] eqn:Hloop.
  apply patch_loop_processed in Hloop
    as (attempted & copies & o & Hpre & Hproc & Hret & Hraise & Hcb).
  2: { intros Hne Hlen. apply Hne. now apply length_zero_iff_nil. }
  simpl in Hproc.
  destruct r2 as [[]|e2].
  - destruct (Hret eq_refl) as [-> ->].
    pose proof (report_spec progress_callback (Ret 1%Q) "Patching complete!"
                  w2) as Hrep.
    destruct (report progress_callback (Ret 1%Q) "Patching complete!" w2)
      as [r3 w3]. simpl in Hrep.
    pose proof (reported_log _ _ _ _ _ _ Hrep) as [Hs _].
    destruct r3 as [[]|e3]; intros [= <- <-]; rewrite Hs;
      exists instance_ids, copies, (Ret tt).
    + split_and!; try done. intros res [= <-]. done.
    + split_and!; try done. intros e [= <-] _.
      eapply reported_raises. exact Hrep.
  - intros [= <- <-]. exists attempted, copies, o.
    split_and!; try done.
    + intros e He. specialize (Hraise e He). congruence.
    + intros e [= <-] Ho. now apply Hcb.
Qed.

(** With collaborators that keep their arrays, the heap only grows, and the
    arrays passed to [patch_instance] are new each time. *)
Lemma processed_arrays acc strat patcher scene_id (instance_ids : list string)
    (s : store Ext) copies o s' :
  keeps_arrays ->
  processed acc strat patcher scene_id instance_ids s copies o s' ->
  (length (heap s) <= length (heap s'))%nat /\
  Forall (fun c => (c.1 < c.2)%nat /\ (length (heap s) <= c.2)%nat) copies /\
  (forall i j c c',
     copies !! i = Some c -> copies !! j = Some c' -> (i < j)%nat ->
     (c.2 < c'.2)%nat).
Proof.
  intros Hkeep Hproc.
  induction Hproc as
    [s | x rest s e s' Hm | x rest s m s2 e s' Hm Hp
    | x rest s m s2 s3 copies o s' Hm Hp Hrest IH].
  - split_and!; [lia | constructor |]. intros i j c c' Hi. now rewrite lookup_nil in Hi.
  - pose proof (merge_keeps Hkeep acc scene_id x strat s) as Hle.
    rewrite Hm in Hle. simpl in Hle.
    split_and!; [exact Hle | constructor |].
    intros i j c c' Hi. now rewrite lookup_nil in Hi.
  - pose proof (merge_keeps Hkeep acc scene_id x strat s) as Hle.
    rewrite Hm in Hle. simpl in Hle.
    pose proof (merge_returns_array Hkeep _ _ _ _ _ _ _ Hm) as Hlive.
    pose proof (patch_instance_keeps Hkeep patcher x (length (heap s2))
                  (Store (heap s2 ++ [heap s2 !!! m]) (ext s2))) as Hle'.
    rewrite Hp in Hle'. simpl in Hle'. rewrite length_app in Hle'.
    simpl in Hle'.
    split_and!; [lia | repeat constructor; simpl; try lia |].
    intros i j c c' Hi Hj Hij.
    destruct j as [|j]; [lia |]. simpl in Hj. now rewrite lookup_nil in Hj.
  - pose proof (merge_keeps Hkeep acc scene_id x strat s) as Hle.
    rewrite Hm in Hle. simpl in Hle.
    pose proof (merge_returns_array Hkeep _ _ _ _ _ _ _ Hm) as Hlive.
    pose proof (patch_instance_keeps Hkeep patcher x (length (heap s2))
                  (Store (heap s2 ++ [heap s2 !!! m]) (ext s2))) as Hle'.
    rewrite Hp in Hle'. simpl in Hle'. rewrite length_app in Hle'.
    simpl in Hle'.
    destruct IH as (Hgrow & Hall & Hinc).
    split_and!; [lia | |].
    + constructor; [simpl; lia |].
      eapply Forall_impl; [exact Hall |]. intros c [? ?]. split; lia.
    + intros i j c c' Hi Hj Hij.
      destruct j as [|j]; [lia |]. simpl in Hj.
      destruct i as [|i]; simpl in Hi.
      * injection Hi as <-. simpl.
        rewrite Forall_forall in Hall.
        apply list_elem_of_lookup_2 in Hj.
        pose proof (Hall _ Hj) as Hc. destruct c' as [a b]. simpl in *. lia.
      * eapply Hinc; eauto. lia.
Qed.

Lemma processed_returned acc strat patcher scene_id (instance_ids : list string)
    (s : store Ext) copies s' :
  processed acc strat patcher scene_id instance_ids s copies (Ret tt) s' ->
  length copies = length instance_ids.
Proof.
  intros H. remember (Ret tt) as o eqn:Ho.
  induction H; try discriminate; simpl; auto.
Qed.

(** ** The stride of the accumulator *)

(** C4.  The stride is taken from the configuration as it is.  Under every
    configured [ACCUMULATION_STEP], a stride of 1, which uses every frame,
    as well as the 3 of app/config.py or any other, [patch_frame] builds one
    accumulator, first thing, with that stride, the index it was given and
    the dataset of the service; and every merge of the run is called on
    that accumulator: once the frame patcher is loaded, the calls made are
    the merges on it, each followed by the patch of its copy, for the keys
    among an initial part of the instances, all of them when the run
    returns. *)
Theorem patch_frame_stride_is_configured self scene_id frame_id instance_ids
    grouped progress_callback (s : store Ext) (u : Ui) :
  let run := patch_frame self scene_id frame_id instance_ids grouped
               progress_callback (start s u) in
  exists acc,
    step acc = config.ACCUMULATION_STEP /\
    grouped_instances acc = grouped /\
    accumulator_dataset acc = dataset self /\
    (exists rest,
       log (snd run) = NewAccumulator acc :: rest /\
       Forall (on_accumulator acc) rest) /\
    (forall patcher s1,
       load_frame_patcher (dataset self) scene_id frame_id s
         = (Ret patcher, s1) ->
       exists attempted copies o,
         attempted `prefix_of` instance_ids /\
         (returned (fst run) -> attempted = instance_ids /\ o = Ret tt) /\
         processed acc (strategy self) patcher scene_id
           (present grouped attempted) s1 copies o (store_of (snd run))).
Proof.
  intros run.
  exists (Accumulator config.ACCUMULATION_STEP grouped (dataset self)).
  split_and!; try reflexivity.
  - apply patch_frame_accumulators.
  - intros patcher s1 Hload.
    destruct (patch_frame_processed self scene_id frame_id instance_ids
                grouped progress_callback s u patcher s1 (fst run) (snd run)
                Hload)
      as (attempted & copies & o & Hpre & Hproc & Hret & _).
    { subst run. now destruct (patch_frame _ _ _ _ _ _ _). }
    exists attempted, copies, o. split_and!; try done.
    intros Hr. destruct (fst run) as [res|e]; [| destruct Hr].
    destruct (Hret res eq_refl) as (-> & -> & _). done.
Qed.

(** ** Instances that are not keys of the index *)

Lemma patch_one_no_callback self acc patcher scene_id grouped total i
    instance_id w :
  patch_one self acc patcher scene_id grouped None total i instance_id w
  = accumulate_and_patch self acc patcher scene_id grouped instance_id w.
Proof. reflexivity. Qed.

Lemma accumulate_and_patch_absent self acc patcher scene_id grouped
    instance_id w :
  grouped !! instance_id = None ->
  accumulate_and_patch self acc patcher scene_id grouped instance_id w
  = (Ret tt, w).
Proof. intros H. unfold accumulate_and_patch. now rewrite H. Qed.

(** Without a callback the loop does on [instance_ids] what it does on the
    keys of the index among them; index and total play no part. *)
Lemma patch_loop_skip self acc patcher scene_id grouped total i total' i'
    (instance_ids : list string) w :
  patch_loop self acc patcher scene_id grouped None total i instance_ids w
  = patch_loop self acc patcher scene_id grouped None total' i'
      (filter (fun x => is_Some (grouped !! x)) instance_ids) w.
Proof.
  revert i i' w. induction instance_ids as [|x xs IH]; intros i i' w.
  - reflexivity.
  - destruct (grouped !! x) as [frames|] eqn:Hx.
    + rewrite filter_cons_True by (now rewrite Hx). simpl. unfold bind.
      rewrite !patch_one_no_callback.
      destruct (accumulate_and_patch self acc patcher scene_id grouped x w)
        as [[[]|e] w1]; [apply IH | reflexivity].
    + rewrite filter_cons_False by (rewrite Hx; now intros []).
      simpl. unfold bind.
      rewrite patch_one_no_callback, accumulate_and_patch_absent by exact Hx.
      apply IH.
Qed.

(** ** Runs with and without a progress callback *)

(** What the statements after the report do depends on the store alone. *)
Lemma accumulate_and_patch_store self acc patcher scene_id grouped
    instance_id w w0 :
  store_of w = store_of w0 ->
  fst (accumulate_and_patch self acc patcher scene_id grouped instance_id w)
  = fst (accumulate_and_patch self acc patcher scene_id grouped instance_id w0)
  /\
  store_of
    (snd (accumulate_and_patch self acc patcher scene_id grouped instance_id w))
  = store_of
      (snd (accumulate_and_patch self acc patcher scene_id grouped instance_id w0)).
Proof.
  intros Hs. unfold accumulate_and_patch.
  destruct (grouped !! instance_id); [| now split].
  unfold bind, emit, call, np_copy, ret; simpl. rewrite Hs.
  destruct (merge acc scene_id instance_id (strategy self) (store_of w0))
    as [[m|e] s2]; simpl; [| now split].
  destruct (patch_instance patcher instance_id (length (heap s2))
              (Store (heap s2 ++ [heap s2 !!! m]) (ext s2))) as [r s'].
  now split.
Qed.

Lemma patch_one_erase self acc patcher scene_id grouped f total i
    instance_id w w0 :
  total <> 0%nat ->
  store_of w = store_of w0 ->
  let run1 := patch_one self acc patcher scene_id grouped (Some f)
                total i instance_id w in
  let run0 := accumulate_and_patch self acc patcher scene_id grouped
                instance_id w0 in
  (fst run1 = fst run0 /\ store_of (snd run1) = store_of (snd run0)) \/
  (exists e, callback_raises f e /\ fst run1 = Raise e).
Proof.
  intros Hne Hs run1 run0. subst run1 run0.
  destruct total as [|n]; [congruence |].
  unfold patch_one, bind, report, truediv, call_back, bind, emit; simpl.
  destruct (f (Z.of_nat i # Pos.of_nat (S n)) (progress_text instance_id) (ui w))
    as [[[]|e] u1] eqn:Hf; simpl.
  - left. now apply accumulate_and_patch_store.
  - right. exists e. split; [| reflexivity].
    eexists _, _, _. now rewrite Hf.
Qed.

Lemma patch_loop_erase self acc patcher scene_id grouped f total i total0 i0
    (instance_ids : list string) w w0 :
  (instance_ids <> [] -> total <> 0%nat) ->
  store_of w = store_of w0 ->
  let run1 := patch_loop self acc patcher scene_id grouped (Some f)
                total i instance_ids w in
  let run0 := patch_loop self acc patcher scene_id grouped None
                total0 i0 instance_ids w0 in
  (fst run1 = fst run0 /\ store_of (snd run1) = store_of (snd run0)) \/
  (exists e, callback_raises f e /\ fst run1 = Raise e).
Proof.
  revert i i0 w w0. induction instance_ids as [|x xs IH];
    intros i i0 w w0 Htotal Hs run1 run0; subst run1 run0;
    cbn [patch_loop].
  - left. auto.
  - assert (Hne : total <> 0%nat) by (apply Htotal; discriminate).
    unfold bind. rewrite patch_one_no_callback.
    destruct (patch_one_erase self acc patcher scene_id grouped f total i
                x w w0 Hne Hs) as [[Hr Hst] | (e & He & Hr)].
    + destruct (patch_one self acc patcher scene_id grouped (Some f)
                  total i x w) as [r1 w1].
      destruct (accumulate_and_patch self acc patcher scene_id grouped x w0)
        as [r0 w0'].
      simpl in Hr, Hst. subst r0.
      destruct r1 as [[]|e]; [| left; auto].
      apply IH; [intros _; exact Hne | exact Hst].
    + destruct (patch_one self acc patcher scene_id grouped (Some f)
                  total i x w) as [r1 w1].
      simpl in Hr. subst r1. right. exists e. auto.
Qed.

Lemma patch_frame_erase self scene_id frame_id instance_ids grouped f
    (s : store Ext) (u : Ui) :
  let run1 := patch_frame self scene_id frame_id instance_ids grouped
                (Some f) (start s u) in
  let run0 := patch_frame self scene_id frame_id instance_ids grouped
                None (start s u) in
  (fst run1 = fst run0 /\ store_of (snd run1) = store_of (snd run0)) \/
  (exists e, callback_raises f e /\ fst run1 = Raise e).
Proof.
  intros run1 run0. subst run1 run0. rewrite !patch_frame_unfold. simpl.
  destruct (load_frame_patcher (dataset self) scene_id frame_id s)
    as [[patcher|e] s1]; simpl; [| left; auto].
  match goal with
  | |- context [patch_loop _ ?acc _ _ _ (Some f) ?t ?i _ ?w1] =>
      pose proof (patch_loop_erase self acc patcher scene_id grouped f
                    t i t i instance_ids w1 w1) as Hloop
  end.
  simpl in Hloop.
  destruct Hloop as [[Hr Hst] | (e & He & Hr)];
    [intros H; destruct instance_ids; [congruence | discriminate]
    | reflexivity | |].
  - destruct (patch_loop _ _ _ _ _ (Some f) _ _ _ _) as [r1 w1].
    destruct (patch_loop _ _ _ _ _ None _ _ _ _) as [r0 w0].
    simpl in Hr, Hst. subst r0.
    destruct r1 as [[]|e]; simpl; [| left; auto].
    unfold call_back, bind, emit; simpl.
    destruct (f 1%Q "Patching complete!" (ui w1)) as [[[]|e] u1] eqn:Hf; simpl.
    + left. rewrite Hst. auto.
    + right. exists e. split; [| reflexivity].
      eexists _, _, _. now rewrite Hf.
  - destruct (patch_loop _ _ _ _ _ (Some f) _ _ _ _) as [r1 w1].
    simpl in Hr. subst r1. right. exists e. auto.
Qed.

Lemma patch_frame_skip self scene_id frame_id instance_ids grouped w :
  patch_frame self scene_id frame_id instance_ids grouped None w
  = patch_frame self scene_id frame_id
      (filter (fun x => is_Some (grouped !! x)) instance_ids) grouped None w.
Proof.
  rewrite !patch_frame_unfold. simpl.
  destruct (load_frame_patcher (dataset self) scene_id frame_id (store_of w))
    as [[patcher|e] s1]; [| reflexivity].
  now rewrite (patch_loop_skip self _ patcher scene_id grouped
                 (length instance_ids) 0
                 (length (filter (fun x => is_Some (grouped !! x)) instance_ids))
                 0 instance_ids).
Qed.

(** Dropping an instance that is not a key of the index does not change
    which keys of the index remain. *)
Lemma filter_present_without grouped (instance_id : string)
    (instance_ids : list string) :
  grouped !! instance_id = None ->
  filter (fun x => is_Some (grouped !! x))
    (filter (fun x => x <> instance_id) instance_ids)
  = filter (fun x => is_Some (grouped !! x)) instance_ids.
Proof.
  intros Habs. induction instance_ids as [|x xs IH]; [reflexivity |].
  destruct (decide (x = instance_id)) as [-> | Hne].
  - rewrite (filter_cons_False (fun x => x <> instance_id)) by (intros H; now apply H).
    rewrite (filter_cons_False (fun x => is_Some (grouped !! x)))
      by (rewrite Habs; now intros []).
    exact IH.
  - rewrite (filter_cons_True (fun x => x <> instance_id)) by exact Hne.
    destruct (grouped !! x) as [frames|] eqn:Hx.
    + rewrite !(filter_cons_True (fun x => is_Some (grouped !! x)))
        by (now rewrite Hx).
      now rewrite IH.
    + rewrite !(filter_cons_False (fun x => is_Some (grouped !! x)))
        by (rewrite Hx; now intros []).
      exact IH.
Qed.

(** C1. An instance id that is not a key of [grouped_instances] is skipped:
    no merge and no [patch_instance] call is made for it, and the run has
    the outcome, and leaves the store, of the run on the list without it, so
    it raises nothing on account of the id.  The other instances are still
    processed: once the frame patcher is loaded, the calls made to the
    collaborators are a merge, a copy and a patch of the copy for each key
    among an initial part of the requested instances, in the order of the
    request, the id not among them; a run that returns has done so for all
    of them, those after the id included, and returns the working copy they
    left; a run that raises does so because one of these calls raised, or
    the callback.  Without a callback the run and the run on the list
    without the id are the same run; with a callback that does not raise
    they differ in the progress reports alone. *)
Theorem patch_frame_skips_absent self scene_id frame_id instance_ids grouped
    progress_callback (s : store Ext) (u : Ui) (instance_id : string) :
  grouped !! instance_id = None ->
  let others := filter (fun x => x <> instance_id) instance_ids in
  let run ids cb :=
    patch_frame self scene_id frame_id ids grouped cb (start s u) in
  Forall (not_about instance_id) (log (snd (run instance_ids progress_callback)))
  /\ run instance_ids None = run others None
  /\ (forall f, progress_callback = Some f ->
        (forall e, ~ callback_raises f e) ->
        fst (run instance_ids progress_callback)
          = fst (run others progress_callback) /\
        store_of (snd (run instance_ids progress_callback))
          = store_of (snd (run others progress_callback)))
  /\ present grouped instance_ids = present grouped others
  /\ (forall patcher s1,
        load_frame_patcher (dataset self) scene_id frame_id s
          = (Ret patcher, s1) ->
        let r := fst (run instance_ids progress_callback) in
        let s' := store_of (snd (run instance_ids progress_callback)) in
        exists attempted copies o,
          attempted `prefix_of` instance_ids /\
          (instance_id ∉ present grouped attempted) /\
          processed
            (Accumulator config.ACCUMULATION_STEP grouped (dataset self))
            (strategy self) patcher scene_id (present grouped attempted)
            s1 copies o s' /\
          (forall res, r = Ret res ->
             attempted = instance_ids /\ o = Ret tt /\
             length copies = length (present grouped others) /\
             res = (frame patcher s', _segments patcher s')) /\
          (forall e, o = Raise e -> r = Raise e) /\
          (forall e, r = Raise e -> o = Ret tt ->
             exists f, progress_callback = Some f /\ callback_raises f e)).
Proof.
  intros Habs others run. subst run others. cbv beta. split_and!.
  - destruct (patch_frame_log self scene_id frame_id instance_ids grouped
                progress_callback s u) as (rest & -> & Hrest).
    repeat (constructor; [exact I |]).
    eapply Forall_impl; [exact Hrest |].
    intros e He. destruct He as [| x _ Hx | | | p x l _ Hx]; simpl; auto;
      intros ->; rewrite Habs in Hx; now destruct Hx.
  - etransitivity; [apply patch_frame_skip |].
    symmetry. etransitivity; [apply patch_frame_skip |].
    now rewrite filter_present_without.
  - intros f -> Hquiet.
    assert (Hnone :
      patch_frame self scene_id frame_id instance_ids grouped None (start s u)
      = patch_frame self scene_id frame_id
          (filter (fun x => x <> instance_id) instance_ids) grouped None
          (start s u)).
    { etransitivity; [apply patch_frame_skip |].
      symmetry. etransitivity; [apply patch_frame_skip |].
      now rewrite filter_present_without. }
    destruct (patch_frame_erase self scene_id frame_id instance_ids grouped
                f s u) as [[Hr Hs] | (e & He & _)];
      [| now destruct (Hquiet e)].
    destruct (patch_frame_erase self scene_id frame_id
                (filter (fun x => x <> instance_id) instance_ids) grouped
                f s u) as [[Hr' Hs'] | (e & He & _)];
      [| now destruct (Hquiet e)].
    rewrite Hr, Hs, Hr', Hs', Hnone. auto.
  - unfold present. now rewrite filter_present_without.
  - intros patcher s1 Hload.
    destruct (patch_frame self scene_id frame_id instance_ids grouped
                progress_callback (start s u)) as [r w'] eqn:Hrun.
    destruct (patch_frame_processed self scene_id frame_id instance_ids
                grouped progress_callback s u patcher s1 r w' Hload Hrun)
      as (attempted & copies & o & Hpre & Hproc & Hret & Hraise & Hcb).
    exists attempted, copies, o. cbn [fst snd]. split_and!; try done.
    + unfold present. intros Hin. apply list_elem_of_filter in Hin as [Hkey _].
      rewrite Habs in Hkey. now destruct Hkey.
    + intros res Hres. destruct (Hret res Hres) as (-> & -> & ->).
      split_and!; try done.
      rewrite (processed_returned _ _ _ _ _ _ _ _ Hproc).
      unfold present. now rewrite filter_present_without.
Qed.

(** ** Progress reports *)

Lemma fraction_of_in_range (total i : nat) :
  (i < total)%nat -> (0 <= fraction_of total i /\ fraction_of total i < 1)%Q.
Proof.
  intros Hi. unfold fraction_of, Qle, Qlt; simpl.
  assert (Hpos : Z.pos (Pos.of_nat total) = Z.of_nat total).
  { rewrite <- positive_nat_Z, Nat2Pos.id by lia. reflexivity. }
  rewrite Hpos. lia.
Qed.

(** The loop, as the calls it makes to the callback. *)
Lemma patch_loop_called_back self acc patcher scene_id grouped f
    total (instance_ids : list string) i w r w' :
  (instance_ids <> [] -> total <> 0%nat) ->
  patch_loop self acc patcher scene_id grouped (Some f)
    total i instance_ids w = (r, w') ->
  exists made o,
    made `prefix_of` loop_reports total i instance_ids /\
    called_back f made (ui w) o (ui w') /\
    (r = Ret tt -> made = loop_reports total i instance_ids /\ o = Ret tt) /\
    (forall e, o = Raise e -> r = Raise e).
Proof.
  revert i w. induction instance_ids as [|x xs IH]; intros i w Htotal Hrun.
  - injection Hrun as <- <-. exists [], (Ret tt).
    split_and!; try done. constructor.
  - assert (Hne : total <> 0%nat) by (apply Htotal; discriminate).
    destruct total as [|n]; [congruence |].
    cbn [patch_loop] in Hrun. unfold bind in Hrun.
    destruct (patch_one self acc patcher scene_id grouped (Some f)
                (S n) i x w) as [r1 w1] eqn:H1.
    apply patch_one_spec in H1.
    assert (Hrep : forall o w1,
      reported (Some f) (truediv i (S n)) (progress_text x) w o w1 ->
      f (fraction_of (S n) i) (progress_text x) (ui w) = (o, ui w1)).
    { intros o w0 H.
      inversion H as [Hcb | g e Hcb Hfr | g q r0 u0 Hcb Hfr Hf]; subst;
        try discriminate.
      injection Hcb as <-. simpl in Hfr. injection Hfr as <-. exact Hf. }
    cbn [loop_reports].
    destruct H1 as [e w1 H | w1 H Hg | w1 frames e s' H Hg Hm
                   | w1 frames m s2 r0 s' H Hg Hm Hp]; apply Hrep in H.
    + injection Hrun as <- <-.
      eexists _, (Raise e).
      split_and!; [reflexivity | | done | done].
      now apply called_raises.
    + apply IH in Hrun as (made & o & Hpre & Hcalls & Hret & Hraise);
        [| intros _; exact Hne].
      exists ((fraction_of (S n) i, progress_text x) :: made), o.
      split_and!; [now apply prefix_cons | | | done].
      * eapply called_next; eauto.
      * intros Hr. destruct (Hret Hr) as [-> ->]. done.
    + injection Hrun as <- <-.
      exists [(fraction_of (S n) i, progress_text x)], (Ret tt).
      split_and!; [apply prefix_cons, prefix_nil | | done | done].
      eapply called_next; [exact H | constructor].
    + destruct r0 as [[]|e].
      * apply IH in Hrun as (made & o & Hpre & Hcalls & Hret & Hraise);
          [| intros _; exact Hne].
        exists ((fraction_of (S n) i, progress_text x) :: made), o.
        split_and!; [now apply prefix_cons | | | done].
        -- eapply called_next; eauto.
        -- intros Hr. destruct (Hret Hr) as [-> ->]. done.
      * injection Hrun as <- <-.
        exists [(fraction_of (S n) i, progress_text x)], (Ret tt).
        split_and!; [apply prefix_cons, prefix_nil | | done | done].
        eapply called_next; [exact H | constructor].
Qed.

Lemma called_back_app f (xs ys : list (Q * string)) (u u1 : Ui) o u' :
  called_back f xs u (Ret tt) u1 -> called_back f ys u1 o u' ->
  called_back f (xs ++ ys) u o u'.
Proof.
  intros H. remember (Ret tt) as r eqn:Hr. revert Hr.
  induction H as [u | q text rest u e u1 Hf | q text rest u u2 o1 u1 Hf Hrest IH];
    intros Hr Hys; simpl.
  - exact Hys.
  - discriminate.
  - eapply called_next; eauto.
Qed.

Lemma length_loop_reports (total i : nat) (instance_ids : list string) :
  length (loop_reports total i instance_ids) = length instance_ids.
Proof.
  revert i. induction instance_ids as [|x xs IH]; intros i; simpl;
    [reflexivity | now rewrite IH].
Qed.

Lemma loop_reports_fractions (total : nat) (instance_ids : list string) (i : nat) :
  (i + length instance_ids <= total)%nat ->
  Forall (fun c => 0 <= c.1 /\ c.1 < 1)%Q (loop_reports total i instance_ids).
Proof.
  revert i. induction instance_ids as [|x xs IH]; intros i Hi; simpl.
  - constructor.
  - simpl in Hi. constructor.
    + simpl. apply fraction_of_in_range. lia.
    + apply IH. lia.
Qed.

(** C3. With a callback and at least one instance, the callback is called
    once per instance reached, with the fractions 0/n, 1/n, ... in order and
    the text naming the instance, each fraction in [0, 1), and, when the
    loop has run to its end, once more with exactly 1: the state of the
    caller the run leaves is the state these calls of the callback produce,
    one after the other, from the state the run started in.  A run that
    returns has made all n + 1 calls, and none of them raised; a call that
    raises ends the run with its exception.  A run without a callback
    returns whatever the run with the callback returns, and the two runs
    have the same outcome and leave the same store when the callback raises
    nothing. *)
Theorem patch_frame_progress self scene_id frame_id instance_ids grouped f
    (s : store Ext) (u : Ui) :
  instance_ids <> [] ->
  let total := length instance_ids in
  let reports := loop_reports total 0 instance_ids in
  let run := patch_frame self scene_id frame_id instance_ids grouped
               (Some f) (start s u) in
  let run0 := patch_frame self scene_id frame_id instance_ids grouped
               None (start s u) in
  length reports = total /\
  Forall (fun c => 0 <= c.1 /\ c.1 < 1)%Q reports /\
  (exists made o,
     made `prefix_of` (reports ++ [(1%Q, "Patching complete!")]) /\
     called_back f made u o (ui (snd run)) /\
     (returned (fst run) ->
        made = reports ++ [(1%Q, "Patching complete!")] /\ o = Ret tt) /\
     (forall e, o = Raise e -> fst run = Raise e)) /\
  (forall r, fst run = Ret r ->
     fst run0 = Ret r /\ store_of (snd run0) = store_of (snd run)) /\
  ((forall e, ~ callback_raises f e) ->
     fst run = fst run0 /\ store_of (snd run) = store_of (snd run0)).
Proof.
  intros Hne total reports run run0.
  assert (Htotal : total <> 0%nat).
  { subst total. destruct instance_ids; [congruence | discriminate]. }
  split_and!.
  - apply length_loop_reports.
  - apply loop_reports_fractions. subst total. simpl. lia.
  - subst run. rewrite patch_frame_unfold. simpl.
    destruct (load_frame_patcher (dataset self) scene_id frame_id s)
      as [[patcher|e] s1]; simpl.
    2: { exists [], (Ret tt). split_and!; try done; [apply prefix_nil | constructor]. }
    destruct (patch_loop _ _ _ _ _ _ _ _ _ _) as [r2 w2] eqn:Hloop.
    apply patch_loop_called_back in Hloop
      as (made & o & Hpre & Hcalls & Hret & Hraise); [| intros _; exact Htotal].
    simpl in Hcalls. fold total in Hpre, Hret. fold reports in Hpre, Hret.
    destruct r2 as [[]|e2]; simpl.
    + destruct (Hret eq_refl) as [-> ->].
      unfold call_back, bind, emit; simpl.
      destruct (f 1%Q "Patching complete!" (ui w2)) as [[[]|e3] u3] eqn:Hf;
        simpl.
      * exists (reports ++ [(1%Q, "Patching complete!")]), (Ret tt).
        split_and!; try done.
        eapply called_back_app; [exact Hcalls |].
        eapply called_next; [exact Hf | constructor].
      * exists (reports ++ [(1%Q, "Patching complete!")]), (Raise e3).
        split_and!; try done.
        -- eapply called_back_app; [exact Hcalls |].
           now apply called_raises.
        -- intros e [= <-]. reflexivity.
    + exists made, o. split_and!; try done.
      * now apply prefix_app_r.
      * intros e He. specialize (Hraise e He). simpl. congruence.
  - intros r Hr.
    destruct (patch_frame_erase self scene_id frame_id instance_ids grouped
                f s u) as [[Hfst Hst] | (e & _ & Hraise)].
    + fold run in Hfst, Hst. fold run0 in Hfst, Hst.
      rewrite <- Hfst, <- Hst. auto.
    + fold run in Hraise. congruence.
  - intros Hquiet.
    destruct (patch_frame_erase self scene_id frame_id instance_ids grouped
                f s u) as [H | (e & He & _)]; [exact H |].
    now destruct (Hquiet e).
Qed.

(** ** Exceptions of the collaborators *)

(** C7. When the load of the frame patcher, a merge or a [patch_instance]
    raises, the call ends there: [patch_frame] raises that same exception,
    the raising call is the last call it has made (nothing is caught, nothing
    is tried again), and the store is the one the raising call left behind,
    with every patch made before it still in place. *)
Theorem patch_frame_propagates self scene_id frame_id instance_ids grouped
    progress_callback (s : store Ext) (u : Ui) (e : exn) (wf : world) :
  collaborator_raises self scene_id frame_id instance_ids grouped
    progress_callback s u e wf ->
  patch_frame self scene_id frame_id instance_ids grouped progress_callback
    (start s u) = (Raise e, wf).
Proof.
  intros Hfail. rewrite patch_frame_unfold. simpl.
  destruct Hfail as
    [s1 Hload
    | patcher s1 before x after wk w1 s' Hids Hload Hpre Hrep Hkey Hmerge
    | patcher s1 before x after wk w1 m s2 s' Hids Hload Hpre Hrep Hkey
        Hmerge Hpatch];
    rewrite Hload; [reflexivity | |].
  - unfold loaded in Hpre. rewrite Hids at 2. rewrite patch_loop_app, Hpre.
    cbn [patch_loop]. unfold bind at 1. unfold patch_one. unfold bind at 1.
    simpl. rewrite Hrep.
    unfold accumulate_and_patch. destruct Hkey as [frames ->].
    unfold bind, emit, call; simpl. rewrite Hmerge. reflexivity.
  - unfold loaded in Hpre. rewrite Hids at 2. rewrite patch_loop_app, Hpre.
    cbn [patch_loop]. unfold bind at 1. unfold patch_one. unfold bind at 1.
    simpl. rewrite Hrep.
    unfold accumulate_and_patch. destruct Hkey as [frames ->].
    unfold bind, emit, call, np_copy, ret; simpl. rewrite Hmerge. simpl.
    rewrite Hpatch. simpl. repeat rewrite <- app_assoc. reflexivity.
Qed.

(** The step relation of [report] determines the function. *)
Lemma reported_complete progress_callback fraction text w r w1 :
  reported progress_callback fraction text w r w1 ->
  report progress_callback fraction text w = (r, w1).
Proof.
  intros [-> | f e -> -> | f q r0 u -> -> Hf]; try reflexivity.
  unfold report, call_back, bind, emit; simpl. now rewrite Hf.
Qed.

(** A loop that raises has processed a prefix of the instances and raises
    in the iteration of the next one. *)
Lemma patch_loop_raises self acc patcher scene_id grouped progress_callback
    total i (instance_ids : list string) w e wf :
  patch_loop self acc patcher scene_id grouped progress_callback
    total i instance_ids w = (Raise e, wf) ->
  exists before x after wk,
    instance_ids = before ++ x :: after /\
    patch_loop self acc patcher scene_id grouped progress_callback
      total i before w = (Ret tt, wk) /\
    patch_one self acc patcher scene_id grouped progress_callback
      total (i + length before) x wk = (Raise e, wf).
Proof.
  revert i w. induction instance_ids as [|x xs IH]; intros i w Hrun.
  - discriminate.
  - cbn [patch_loop] in Hrun. unfold bind in Hrun.
    destruct (patch_one self acc patcher scene_id grouped progress_callback
                total i x w) as [[[]|e1] w1] eqn:H1.
    + apply IH in Hrun as (before & y & after & wk & -> & Hpre & Hone).
      exists (x :: before), y, after, wk. split; [reflexivity |]. split.
      * cbn [patch_loop]. unfold bind. now rewrite H1.
      * simpl. now rewrite Nat.add_succ_r.
    + injection Hrun as <- <-.
      exists [], x, xs, w. split; [reflexivity |]. split; [reflexivity |].
      simpl. now rewrite Nat.add_0_r.
Qed.

(** The service raises nothing of its own: an exception of [patch_frame]
    was raised by a collaborator or by the progress callback. *)
Lemma patch_frame_raises_only_then self scene_id frame_id instance_ids
    grouped progress_callback (s : store Ext) (u : Ui) (e : exn) (wf : world) :
  patch_frame self scene_id frame_id instance_ids grouped progress_callback
    (start s u) = (Raise e, wf) ->
  collaborator_raises self scene_id frame_id instance_ids grouped
    progress_callback s u e wf \/
  exists f, progress_callback = Some f /\ callback_raises f e.
Proof.
  rewrite patch_frame_unfold. simpl.
  destruct (load_frame_patcher (dataset self) scene_id frame_id s)
    as [[patcher|e0] s1] eqn:Hload.
  2: { intros [= <- <-]. left. now apply load_raises. }
  change (World s1 u _) with (loaded self scene_id frame_id grouped s1 u).
  destruct (patch_loop _ _ _ _ _ _ _ _ _ _) as [[[]|e2] w2] eqn:Hloop.
  - pose proof (report_spec progress_callback (Ret 1%Q) "Patching complete!"
                  w2) as Hrep.
    destruct (report progress_callback (Ret 1%Q) "Patching complete!" w2)
      as [[[]|e3] w3]; [discriminate |].
    intros [= <- <-]. simpl in Hrep. right.
    inversion Hrep as [| f e' Hcb Hfr | f q r0 u0 Hcb Hfr Hf]; subst.
    + discriminate.
    + exists f. split; [reflexivity |].
      exists q, "Patching complete!", (ui w2). now rewrite Hf.
  - intros [= <- <-].
    apply patch_loop_raises in Hloop
      as (before & x & after & wk & Hids & Hpre & Hone).
    apply patch_one_spec in Hone.
    assert (Htotal : exists n, length instance_ids = S n).
    { rewrite Hids, length_app. simpl. exists (length before + length after)%nat.
      lia. }
    remember (Raise e2) as r eqn:Hr.
    destruct Hone as [e' w1 H | w1 H Hg | w1 frames e' s' H Hg Hm
                     | w1 frames m s2 r0 s' H Hg Hm Hp].
    + right. injection Hr as ->.
      inversion H as [| f e'' Hcb Hfr | f q r0 u0 Hcb Hfr Hf]; subst.
      * destruct Htotal as [n Hn]. rewrite Hn in Hfr. discriminate.
      * exists f. split; [reflexivity |].
        exists q, (progress_text x), (ui wk). now rewrite Hf.
    + discriminate.
    + left. injection Hr as ->. apply reported_complete in H.
      eapply merge_raises; eauto; now rewrite Hg.
    + left. subst r0. apply reported_complete in H.
      eapply patch_instance_raises; eauto; now rewrite Hg.
Qed.

(** ** Array identities *)

(** C8. With collaborators that keep the arrays they were given, every
    array [patch_frame] passes to [patch_instance] is a copy made for that
    call.  Once the frame patcher is loaded, the calls made are, for each
    key among an initial part of the instances, the merge, which returns an
    array [m], and then [patch_instance] on the array [l] that [np.copy]
    has just added at the end of the heap.  [l] is another array than [m];
    it did not exist when the run started nor when the merge returned; and
    it is neither an array an earlier merge of the run returned nor an
    array passed to an earlier [patch_instance].  At the call [l] holds
    what [m] held when the merge returned, and the copy has changed no
    array that existed. *)
Theorem patch_frame_passes_fresh_copies self scene_id frame_id instance_ids
    grouped progress_callback (s : store Ext) (u : Ui) patcher s1 :
  keeps_arrays ->
  load_frame_patcher (dataset self) scene_id frame_id s = (Ret patcher, s1) ->
  let run := patch_frame self scene_id frame_id instance_ids grouped
               progress_callback (start s u) in
  (exists attempted copies o,
     attempted `prefix_of` instance_ids /\
     (returned (fst run) -> attempted = instance_ids /\ o = Ret tt) /\
     processed (Accumulator config.ACCUMULATION_STEP grouped (dataset self))
       (strategy self) patcher scene_id (present grouped attempted)
       s1 copies o (store_of (snd run)) /\
     (forall j m l,
        copies !! j = Some (m, l) ->
        m <> l /\
        (length (heap s1) <= l)%nat /\
        (forall i m' l',
           (i < j)%nat -> copies !! i = Some (m', l') ->
           m' <> l /\ l' <> l)))
  /\
  (forall (s2 : store Ext) (m : loc),
     let l := length (heap s2) in
     let sc := Store (heap s2 ++ [heap s2 !!! m]) (ext s2) in
     heap s2 !! l = None /\
     heap sc !! l = Some (heap s2 !!! m) /\
     (forall x a, heap s2 !! x = Some a -> heap sc !! x = Some a) /\
     ext sc = ext s2).
Proof.
  intros Hkeep Hload run. split.
  - destruct (patch_frame_processed self scene_id frame_id instance_ids
                grouped progress_callback s u patcher s1 (fst run) (snd run)
                Hload)
      as (attempted & copies & o & Hpre & Hproc & Hret & _).
    { subst run. now destruct (patch_frame _ _ _ _ _ _ _). }
    exists attempted, copies, o. split_and!; try done.
    + intros Hr. destruct (fst run) as [res|e]; [| destruct Hr].
      destruct (Hret res eq_refl) as (-> & -> & _). done.
    + destruct (processed_arrays _ _ _ _ _ _ _ _ _ Hkeep Hproc)
        as (_ & Hall & Hinc).
      rewrite Forall_forall in Hall.
      intros j m l Hj.
      pose proof (Hall _ (list_elem_of_lookup_2 _ _ _ Hj)) as [Hml Hl].
      simpl in Hml, Hl. split_and!; [lia | exact Hl |].
      intros i m' l' Hij Hi.
      pose proof (Hall _ (list_elem_of_lookup_2 _ _ _ Hi)) as [Hml' _].
      pose proof (Hinc i j _ _ Hi Hj Hij) as Hlt.
      simpl in Hml', Hlt. lia.
  - intros s2 m l sc. subst l sc. simpl.
    split; [apply lookup_ge_None; lia |].
    split; [rewrite lookup_app_r by lia; now rewrite Nat.sub_diag |].
    split; [| reflexivity].
    intros x a Hx. rewrite lookup_app_l; [exact Hx |].
    eapply lookup_lt_Some; eauto.
Qed.

End PatchingServiceFacts.

(* ===================================================================== *)
(** * Facts about [np.unique] *)
(* ===================================================================== *)

Section UniqueFacts.

Context {A : Type} (ltb eqb : A -> A -> bool).

(** The order is a strict total order and [eqb] decides equality. *)
Hypothesis eqb_eq : forall x y, eqb x y = true <-> x = y.
Hypothesis ltb_irrefl : forall x, ltb x x = false.
Hypothesis ltb_trans :
  forall x y z, ltb x y = true -> ltb y z = true -> ltb x z = true.
Hypothesis ltb_total :
  forall x y, ltb x y = false -> eqb x y = false -> ltb y x = true.

Lemma elem_of_insert_unique (x z : A) (l : list A) :
  z ∈ np.insert_unique ltb eqb x l <-> z = x \/ z ∈ l.
Proof.
  induction l as [|y l IH]; simpl.
  - rewrite list_elem_of_singleton, elem_of_nil. tauto.
  - destruct (ltb x y); [now rewrite elem_of_cons |].
    destruct (eqb x y) eqn:E.
    + apply eqb_eq in E as <-. rewrite elem_of_cons. tauto.
    + rewrite !elem_of_cons, IH. tauto.
Qed.

Lemma elem_of_unique_by (z : A) (l : list A) :
  z ∈ np.unique_by ltb eqb l <-> z ∈ l.
Proof.
  induction l as [|y l IH]; simpl; [reflexivity |].
  rewrite elem_of_insert_unique, elem_of_cons, IH. reflexivity.
Qed.

Lemma insert_unique_sorted (x : A) (l : list A) :
  StronglySorted (fun a b => ltb a b = true) l ->
  StronglySorted (fun a b => ltb a b = true) (np.insert_unique ltb eqb x l).
Proof.
  induction 1 as [|y l Hs IH Hall]; simpl.
  - repeat constructor.
  - destruct (ltb x y) eqn:Hxy.
    + constructor; [now constructor |].
      constructor; [exact Hxy |].
      eapply Forall_impl; [exact Hall |]. intros b Hb. simpl in Hb. eauto.
    + destruct (eqb x y) eqn:E; [now constructor |].
      constructor; [exact IH |].
      apply Forall_forall. intros b Hb.
      apply elem_of_insert_unique in Hb as [-> | Hb].
      * now apply ltb_total.
      * rewrite Forall_forall in Hall. auto.
Qed.

Lemma unique_by_sorted (l : list A) :
  StronglySorted (fun a b => ltb a b = true) (np.unique_by ltb eqb l).
Proof.
  induction l as [|y l IH]; simpl; [constructor |].
  now apply insert_unique_sorted.
Qed.

Lemma sorted_NoDup (l : list A) :
  StronglySorted (fun a b => ltb a b = true) l -> NoDup l.
Proof.
  induction 1 as [|y l Hs IH Hall]; constructor; [| exact IH].
  intros Hin. rewrite Forall_forall in Hall.
  specialize (Hall _ Hin). now rewrite ltb_irrefl in Hall.
Qed.

Lemma unique_by_NoDup (l : list A) : NoDup (np.unique_by ltb eqb l).
Proof. apply sorted_NoDup, unique_by_sorted. Qed.

(** The first occurrence of a value that occurs. *)
Lemma first_index_spec (x : A) (l : list A) :
  x ∈ l ->
  l !! np.first_index eqb x l = Some x /\
  forall j, (j < np.first_index eqb x l)%nat -> l !! j <> Some x.
Proof.
  induction l as [|y l IH]; intros Hin; [now apply elem_of_nil in Hin |].
  simpl. destruct (eqb x y) eqn:E.
  - apply eqb_eq in E as <-. split; [reflexivity | intros j Hj; lia].
  - apply elem_of_cons in Hin as [-> | Hin].
    { assert (eqb y y = true) by now apply eqb_eq. congruence. }
    destruct (IH Hin) as [Hat Hmin]. split; [exact Hat |].
    intros [|j] Hj; simpl.
    + intros [= ->]. assert (eqb x x = true) by now apply eqb_eq. congruence.
    + apply Hmin. lia.
Qed.

(** [count_by] counts the occurrences. *)
Lemma count_by_filter (x : A) (l : list A) `{EqDecision A} :
  np.count_by eqb x l = length (filter (fun y => y = x) l).
Proof.
  induction l as [|y l IH]; simpl; [reflexivity |].
  destruct (eqb x y) eqn:E.
  - apply eqb_eq in E as <-. rewrite filter_cons_True by done. simpl. now rewrite IH.
  - rewrite filter_cons_False; [exact IH |].
    intros ->. assert (eqb x x = true) by now apply eqb_eq. congruence.
Qed.

End UniqueFacts.

Lemma unique_sorted (l : list Z) : StronglySorted Z.lt (np.unique l).
Proof.
  assert (Hs : StronglySorted (fun a b => (a <? b)%Z = true) (np.unique l)).
  { apply unique_by_sorted.
    - intros x y. apply Z.eqb_eq.
    - intros x y z Hxy Hyz. apply Z.ltb_lt in Hxy, Hyz. apply Z.ltb_lt. lia.
    - intros x y Hxy Hne. apply Z.ltb_ge in Hxy. apply Z.eqb_neq in Hne.
      apply Z.ltb_lt. lia. }
  induction Hs as [|y r Hs IH Hall]; constructor; [exact IH |].
  eapply Forall_impl; [exact Hall |]. intros b Hb. now apply Z.ltb_lt.
Qed.

Lemma StronglySorted_filter {A : Type} (R : A -> A -> Prop) (P : A -> Prop)
    `{forall x, Decision (P x)} (l : list A) :
  StronglySorted R l -> StronglySorted R (filter P l).
Proof.
  induction 1 as [|y r Hs IH Hall]; [constructor |].
  destruct (decide (P y)).
  - rewrite filter_cons_True by done. constructor; [exact IH |].
    apply Forall_forall. intros b Hb. apply list_elem_of_filter in Hb as [_ Hb].
    rewrite Forall_forall in Hall. auto.
  - now rewrite filter_cons_False.
Qed.

Lemma elem_of_unique (k : Z) (l : list Z) : k ∈ np.unique l <-> k ∈ l.
Proof. apply elem_of_unique_by. intros x y. apply Z.eqb_eq. Qed.

Lemma unique_NoDup (l : list Z) : NoDup (np.unique l).
Proof.
  apply (sorted_NoDup Z.ltb).
  - intros x. apply Z.ltb_irrefl.
  - apply unique_by_sorted.
    + intros x y. apply Z.eqb_eq.
    + intros x y z Hxy Hyz. apply Z.ltb_lt in Hxy, Hyz. apply Z.ltb_lt. lia.
    + intros x y Hxy Hne. apply Z.ltb_ge in Hxy. apply Z.eqb_neq in Hne.
      apply Z.ltb_lt. lia.
Qed.

(* ===================================================================== *)
(** * Further facts about [color_utils] *)
(* ===================================================================== *)

Section InstanceColorFacts.

Import color_utils.

Lemma INSTANCE_COLORS_NoDup : NoDup INSTANCE_COLORS.
Proof. apply (bool_decide_unpack _). vm_compute. reflexivity. Qed.

Lemma palette_index_lt (instance_id : Z) :
  (Z.to_nat (instance_id mod Z.of_nat (length INSTANCE_COLORS))
   < length INSTANCE_COLORS)%nat.
Proof.
  change (Z.of_nat (length INSTANCE_COLORS)) with 20%Z.
  change (length INSTANCE_COLORS) with 20%nat.
  pose proof (Z.mod_pos_bound instance_id 20). lia.
Qed.

Lemma palette_bytes (c : Z * Z * Z) :
  c ∈ BACKGROUND_COLOR :: INSTANCE_COLORS -> byte_color c /\
  (c ∈ INSTANCE_COLORS -> c <> BACKGROUND_COLOR).
Proof.
  intros Hc.
  assert (Hall : Forall (fun c => byte_color c) (BACKGROUND_COLOR :: INSTANCE_COLORS)).
  { unfold BACKGROUND_COLOR, INSTANCE_COLORS.
    repeat (apply Forall_cons_2; [simpl; lia |]). apply Forall_nil_2. }
  rewrite Forall_forall in Hall. split; [now apply Hall |].
  intros Hin ->. revert Hin. unfold BACKGROUND_COLOR, INSTANCE_COLORS.
  rewrite !elem_of_cons, elem_of_nil. intuition congruence.
Qed.

Lemma background_not_in_palette : BACKGROUND_COLOR ∉ INSTANCE_COLORS.
Proof.
  intros Hin. now apply (proj2 (palette_bytes BACKGROUND_COLOR ltac:(left))) in Hin.
Qed.

Lemma instance_id_to_color_byte (instance_id : Z) :
  exists color,
    instance_id_to_color instance_id = Ret color /\ byte_color color.
Proof.
  unfold instance_id_to_color.
  destruct (instance_id <? 0)%Z.
  - exists BACKGROUND_COLOR. split; [reflexivity |]. apply palette_bytes. left.
  - destruct (lookup_lt_is_Some_2 _ _ (palette_index_lt instance_id)) as [c Hc].
    rewrite Hc. exists c. split; [reflexivity |].
    apply palette_bytes. right. eapply list_elem_of_lookup_2; eauto.
Qed.

(** [instance_id_to_color] never raises: the index it computes is one of
    the palette.  The colour is a triple of bytes, and it is the background
    gray exactly for the negative ids: no palette entry is that gray. *)
Theorem instance_id_to_color_spec (instance_id : Z) :
  exists color,
    instance_id_to_color instance_id = Ret color /\
    byte_color color /\
    (color = BACKGROUND_COLOR <-> (instance_id < 0)%Z) /\
    (color ∈ INSTANCE_COLORS <-> (0 <= instance_id)%Z).
Proof.
  destruct (instance_id_to_color_byte instance_id) as (color & Hc & Hbyte).
  exists color. split; [exact Hc |]. split; [exact Hbyte |].
  unfold instance_id_to_color in Hc.
  destruct (instance_id <? 0)%Z eqn:E.
  - apply Z.ltb_lt in E. injection Hc as <-. split; [tauto |].
    split; [| lia]. intros Hin. now apply background_not_in_palette in Hin.
  - apply Z.ltb_ge in E.
    destruct (INSTANCE_COLORS !! _) as [c|] eqn:Hl; [| discriminate].
    injection Hc as ->.
    assert (Hin : color ∈ INSTANCE_COLORS) by (eapply list_elem_of_lookup_2; eauto).
    split; [| tauto]. split; [| lia].
    intros ->. now apply background_not_in_palette in Hin.
Qed.

(** Two non-negative ids get the same colour exactly when they agree
    modulo 20: the palette repeats with period 20 and has no colour twice. *)
Theorem instance_id_to_color_period (a b : Z) :
  (0 <= a)%Z -> (0 <= b)%Z ->
  instance_id_to_color a = instance_id_to_color b <-> (a mod 20 = b mod 20)%Z.
Proof.
  intros Ha Hb. unfold instance_id_to_color.
  rewrite (proj2 (Z.ltb_ge a 0) Ha), (proj2 (Z.ltb_ge b 0) Hb).
  destruct (lookup_lt_is_Some_2 _ _ (palette_index_lt a)) as [ca Hca].
  destruct (lookup_lt_is_Some_2 _ _ (palette_index_lt b)) as [cb Hcb].
  rewrite Hca, Hcb.
  change (Z.of_nat (length INSTANCE_COLORS)) with 20%Z in *.
  pose proof (Z.mod_pos_bound a 20) as Ba. pose proof (Z.mod_pos_bound b 20) as Bb.
  split.
  - intros [= ->].
    pose proof (NoDup_lookup _ _ _ _ INSTANCE_COLORS_NoDup Hca Hcb). lia.
  - intros Heq. rewrite Heq in Hca. congruence.
Qed.

Lemma instance_id_to_color_period_demo :
  (0 <= 3)%Z /\ (0 <= 43)%Z /\
  (instance_id_to_color 3 = instance_id_to_color 43 <-> (3 mod 20 = 43 mod 20)%Z).
Proof.
  split; [lia |]. split; [lia |].
  apply (instance_id_to_color_period 3 43); lia.
Defined.

Lemma normalised_inj (c1 c2 : Z * Z * Z) :
  normalised c1 = normalised c2 -> c1 = c2.
Proof.
  destruct c1 as [[r1 g1] b1], c2 as [[r2 g2] b2]. simpl.
  intros [= -> -> ->]. reflexivity.
Qed.

Lemma normalised_unit (c : Z * Z * Z) :
  byte_color c ->
  length (normalised c) = 3%nat /\
  Forall (fun v => 0 <= v /\ v <= 1)%Q (normalised c).
Proof.
  destruct c as [[r g] b]. simpl. intros (Hr & Hg & Hb).
  split; [reflexivity |].
  repeat (apply Forall_cons_2; [unfold Qle; simpl; lia |]). apply Forall_nil_2.
Qed.

Lemma color_rows_spec (segments : list Z) :
  exists rows,
    color_rows segments = Ret rows /\
    length rows = length segments /\
    forall i seg_id, segments !! i = Some seg_id ->
      exists color,
        instance_id_to_color seg_id = Ret color /\
        rows !! i = Some (normalised color).
Proof.
  induction segments as [|s rest IH]; simpl.
  - exists []. split_and!; [reflexivity | reflexivity |].
    intros i seg_id Hi. now rewrite lookup_nil in Hi.
  - destruct (instance_id_to_color_byte s) as (c & Hc & _).
    destruct IH as (rows & Hrows & Hlen & Hat).
    rewrite Hc. simpl. rewrite Hrows. simpl.
    exists (normalised c :: rows). split_and!; [reflexivity | simpl; lia |].
    intros [|i] seg_id Hi; simpl in *.
    + injection Hi as <-. eauto.
    + eauto.
Qed.

(** [colorize_by_instance] returns, for any labels, an array of shape
    (N, 3) whose entries lie in [0, 1]; two points have the same row exactly
    when [instance_id_to_color] gives their labels the same colour. *)
Theorem colorize_by_instance_spec (segments : list Z) :
  exists colors,
    colorize_by_instance segments = Ret colors /\
    np.shape0 colors = length segments /\ np.shape1 colors = 3%nat /\
    np.wf colors /\
    Forall (Forall (fun v => 0 <= v /\ v <= 1)%Q) (np.rows colors) /\
    forall i j a b,
      segments !! i = Some a -> segments !! j = Some b ->
      (np.rows colors !! i = np.rows colors !! j
       <-> instance_id_to_color a = instance_id_to_color b).
Proof.
  destruct (color_rows_spec segments) as (rows & Hrows & Hlen & Hat).
  unfold colorize_by_instance. rewrite Hrows. simpl.
  exists (np.Array 3 rows).
  assert (Hrow : forall r, r ∈ rows ->
            length r = 3%nat /\ Forall (fun v => 0 <= v /\ v <= 1)%Q r).
  { intros r Hr. apply list_elem_of_lookup_1 in Hr as [i Hi].
    assert (His : is_Some (segments !! i)).
    { apply lookup_lt_is_Some. rewrite <- Hlen. eapply lookup_lt_Some; eauto. }
    destruct His as [s Hs].
    destruct (Hat i s Hs) as (c & Hc & Hri).
    destruct (instance_id_to_color_byte s) as (c' & Hc' & Hbyte).
    assert (c' = c) by congruence. subst c'.
    rewrite Hri in Hi. injection Hi as <-. now apply normalised_unit. }
  split_and!; [reflexivity | exact Hlen | reflexivity | | |].
  - apply Forall_forall. intros r Hr. now apply Hrow.
  - apply Forall_forall. intros r Hr. now apply Hrow.
  - intros i j a b Hi Hj. simpl.
    destruct (Hat i a Hi) as (ca & Hca & ->).
    destruct (Hat j b Hj) as (cb & Hcb & ->).
    rewrite Hca, Hcb. split.
    + intros [= Heq]. apply normalised_inj in Heq. congruence.
    + intros [= ->]. reflexivity.
Qed.

(** [get_unique_instances] lists, in increasing order and each once, the
    labels that occur in [segments] and are not excluded; without a set of
    excluded classes nothing is excluded. *)
Theorem get_unique_instances_spec (segments : list Z)
    (excluded_classes : option (gset Z)) :
  StronglySorted Z.lt (get_unique_instances segments excluded_classes) /\
  forall k,
    k ∈ get_unique_instances segments excluded_classes
    <-> k ∈ segments /\ k ∉ default ∅ excluded_classes.
Proof.
  unfold get_unique_instances. split.
  - apply StronglySorted_filter, unique_sorted.
  - intros k. rewrite list_elem_of_filter, elem_of_unique. tauto.
Qed.

End InstanceColorFacts.

Section HeightColorFacts.

Import color_utils.

Context {fmt : np.Format} (nearest : np.rounds_to_nearest fmt).

(** The quotient by a positive finite range keeps the order. *)
Lemma div_le (x y : Q) (r : Q) :
  (0 < r)%Q -> (x <= y)%Q ->
  np.float_le (np.div (np.rounded x) (np.Finite r))
              (np.div (np.rounded y) (np.Finite r)).
Proof.
  intros Hr Hxy.
  pose proof (np.rounded_le fmt nearest x y Hxy) as Hle.
  assert (Hb : Qle_bool 0 r = true) by (apply Qle_bool_iff; lra).
  assert (Hz : Qeq_bool r 0 = false).
  { destruct (Qeq_bool r 0) eqn:E; [| reflexivity].
    apply Qeq_bool_iff in E. lra. }
  assert (Hrefl : forall q, np.float_le (np.rounded q) (np.rounded q)).
  { intros q. apply (np.rounded_le fmt nearest). lra. }
  destruct (np.rounded x) as [p|[]|] eqn:Ex;
    destruct (np.rounded y) as [q|[]|] eqn:Ey;
    simpl in Hle; try contradiction; unfold np.div; rewrite ?Hz, ?Hb;
    cbn [xorb negb np.float_le]; try exact I.
  - apply (np.rounded_le fmt nearest).
    unfold Qdiv. apply Qmult_le_compat_r; [exact Hle |].
    apply Qlt_le_weak, Qinv_lt_0_compat, Hr.
  - specialize (Hrefl (p / r)%Q).
    destruct (np.rounded (p / r)) as [c|[]|]; simpl in Hrefl;
      try contradiction; exact I.
  - specialize (Hrefl (q / r)%Q).
    destruct (np.rounded (q / r)) as [c|[]|]; simpl in Hrefl;
      try contradiction; exact I.
Qed.

(** With the default bounds and a range of the heights that is finite and
    not zero, every lowest point of the cloud gets exactly 0, every highest
    point exactly 1, there are such points, and the value grows with the
    height. *)
Theorem colorize_by_height_spans_unit (l : layout) (points : np.ndarray)
    (z : list Q) (lo hi r : Q) :
  read_as points = l -> heights l points = Ret z ->
  np.amin z = Ret lo -> np.amax z = Ret hi ->
  np.sub hi lo = np.Finite r -> ~ (r == 0)%Q ->
  exists out,
    colorize_by_height points None None = Ret out /\
    length out = length z /\
    (forall i v c,
       z !! i = Some v -> out !! i = Some c ->
       ((v == lo)%Q -> np.has_value c 0) /\
       ((v == hi)%Q -> np.has_value c 1)) /\
    (forall i j zi zj ci cj,
       z !! i = Some zi -> z !! j = Some zj ->
       out !! i = Some ci -> out !! j = Some cj ->
       (zi <= zj)%Q -> np.float_le ci cj) /\
    (exists i v, z !! i = Some v /\ (v == lo)%Q) /\
    (exists i v, z !! i = Some v /\ (v == hi)%Q).
Proof.
  intros Hread Hz Hlo Hhi Hr Hnz.
  assert (Hne : z <> []) by (intros ->; discriminate Hlo).
  destruct (amin_amax_spec z Hne)
    as (lo' & hi' & Hlo' & Hhi' & Hbounds & (vlo & Hvlo & Elo)
        & (vhi & Hvhi & Ehi)).
  rewrite Hlo in Hlo'. injection Hlo' as <-.
  rewrite Hhi in Hhi'. injection Hhi' as <-.
  rewrite Forall_forall in Hbounds.
  assert (Hrpos : (0 < r)%Q).
  { destruct (Hbounds vlo Hvlo).
    destruct (range_cases nearest lo hi ltac:(lra)) as [(r' & Hr' & Hr0) | Hinf];
      [| congruence].
    rewrite Hr in Hr'. injection Hr' as <-. lra. }
  assert (Hz0 : Qeq_bool r 0 = false).
  { destruct (Qeq_bool r 0) eqn:E; [| reflexivity].
    apply Qeq_bool_iff in E. contradiction. }
  unfold colorize_by_height. rewrite height_channel_read_as, Hread, Hz.
  cbn [obind]. rewrite Hlo. cbn [obind]. rewrite Hhi. cbn [obind].
  rewrite Hr. cbn [np.is_zero]. rewrite Hz0.
  eexists. split; [reflexivity |]. split; [now rewrite length_map |].
  split_and!.
  - intros i v c Hi Hc. rewrite list_lookup_fmap, Hi in Hc. simpl in Hc.
    injection Hc as <-. unfold np.sub in *. split; intros Hv.
    + assert (E : (v - lo == 0)%Q) by (rewrite Hv; ring).
      pose proof (rounded_has_value nearest _ 0 0 E (np.rounded_0 fmt nearest))
        as H0.
      destruct (np.rounded (v - lo)) as [p| |]; try contradiction.
      simpl in H0. unfold np.div. rewrite Hz0.
      apply (rounded_has_value nearest (p / r) 0 0);
        [| exact (np.rounded_0 fmt nearest)].
      rewrite H0. unfold Qdiv. ring.
    + assert (E : (v - lo == hi - lo)%Q) by (rewrite Hv; ring).
      assert (H1 : np.has_value (np.rounded (hi - lo)) r)
        by (rewrite Hr; simpl; reflexivity).
      pose proof (rounded_has_value nearest _ _ r E H1) as Hp.
      destruct (np.rounded (v - lo)) as [p| |]; try contradiction.
      simpl in Hp. unfold np.div. rewrite Hz0.
      apply (rounded_has_value nearest (p / r) 1 1);
        [| exact (np.rounded_1 fmt nearest)].
      rewrite Hp. field. exact Hnz.
  - intros i j zi zj ci cj Hi Hj Hci Hcj Hle.
    rewrite list_lookup_fmap, Hi in Hci. rewrite list_lookup_fmap, Hj in Hcj.
    simpl in Hci, Hcj. injection Hci as <-. injection Hcj as <-.
    unfold np.sub. apply div_le; [exact Hrpos | lra].
  - apply list_elem_of_lookup in Hvlo as [i Hi]. eauto.
  - apply list_elem_of_lookup in Hvhi as [i Hi]. eauto.
Qed.

(** With both bounds given, [lo < hi], the function needs no minimum or
    maximum and returns on every height channel, the empty one included.
    When the range [hi - lo] is finite and not zero it does not clip: a
    point between the bounds gets a value in [0, 1], a point at or below
    [lo] a value that is 0 at most, a point at or above [hi] a value that is
    1 at least, and the value grows with the height. *)
Theorem colorize_by_height_explicit_bounds (l : layout) (points : np.ndarray)
    (z : list Q) (lo hi : Q) :
  read_as points = l -> heights l points = Ret z -> (lo < hi)%Q ->
  exists out,
    colorize_by_height points (Some lo) (Some hi) = Ret out /\
    length out = length z /\
    forall r, np.sub hi lo = np.Finite r -> ~ (r == 0)%Q ->
      (forall i v c,
         z !! i = Some v -> out !! i = Some c ->
         ((lo <= v)%Q -> (v <= hi)%Q -> np.between 0 1 c) /\
         ((v <= lo)%Q -> np.float_le c (np.Finite 0)) /\
         ((hi <= v)%Q -> np.float_le (np.Finite 1) c)) /\
      (forall i j zi zj ci cj,
         z !! i = Some zi -> z !! j = Some zj ->
         out !! i = Some ci -> out !! j = Some cj ->
         (zi <= zj)%Q -> np.float_le ci cj).
Proof.
  intros Hread Hz Hlt.
  unfold colorize_by_height. rewrite height_channel_read_as, Hread, Hz.
  cbn [obind].
  destruct (np.is_zero (np.sub hi lo)) eqn:E.
  - exists (np.zeros_like z). split; [reflexivity |].
    split; [unfold np.zeros_like; now rewrite length_map |].
    intros r Hr Hnz. rewrite Hr in E. simpl in E.
    apply Qeq_bool_iff in E. contradiction.
  - eexists. split; [reflexivity |]. split; [now rewrite length_map |].
    intros r Hr Hnz. rewrite Hr.
    assert (Hrpos : (0 < r)%Q).
    { destruct (range_cases nearest lo hi ltac:(lra))
        as [(r' & Hr' & Hr0) | Hinf]; [| congruence].
      rewrite Hr in Hr'. injection Hr' as <-. lra. }
    split.
    + intros i v c Hi Hc. rewrite list_lookup_fmap, Hi in Hc. simpl in Hc.
      injection Hc as <-. split_and!.
      * intros H1 H2. now apply (normalised_in_unit nearest) with (hi := hi).
      * intros Hv.
        pose proof (div_le (v - lo) 0 r Hrpos ltac:(lra)) as Hle.
        pose proof (np.rounded_0 fmt nearest) as H0.
        destruct (np.rounded 0) as [p0| |] eqn:E0; try contradiction.
        simpl in H0.
        assert (Hq : np.has_value (np.div (np.Finite p0) (np.Finite r)) 0).
        { unfold np.div.
          destruct (Qeq_bool r 0) eqn:Er;
            [apply Qeq_bool_iff in Er; contradiction |].
          apply (rounded_has_value nearest (p0 / r) 0 0);
            [| rewrite E0; exact H0].
          rewrite H0. unfold Qdiv. ring. }
        unfold np.sub.
        destruct (np.div (np.Finite p0) (np.Finite r)) as [q| |];
          try contradiction. simpl in Hq.
        destruct (np.div (np.rounded (v - lo)) (np.Finite r)) as [c|[]|];
          simpl in Hle |- *; try contradiction; try exact I. lra.
      * intros Hv.
        pose proof (div_le (hi - lo) (v - lo) r Hrpos ltac:(lra)) as Hle.
        unfold np.sub in Hr. rewrite Hr in Hle.
        assert (Hq : np.has_value (np.div (np.Finite r) (np.Finite r)) 1).
        { unfold np.div.
          destruct (Qeq_bool r 0) eqn:Er;
            [apply Qeq_bool_iff in Er; contradiction |].
          apply (rounded_has_value nearest (r / r) 1 1);
            [| exact (np.rounded_1 fmt nearest)].
          field. exact Hnz. }
        unfold np.sub.
        destruct (np.div (np.Finite r) (np.Finite r)) as [q| |];
          try contradiction. simpl in Hq.
        destruct (np.div (np.rounded (v - lo)) (np.Finite r)) as [c|[]|];
          simpl in Hle |- *; try contradiction; try exact I. lra.
    + intros i j zi zj ci cj Hi Hj Hci Hcj Hle.
      rewrite list_lookup_fmap, Hi in Hci. rewrite list_lookup_fmap, Hj in Hcj.
      simpl in Hci, Hcj. injection Hci as <-. injection Hcj as <-.
      unfold np.sub. apply div_le; [exact Hrpos | lra].
Qed.

End HeightColorFacts.

(* ===================================================================== *)
(** * Facts about [visualization_service] *)
(* ===================================================================== *)

Section StatsFacts.

Import visualization_service.

Lemma axis_range_spec (i : nat) (points : np.ndarray) (r : list Q) :
  np.row i points = Ret r -> r <> [] ->
  exists range, axis_range i points = Ret range /\ within range r.
Proof.
  intros Hr Hne. unfold axis_range. rewrite Hr. simpl.
  destruct (amin_spec r Hne) as (lo & -> & Hlo).
  destruct (amax_spec r Hne) as (hi & -> & Hhi). simpl.
  exists (lo, hi). split; [reflexivity |].
  unfold within. rewrite Forall_forall in *. simpl. auto.
Qed.

Lemma row_wf (i : nat) (points : np.ndarray) :
  np.wf points -> (i < np.shape0 points)%nat ->
  exists r, np.row i points = Ret r /\ length r = np.shape1 points.
Proof.
  intros Hwf Hi. unfold np.row.
  destruct (lookup_lt_is_Some_2 _ _ Hi) as [r Hr]. rewrite Hr.
  exists r. split; [reflexivity |].
  unfold np.wf in Hwf. rewrite Forall_forall in Hwf.
  apply Hwf. eapply list_elem_of_lookup_2; eauto.
Qed.

(** On a cloud of at least three rows and one point
    [get_point_cloud_stats] returns: the point count is the number of
    columns, every coordinate lies in the range reported for its axis, and
    the two instance entries are present exactly when labels were given. *)
Theorem get_point_cloud_stats_ranges (points : np.ndarray)
    (segments : option (list Z)) :
  np.wf points -> (3 <= np.shape0 points)%nat -> (1 <= np.shape1 points)%nat ->
  exists st x y z,
    get_point_cloud_stats points segments = Ret st /\
    num_points st = np.shape1 points /\
    np.row 0 points = Ret x /\ within (x_range st) x /\
    np.row 1 points = Ret y /\ within (y_range st) y /\
    np.row 2 points = Ret z /\ within (z_range st) z /\
    (is_Some (num_instances st) <-> is_Some segments) /\
    (is_Some (instance_ids st) <-> is_Some segments).
Proof.
  intros Hwf Hd Hn.
  destruct (row_wf 0 points Hwf ltac:(lia)) as (x & Hx & Lx).
  destruct (row_wf 1 points Hwf ltac:(lia)) as (y & Hy & Ly).
  destruct (row_wf 2 points Hwf ltac:(lia)) as (z & Hz & Lz).
  assert (Nx : x <> []) by (intros ->; simpl in Lx; lia).
  assert (Ny : y <> []) by (intros ->; simpl in Ly; lia).
  assert (Nz : z <> []) by (intros ->; simpl in Lz; lia).
  destruct (axis_range_spec 0 points x Hx Nx) as (rx & Hrx & Wx).
  destruct (axis_range_spec 1 points y Hy Ny) as (ry & Hry & Wy).
  destruct (axis_range_spec 2 points z Hz Nz) as (rz & Hrz & Wz).
  unfold get_point_cloud_stats. rewrite Hrx, Hry, Hrz. simpl.
  destruct segments as [segs|]; eexists; exists x, y, z;
    (split; [reflexivity |]); simpl; split_and!; try done;
    split; intros [? ?]; try discriminate; eauto.
Qed.

(** The function raises on the other well-formed arrays: [IndexError]
    when one of the rows 0, 1, 2 is missing, [ValueError] when the rows are
    there but hold no point. *)
Theorem get_point_cloud_stats_raises (points : np.ndarray)
    (segments : option (list Z)) :
  np.wf points ->
  ((np.shape0 points < 3)%nat -> (1 <= np.shape1 points)%nat ->
     get_point_cloud_stats points segments = Raise IndexError) /\
  (np.shape0 points = 0%nat ->
     get_point_cloud_stats points segments = Raise IndexError) /\
  ((1 <= np.shape0 points)%nat -> np.shape1 points = 0%nat ->
     get_point_cloud_stats points segments = Raise ValueError).
Proof.
  intros Hwf.
  assert (Hmiss : forall i, (np.shape0 points <= i)%nat ->
            axis_range i points = Raise IndexError).
  { intros i Hi. unfold axis_range, np.row.
    now rewrite (lookup_ge_None_2 _ _ Hi). }
  assert (Hrow : forall i, (i < np.shape0 points)%nat ->
            (1 <= np.shape1 points)%nat ->
            exists range, axis_range i points = Ret range).
  { intros i Hi Hn. destruct (row_wf i points Hwf Hi) as (r & Hr & Lr).
    destruct (axis_range_spec i points r Hr) as (rg & Hrg & _); eauto.
    intros ->. simpl in Lr. lia. }
  split_and!.
  - intros Hd Hn. unfold get_point_cloud_stats.
    destruct (decide (np.shape0 points = 0%nat)) as [H0|H0].
    { now rewrite (Hmiss 0%nat) by lia. }
    destruct (Hrow 0%nat ltac:(lia) Hn) as [rx ->]. simpl.
    destruct (decide (np.shape0 points = 1%nat)) as [H1|H1].
    { now rewrite (Hmiss 1%nat) by lia. }
    destruct (Hrow 1%nat ltac:(lia) Hn) as [ry ->]. simpl.
    now rewrite (Hmiss 2%nat) by lia.
  - intros H0. unfold get_point_cloud_stats. now rewrite (Hmiss 0%nat) by lia.
  - intros Hd Hn. unfold get_point_cloud_stats.
    destruct (row_wf 0 points Hwf ltac:(lia)) as (r & Hr & Lr).
    unfold axis_range. rewrite Hr. simpl.
    destruct r; [reflexivity | simpl in Lr; lia].
Qed.

Lemma length_filter_split {A : Type} (P : A -> Prop) `{forall x, Decision (P x)}
    (l : list A) :
  (length (filter P l) + length (filter (fun x => ~ P x) l) = length l)%nat.
Proof.
  induction l as [|x l IH]; [reflexivity |].
  destruct (decide (P x)).
  - rewrite filter_cons_True, (filter_cons_False (fun x => ~ P x)) by tauto.
    simpl. lia.
  - rewrite filter_cons_False, (filter_cons_True (fun x => ~ P x)) by tauto.
    simpl. lia.
Qed.

(** [np.unique] has as many entries as there are distinct labels. *)
Lemma length_unique (segments : list Z) :
  length (np.unique segments) = size (list_to_set (C := gset Z) segments).
Proof.
  rewrite <- (size_list_to_set (C := gset Z) (np.unique segments))
    by apply unique_NoDup.
  f_equal. apply set_eq. intros k.
  rewrite !elem_of_list_to_set. apply elem_of_unique.
Qed.

(** With labels given, [instance_ids] lists the non-negative labels of the
    cloud once each in increasing order, while [num_instances] is the number
    of distinct labels, the negative ones included: it equals the length of
    [instance_ids] exactly when no label is negative. *)
Theorem get_point_cloud_stats_instances (points : np.ndarray)
    (segments : list Z) (st : stats) :
  get_point_cloud_stats points (Some segments) = Ret st ->
  exists n ids,
    num_instances st = Some n /\ instance_ids st = Some ids /\
    n = size (list_to_set (C := gset Z) segments) /\
    StronglySorted Z.lt ids /\
    (forall k, k ∈ ids <-> k ∈ segments /\ (0 <= k)%Z) /\
    (length ids <= n)%nat /\
    (length ids = n <-> Forall (fun k => 0 <= k)%Z segments).
Proof.
  unfold get_point_cloud_stats.
  destruct (axis_range 0 points) as [rx|]; [simpl | discriminate].
  destruct (axis_range 1 points) as [ry|]; [simpl | discriminate].
  destruct (axis_range 2 points) as [rz|]; [simpl | discriminate].
  intros [= <-]. simpl. do 2 eexists. split; [reflexivity |].
  split; [reflexivity |].
  pose proof (length_filter_split (fun i => 0 <= i)%Z (np.unique segments))
    as Hsplit.
  cbv beta in Hsplit.
  assert (Hneg : forall k,
            k ∈ filter (fun x => ~ (0 <= x)%Z) (np.unique segments)
            <-> k ∈ segments /\ ~ (0 <= k)%Z).
  { intros k. rewrite list_elem_of_filter, elem_of_unique. tauto. }
  revert Hsplit Hneg.
  generalize (filter (fun x => ~ (0 <= x)%Z) (np.unique segments)).
  intros negative Hsplit Hneg.
  split; [apply length_unique |].
  split_and!.
  - apply StronglySorted_filter, unique_sorted.
  - intros k. rewrite list_elem_of_filter, elem_of_unique. tauto.
  - revert Hsplit. generalize (np.unique segments). intros; lia.
  - split.
    + intros Heq. apply Forall_forall. intros k Hk.
      destruct (decide (0 <= k)%Z) as [|Hk0]; [done |].
      assert (Hin : k ∈ negative) by now apply Hneg.
      destruct negative; [now apply elem_of_nil in Hin |].
      revert Hsplit Heq. generalize (np.unique segments). simpl. intros; lia.
    + intros Hall. rewrite Forall_forall in Hall.
      destruct negative as [|k r].
      * revert Hsplit. generalize (np.unique segments). simpl. intros; lia.
      * destruct (proj1 (Hneg k) ltac:(left)) as [Hk Hk0].
        exfalso. apply Hk0. now apply Hall.
Qed.

End StatsFacts.

(* ===================================================================== *)
(** * Facts about [downsampling] *)
(* ===================================================================== *)

Section DownsamplingFacts.

Import downsampling.

Lemma forallb_lt (n : nat) (indices : list nat) :
  forallb (fun i => i <? n)%nat indices = true <-> Forall (fun i => i < n)%nat indices.
Proof.
  rewrite forallb_forall, Forall_forall. split; intros H i Hi.
  - apply Nat.ltb_lt, H. now apply list_elem_of_In.
  - apply Nat.ltb_lt, H. now apply list_elem_of_In.
Qed.

Lemma take_columns_spec (indices : list nat) (a : np.ndarray) :
  Forall (fun i => i < np.shape1 a)%nat indices ->
  exists out,
    np.take_columns indices a = Ret out /\
    np.shape1 out = length indices /\ np.shape0 out = np.shape0 a /\
    np.wf out /\
    forall j i, indices !! j = Some i -> np.column j out = np.column i a.
Proof.
  intros Hall. unfold np.take_columns.
  rewrite (proj2 (forallb_lt _ _) Hall).
  eexists. split; [reflexivity |]. simpl. split_and!.
  - reflexivity.
  - unfold np.shape0. simpl. now rewrite length_map.
  - unfold np.wf. simpl. apply Forall_forall. intros r Hr.
    apply list_elem_of_In, in_map_iff in Hr as (r0 & <- & _).
    now rewrite length_map.
  - intros j i Hj. unfold np.column. simpl. rewrite map_map.
    apply map_ext. intros r.
    rewrite nth_lookup, list_lookup_fmap, Hj. reflexivity.
Qed.

Lemma take_entries_spec {A : Type} (d : A) (indices : list nat) (v : list A) :
  Forall (fun i => i < length v)%nat indices ->
  np.take_entries d indices v = Ret (map (fun i => nth i v d) indices).
Proof.
  intros Hall. unfold np.take_entries.
  now rewrite (proj2 (forallb_lt _ _) Hall).
Qed.

Lemma map_nth_seq {A : Type} (d : A) (l : list A) :
  map (fun i => nth i l d) (seq 0 (length l)) = l.
Proof.
  apply list_eq. intros i. rewrite list_lookup_fmap.
  destruct (decide (i < length l)%nat) as [Hi|Hi].
  - rewrite lookup_seq_lt by exact Hi. simpl.
    destruct (lookup_lt_is_Some_2 _ _ Hi) as [x Hx].
    now rewrite nth_lookup, Hx.
  - rewrite lookup_seq_ge by lia. simpl. symmetry. apply lookup_ge_None. lia.
Qed.

Lemma selects_spec (points : np.ndarray) (segments : option (list Z))
    (indices : list nat) :
  Forall (fun i => i < np.shape1 points)%nat indices ->
  (forall s, segments = Some s -> length s = np.shape1 points) ->
  exists out k,
    (let+ downsampled_points := np.take_columns indices points in
     match segments with
     | Some segments =>
         let+ labels := np.take_entries 0%Z indices segments in
         Ret (downsampled_points, Labels labels)
     | None => Ret (downsampled_points, Indices indices)
     end)%py = Ret (out, k) /\
    selects points segments indices out k.
Proof.
  intros Hall Hseg.
  destruct (take_columns_spec indices points Hall)
    as (out & -> & H1 & H0 & Hwf & Hcol). simpl.
  destruct segments as [s|].
  - rewrite take_entries_spec by (now rewrite (Hseg s eq_refl)). simpl.
    do 2 eexists. split; [reflexivity |]. now split_and!.
  - do 2 eexists. split; [reflexivity |]. now split_and!.
Qed.

Section Random.

Context {Rng : Type} (random_choice : nat -> Z -> M Rng (list nat)).

(** [random_downsample], given a sampler that samples without
    replacement, a bound that is not negative and labels in the number of
    the points: it returns [min(N, max_points)] points; they are points of
    the input, no point taken twice, each with its own label (or, without
    labels, with its index).  A cloud within the bound is returned as it is,
    without a draw from the random generator.  (What the sampler does with
    a negative size differs between numpy versions.) *)
Theorem random_downsample_spec (points : np.ndarray) (max_points : Z)
    (segments : option (list Z)) (g : Rng) :
  samples_without_replacement random_choice ->
  np.wf points -> (0 <= max_points)%Z ->
  (forall s, segments = Some s -> length s = np.shape1 points) ->
  exists out k g' indices,
    random_downsample random_choice points max_points segments g
      = (Ret (out, k), g') /\
    selects points segments indices out k /\
    NoDup indices /\
    Forall (fun i => i < np.shape1 points)%nat indices /\
    Z.of_nat (length indices) = Z.min (Z.of_nat (np.shape1 points)) max_points /\
    ((Z.of_nat (np.shape1 points) <= max_points)%Z -> out = points /\ g' = g).
Proof.
  intros Hchoice Hwf Hmax Hseg. unfold random_downsample.
  destruct (Z.of_nat (np.shape1 points) <=? max_points)%Z eqn:E.
  - apply Z.leb_le in E.
    exists points,
      (match segments with
       | Some s => Labels s
       | None => Indices (seq 0 (np.shape1 points))
       end), g, (seq 0 (np.shape1 points)).
    split_and!.
    + now destruct segments.
    + unfold selects. rewrite length_seq. split_and!; try done.
      * intros j i Hj. apply lookup_seq in Hj as [-> _]. reflexivity.
      * destruct segments as [s|]; [| reflexivity].
        rewrite <- (Hseg s eq_refl). now rewrite map_nth_seq.
    + apply NoDup_seq.
    + apply Forall_forall. intros i Hi. apply elem_of_seq in Hi. lia.
    + rewrite length_seq. lia.
    + done.
  - apply Z.leb_gt in E.
    destruct (Hchoice (np.shape1 points) max_points g ltac:(lia) ltac:(lia))
      as (indices & g' & Hrun & Hlen & Hnd & Hall).
    unfold bind. rewrite Hrun.
    destruct (selects_spec points segments indices Hall Hseg)
      as (out & k & -> & Hsel).
    exists out, k, g', indices. split_and!; try done; lia.
Qed.

End Random.

Lemma row_eqb_eq (x y : list Z) : np.row_eqb x y = true <-> x = y.
Proof. unfold np.row_eqb. apply bool_decide_eq_true. Qed.

Lemma row_ltb_irrefl (x : list Z) : np.row_ltb x x = false.
Proof.
  induction x as [|a x IH]; simpl; [reflexivity |].
  now rewrite Z.ltb_irrefl, Z.eqb_refl, IH.
Qed.

Lemma row_ltb_cons (a b : Z) (x y : list Z) :
  np.row_ltb (a :: x) (b :: y) = true
  <-> (a < b)%Z \/ (a = b /\ np.row_ltb x y = true).
Proof.
  simpl. rewrite orb_true_iff, andb_true_iff, Z.ltb_lt, Z.eqb_eq. reflexivity.
Qed.

Lemma row_ltb_trans (x y z : list Z) :
  np.row_ltb x y = true -> np.row_ltb y z = true -> np.row_ltb x z = true.
Proof.
  revert y z. induction x as [|a x IH]; intros [|b y] [|c z]; try discriminate;
    try reflexivity.
  rewrite !row_ltb_cons. intros [Hab | [-> Hxy]] [Hbc | [-> Hyz]].
  - left. lia.
  - left. lia.
  - left. lia.
  - right. split; [reflexivity | eauto].
Qed.

Lemma row_ltb_total (x y : list Z) :
  np.row_ltb x y = false -> np.row_eqb x y = false -> np.row_ltb y x = true.
Proof.
  intros Hlt Hne.
  assert (Hxy : x <> y).
  { intros ->. rewrite (proj2 (row_eqb_eq y y) eq_refl) in Hne. discriminate. }
  clear Hne. revert y Hlt Hxy.
  induction x as [|a x IH]; intros [|b y] Hlt Hxy; try congruence; try reflexivity.
  - discriminate.
  - apply row_ltb_cons.
    assert (Hn : ~ ((a < b)%Z \/ (a = b /\ np.row_ltb x y = true))).
    { rewrite <- row_ltb_cons. congruence. }
    destruct (Z.lt_trichotomy a b) as [H | [-> | H]].
    + tauto.
    + right. split; [reflexivity |]. apply IH.
      * destruct (np.row_ltb x y); [tauto | reflexivity].
      * congruence.
    + left. lia.
Qed.

Lemma unique_rows_sorted (keys : list (list Z)) :
  StronglySorted (fun a b => np.row_ltb a b = true)
    (np.unique_by np.row_ltb np.row_eqb keys).
Proof.
  apply unique_by_sorted;
    [apply row_eqb_eq | apply row_ltb_trans | apply row_ltb_total].
Qed.

Lemma elem_of_unique_rows (u : list Z) (keys : list (list Z)) :
  u ∈ np.unique_by np.row_ltb np.row_eqb keys <-> u ∈ keys.
Proof. apply elem_of_unique_by, row_eqb_eq. Qed.

Section Voxel.

Context {fmt : np.Format} (astype_int32 : np.float -> Z).

Lemma voxel_indices_lookup (points : np.ndarray) (voxel_size : Q) (j : nat)
    (u : list Z) :
  voxel_indices astype_int32 points voxel_size !! j = Some u
  <-> (j < np.shape1 points)%nat /\
      u = voxel astype_int32 points voxel_size j.
Proof.
  unfold voxel_indices, voxel. rewrite !list_lookup_fmap.
  destruct (decide (j < np.shape1 points)%nat) as [Hj|Hj].
  - rewrite lookup_seq_lt by exact Hj. simpl.
    unfold voxel_of, np.column. simpl. rewrite firstn_map.
    split; [intros [= <-]; auto | intros [_ ->]; reflexivity].
  - rewrite lookup_seq_ge by lia. simpl. split; [discriminate | tauto].
Qed.

(** [voxel_downsample] keeps one point of every occupied voxel and no
    more: the points returned are points of the input, each with its own
    label (or, without labels, with its index); no two of them share a
    voxel; every input point has in the result the first input point of its
    voxel; the result is ordered by voxel, lexicographically.  The voxel of
    a point is what the function computes for it: per coordinate, the
    quotient by the voxel size rounded in the format of the array, floored
    and cast to int32, whatever the format and whatever the cast does out
    of range.  The cloud has a coordinate row and a point and the voxel
    size is not zero in the format of the array: the unique rows of an
    array without entries, and the sign of a zero, are outside the model. *)
Theorem voxel_downsample_spec (points : np.ndarray) (voxel_size : Q)
    (segments : option (list Z)) :
  np.wf points -> (1 <= np.shape0 points)%nat -> (1 <= np.shape1 points)%nat ->
  np.is_zero (np.rounded voxel_size) = false ->
  (forall s, segments = Some s -> length s = np.shape1 points) ->
  exists out k indices,
    voxel_downsample astype_int32 points voxel_size segments = Ret (out, k) /\
    selects points segments indices out k /\
    Forall (fun i => i < np.shape1 points)%nat indices /\
    (forall i j, i ∈ indices -> j ∈ indices ->
       voxel astype_int32 points voxel_size i
         = voxel astype_int32 points voxel_size j -> i = j) /\
    (forall j, (j < np.shape1 points)%nat ->
       exists i, i ∈ indices /\
         voxel astype_int32 points voxel_size i
           = voxel astype_int32 points voxel_size j /\ (i <= j)%nat) /\
    StronglySorted (fun a b => np.row_ltb a b = true)
      (map (voxel astype_int32 points voxel_size) indices).
Proof.
  intros Hwf Hd Hn Hvs Hseg.
  set (voxel := voxel astype_int32 points voxel_size).
  set (keys := voxel_indices astype_int32 points voxel_size).
  set (indices := np.unique_index_by np.row_ltb np.row_eqb keys).
  assert (Hkeys : forall j u, keys !! j = Some u
            <-> (j < np.shape1 points)%nat /\ u = voxel j).
  { intros j u. apply voxel_indices_lookup. }
  assert (Hidx : forall i, i ∈ indices ->
            exists u, u ∈ keys /\ i = np.first_index np.row_eqb u keys /\
                      keys !! i = Some u).
  { intros i Hi. unfold indices, np.unique_index_by in Hi.
    apply list_elem_of_In, in_map_iff in Hi as (u & <- & Hu).
    apply list_elem_of_In in Hu. rewrite elem_of_unique_rows in Hu.
    exists u. split; [exact Hu |]. split; [reflexivity |].
    now apply (first_index_spec _ row_eqb_eq). }
  assert (Hall : Forall (fun i => i < np.shape1 points)%nat indices).
  { apply Forall_forall. intros i Hi.
    destruct (Hidx i Hi) as (u & _ & _ & Hu). now apply Hkeys in Hu. }
  assert (Hvox : map voxel indices = np.unique_by np.row_ltb np.row_eqb keys).
  { unfold indices, np.unique_index_by. rewrite map_map.
    rewrite <- (map_id (np.unique_by np.row_ltb np.row_eqb keys)) at 2.
    apply map_ext_in. intros u Hu.
    apply list_elem_of_In in Hu. rewrite elem_of_unique_rows in Hu.
    destruct (first_index_spec _ row_eqb_eq u keys Hu) as [Hat _].
    apply Hkeys in Hat as [_ Hat]. simpl. now rewrite <- Hat. }
  unfold voxel_downsample. fold keys. fold indices.
  destruct (selects_spec points segments indices Hall Hseg)
    as (out & k & -> & Hsel).
  exists out, k, indices. split_and!; try done.
  - intros i j Hi Hj Heq.
    destruct (Hidx i Hi) as (u & _ & -> & Hu).
    destruct (Hidx j Hj) as (v & _ & -> & Hv).
    apply Hkeys in Hu as [_ ->]. apply Hkeys in Hv as [_ ->].
    now rewrite Heq.
  - intros j Hj.
    assert (Hk : keys !! j = Some (voxel j)) by now apply Hkeys.
    assert (Hin : voxel j ∈ keys) by (eapply list_elem_of_lookup_2; eauto).
    destruct (first_index_spec _ row_eqb_eq (voxel j) keys Hin) as [Hat Hmin].
    exists (np.first_index np.row_eqb (voxel j) keys). split_and!.
    + unfold indices, np.unique_index_by.
      apply list_elem_of_In, in_map_iff. exists (voxel j).
      split; [reflexivity |]. apply list_elem_of_In.
      now rewrite elem_of_unique_rows.
    + apply Hkeys in Hat as [_ Hat]. now symmetry.
    + destruct (decide (np.first_index np.row_eqb (voxel j) keys <= j)%nat)
        as [|Hgt]; [done |].
      exfalso. apply (Hmin j); [lia | exact Hk].
  - rewrite Hvox. apply unique_rows_sorted.
Qed.

End Voxel.

End DownsamplingFacts.

(* ===================================================================== *)
(** * Facts about the components *)
(* ===================================================================== *)

Section SelectorFacts.

Import instance_selector.

Lemma elem_of_sorted_instances (instances : gmap Z nat) (k : Z) (c : nat) :
  (k, c) ∈ sorted_instances instances <-> instances !! k = Some c.
Proof.
  unfold sorted_instances.
  rewrite (merge_sort_Permutation more_points (map_to_list instances)).
  apply elem_of_map_to_list.
Qed.

Lemma checked_boxes (ui : widgets) (selected_instances : gset Z)
    (items : list (Z * nat)) (acc : gset Z) (k : Z) :
  k ∈ foldl
        (fun new_selection '(instance_id, point_count) =>
           let checked :=
             checkbox ui ("instance_checkbox_" ++ builtins.str instance_id)%string
               (bool_decide (instance_id ∈ selected_instances)) in
           if (checked : bool) then {[instance_id]} ∪ new_selection
           else new_selection)
        acc items
  <-> k ∈ acc \/
      ((exists c, (k, c) ∈ items) /\
       checkbox ui ("instance_checkbox_" ++ builtins.str k)%string
         (bool_decide (k ∈ selected_instances)) = true).
Proof.
  revert acc. induction items as [|[i n] items IH]; intros acc; simpl.
  - split; [tauto |]. intros [? | [[c Hc] _]]; [done |].
    now apply elem_of_nil in Hc.
  - rewrite IH. setoid_rewrite elem_of_cons.
    destruct (checkbox ui ("instance_checkbox_" ++ builtins.str i)%string
                (bool_decide (i ∈ selected_instances))) eqn:E.
    + rewrite elem_of_union, elem_of_singleton. split.
      * intros [[-> | ?] | [[c Hc] Hk]]; [right | tauto | right].
        -- split; [exists n; now left | exact E].
        -- split; [exists c; now right | exact Hk].
      * intros [? | [[c [[= -> ->] | Hc]] Hk]]; [tauto | tauto |].
        right. split; [eauto | exact Hk].
    + split.
      * intros [? | [[c Hc] Hk]]; [tauto |]. right. split; [eauto | exact Hk].
      * intros [? | [[c [[= -> ->] | Hc]] Hk]]; [tauto | congruence |].
        right. split; [eauto | exact Hk].
Qed.

(** Without a button clicked, an instance is selected exactly when its
    checkbox is checked. *)
Lemma selected_boxes (ui : widgets) (instances : gmap Z nat)
    (selected_instances : gset Z) (k : Z) :
  k ∈ foldl
        (fun new_selection '(instance_id, point_count) =>
           let checked :=
             checkbox ui ("instance_checkbox_" ++ builtins.str instance_id)%string
               (bool_decide (instance_id ∈ selected_instances)) in
           if (checked : bool) then {[instance_id]} ∪ new_selection
           else new_selection)
        (∅ : gset Z) (sorted_instances instances)
  <-> k ∈ dom instances /\
      checkbox ui ("instance_checkbox_" ++ builtins.str k)%string
        (bool_decide (k ∈ selected_instances)) = true.
Proof.
  rewrite checked_boxes, elem_of_dom.
  setoid_rewrite elem_of_sorted_instances.
  split.
  - intros [Hk | [[c Hc] Hb]]; [now apply elem_of_empty in Hk |].
    split; [eauto | exact Hb].
  - intros [[c Hc] Hb]. right. split; [eauto | exact Hb].
Qed.

Lemma render_instance_selector_subseteq (ui : widgets)
    (instances : gmap Z nat) (selected_instances : gset Z) :
  render_instance_selector ui instances selected_instances ⊆ dom instances.
Proof.
  unfold render_instance_selector.
  case_bool_decide; [done |].
  destruct (button ui "Select All"); [done |].
  destruct (button ui "Clear All"); [done |].
  intros k Hk. now apply selected_boxes in Hk.
Qed.

(** The selection [render_instance_selector] returns holds instances of
    the frame only.  It is empty when the frame has no instance; with
    instances, Select All gives them all, Clear All none, and otherwise an
    instance is selected exactly when its checkbox is checked; so a selection
    carried over from another frame, with no checkbox touched, is cut down to
    the instances of this frame. *)
Theorem render_instance_selector_spec (ui : widgets) (instances : gmap Z nat)
    (selected_instances : gset Z) :
  render_instance_selector ui instances selected_instances ⊆ dom instances /\
  (instances = ∅ ->
     render_instance_selector ui instances selected_instances = ∅) /\
  (instances <> ∅ -> button ui "Select All" = true ->
     render_instance_selector ui instances selected_instances = dom instances) /\
  (instances <> ∅ -> button ui "Select All" = false ->
     button ui "Clear All" = true ->
     render_instance_selector ui instances selected_instances = ∅) /\
  (instances <> ∅ -> button ui "Select All" = false ->
     button ui "Clear All" = false ->
     (forall k,
        k ∈ render_instance_selector ui instances selected_instances <->
        k ∈ dom instances /\
        checkbox ui ("instance_checkbox_" ++ builtins.str k)%string
          (bool_decide (k ∈ selected_instances)) = true) /\
     ((forall key value, checkbox ui key value = value) ->
        render_instance_selector ui instances selected_instances
        = selected_instances ∩ dom instances)).
Proof.
  split; [apply render_instance_selector_subseteq |].
  unfold render_instance_selector.
  case_bool_decide as Hempty.
  { split_and!; try done. }
  destruct (button ui "Select All") eqn:Hall.
  { split_and!; try done. }
  destruct (button ui "Clear All") eqn:Hclear.
  { split_and!; try done. }
  split_and!; try done.
  intros _ _ _. split; [apply selected_boxes |].
  intros Huntouched. apply set_eq. intros k.
  rewrite selected_boxes, Huntouched, elem_of_intersection, bool_decide_eq_true.
  tauto.
Qed.

End SelectorFacts.

Section ViewerFacts.

Import viewer_3d.

(** [render_comparison_stats] raises exactly when a patched cloud is shown
    against an original frame with no point: the percentage divides by the
    original point count.  It raises [ZeroDivisionError] then, after the
    first three metrics were shown; in every other case it returns, having
    shown four metrics: without a patched cloud two of them are dashes, with
    one the patched count has the difference of the two point counts as its
    delta and the change is that difference in percent of the original
    count. *)
Theorem render_comparison_stats_spec (original_pc : np.ndarray)
    (selected_instances : gset Z) (page : list metric) :
  render_comparison_stats original_pc None selected_instances page
    = (Ret tt,
       page
       ++ first_three original_pc (Metric "Patched Points" Dash None)
            selected_instances
       ++ [Metric "Change" Dash None]) /\
  forall patched_pc,
    (np.shape1 original_pc = 0%nat ->
       render_comparison_stats original_pc (Some patched_pc)
         selected_instances page
       = (Raise ZeroDivisionError,
          page ++ first_three original_pc
                    (patched_metric original_pc patched_pc)
                    selected_instances)) /\
    (np.shape1 original_pc <> 0%nat ->
       exists change_pct,
         render_comparison_stats original_pc (Some patched_pc)
           selected_instances page
         = (Ret tt,
            page
            ++ first_three original_pc (patched_metric original_pc patched_pc)
                 selected_instances
            ++ [Metric "Change" (Percent change_pct) None]) /\
         (change_pct * inject_Z (Z.of_nat (np.shape1 original_pc))
          == inject_Z (100 * (Z.of_nat (np.shape1 patched_pc)
                              - Z.of_nat (np.shape1 original_pc))))%Q).
Proof.
  unfold render_comparison_stats, bind, st_metric, truediv, first_three,
    patched_metric.
  set (n := Z.of_nat (np.shape1 original_pc)).
  split; [simpl; now rewrite <- !app_assoc |].
  intros patched_pc. split.
  - intros H0. assert (Hn : n = 0%Z) by (subst n; lia). rewrite Hn. simpl.
    now rewrite <- !app_assoc.
  - intros H0.
    assert (Hn : (n =? 0)%Z = false) by (apply Z.eqb_neq; subst n; lia).
    simpl. rewrite Hn. simpl. eexists. split; [now rewrite <- !app_assoc |].
    assert (Hq : ~ (inject_Z n == 0)%Q).
    { unfold inject_Z, Qeq. simpl. apply Z.eqb_neq in Hn. lia. }
    unfold inject_Z.
    change (Z.of_nat (np.shape1 patched_pc) - n # 1)%Q
      with (inject_Z (Z.of_nat (np.shape1 patched_pc) - n)).
    change (n # 1)%Q with (inject_Z n).
    change (100 * (Z.of_nat (np.shape1 patched_pc) - n) # 1)%Q
      with (inject_Z (100 * (Z.of_nat (np.shape1 patched_pc) - n))).
    rewrite inject_Z_mult. change (inject_Z 100) with 100%Q.
    field. exact Hq.
Qed.

End ViewerFacts.

(* ===================================================================== *)
(** * Facts about [get_frame_instances] *)
(* ===================================================================== *)

Section FrameInstancesFacts.

Import data_service frame_instances.

Context `{api : DatasetApi}.

#[local] Existing Instance str_inj.

(** [int] reads back what [str] printed. *)
Lemma int_str (k : Z) : builtins.int (builtins.str k) = Ret k.
Proof.
  unfold builtins.int, builtins.str.
  assert (Hnn : Z.to_int k <> Decimal.Pos Decimal.Nil /\
                Z.to_int k <> Decimal.Neg Decimal.Nil).
  { destruct k as [|q|q]; simpl; split; try discriminate;
      intros Hc; injection Hc as Hc;
      exact (DecimalPos.Unsigned.to_uint_nonnil _ Hc). }
  destruct Hnn as [H1 H2].
  rewrite (NilZero.isi _ H1 H2). now rewrite of_to.
Qed.

(** On a mapping whose keys are printed integers, the first loop returns
    the integers under which [frame_id] is listed. *)
Lemma frame_instance_ids_spec (frame_id : string)
    (grouped : gmap string (list string)) :
  (forall s, is_Some (grouped !! s) -> exists k, s = builtins.str k) ->
  exists ids,
    frame_instance_ids frame_id grouped = Ret ids /\
    forall k, k ∈ ids <->
      exists frames, grouped !! builtins.str k = Some frames /\ frame_id ∈ frames.
Proof.
  unfold frame_instance_ids.
  apply (map_fold_weak_ind (fun (r : outcome (gset Z)) m =>
    (forall s, is_Some (m !! s) -> exists k, s = builtins.str k) ->
    exists ids, r = Ret ids /\
      forall k, k ∈ ids <->
        exists frames, m !! builtins.str k = Some frames /\ frame_id ∈ frames)).
  - intros _. exists ∅. split; [reflexivity |]. intros k. split.
    + intros Hk. now apply elem_of_empty in Hk.
    + intros (frames & Hk & _). now rewrite lookup_empty in Hk.
  - intros s frames m r Hs IH Hkeys.
    destruct IH as (ids & -> & Hids).
    { intros s' Hs'. apply Hkeys.
      destruct (decide (s = s')) as [<-|Hne].
      - rewrite Hs in Hs'. now destruct Hs'.
      - now rewrite lookup_insert_ne. }
    destruct (Hkeys s) as [k0 ->]; [rewrite lookup_insert_eq; eauto |].
    simpl. case_bool_decide as Hin.
    + rewrite int_str. simpl. eexists. split; [reflexivity |].
      intros k. rewrite elem_of_union, elem_of_singleton, Hids.
      destruct (decide (k = k0)) as [->|Hne].
      * rewrite lookup_insert_eq. split; [eauto | tauto].
      * rewrite lookup_insert_ne by (intros Heq; apply Hne; now apply str_inj in Heq).
        tauto.
    + exists ids. split; [reflexivity |]. intros k. rewrite Hids.
      destruct (decide (k = k0)) as [->|Hne].
      * rewrite lookup_insert_eq, Hs. split.
        -- intros (? & [=] & _).
        -- intros (? & [= <-] & ?). contradiction.
      * rewrite lookup_insert_ne by (intros Heq; apply Hne; now apply str_inj in Heq).
        reflexivity.
Qed.

(** A dictionary built from pairs with distinct keys holds these pairs. *)
Lemma foldl_insert_lookup (pairs : list (Z * nat)) (k : Z) (c : nat) :
  NoDup (map fst pairs) ->
  foldl (fun d '(uid, cnt) => <[uid := cnt]> d) (∅ : gmap Z nat) pairs !! k = Some c
  <-> (k, c) ∈ pairs.
Proof.
  induction pairs as [|[u n] pairs IH] using rev_ind; intros Hnd.
  - simpl. rewrite lookup_empty, elem_of_nil. split; [discriminate | tauto].
  - rewrite foldl_snoc. rewrite map_app in Hnd. simpl in Hnd.
    apply NoDup_app in Hnd as (Hnd & Hdisj & _).
    rewrite elem_of_app, list_elem_of_singleton.
    destruct (decide (u = k)) as [->|Hne].
    + rewrite lookup_insert_eq. split.
      * intros [= ->]. now right.
      * intros [Hin | [= ->]]; [| reflexivity].
        exfalso. apply (Hdisj k); [| left].
        apply list_elem_of_In, in_map_iff. exists (k, c).
        split; [reflexivity | now apply list_elem_of_In].
    + rewrite lookup_insert_ne by exact Hne. rewrite (IH Hnd).
      split; [tauto | intros [? | [= ? ?]]; [tauto | congruence]].
Qed.

(** [segment_counts.get(k, 0)] is the number of points labelled [k]. *)
Lemma segment_counts_get (labels : list Z) (k : Z) :
  default 0%nat (segment_counts (np.Ints labels) !! k)
  = length (filter (fun l => l = k) labels).
Proof.
  rewrite <- (count_by_filter Z.eqb Z.eqb_eq k labels).
  unfold segment_counts, unique_counts_of, np.unique_counts, np.unique_counts_by.
  set (pairs := map _ _).
  assert (Hnd : NoDup (map fst pairs)).
  { unfold pairs. rewrite map_map. simpl. rewrite map_id. apply unique_NoDup. }
  destruct (foldl _ _ pairs !! k) as [c|] eqn:E.
  - apply (foldl_insert_lookup pairs k c Hnd) in E.
    unfold pairs in E. apply list_elem_of_In, in_map_iff in E as (u & [= -> <-] & _).
    reflexivity.
  - simpl. destruct (decide (k ∈ labels)) as [Hin|Hout].
    + assert (Hp : (k, np.count_by Z.eqb k labels) ∈ pairs).
      { unfold pairs. apply list_elem_of_In, in_map_iff. exists k.
        split; [reflexivity |]. apply list_elem_of_In. now apply elem_of_unique. }
      apply (foldl_insert_lookup pairs _ _ Hnd) in Hp. congruence.
    + rewrite (count_by_filter Z.eqb Z.eqb_eq k labels).
      destruct (filter (fun y => y = k) labels) as [|y r] eqn:Ef; [reflexivity |].
      assert (Hy : y ∈ filter (fun y => y = k) labels) by (rewrite Ef; left).
      apply list_elem_of_filter in Hy as [-> Hy]. contradiction.
Qed.

(** The second loop keeps the ids that are not excluded, each with its
    count, 0 when the segments do not have it. *)
Lemma instances_of_lookup (excluded : list Z) (ids : gset Z)
    (counts : gmap Z nat) (k : Z) (c : nat) :
  instances_of excluded ids counts !! k = Some c
  <-> k ∈ ids /\ (k ∉ excluded) /\ c = default 0%nat (counts !! k).
Proof.
  unfold instances_of.
  apply (set_fold_ind_L (fun (r : gmap Z nat) (X : gset Z) =>
    (r !! k = Some c)
    <-> k ∈ X /\ (k ∉ excluded) /\ c = default 0%nat (counts !! k))).
  - rewrite lookup_empty. split; [discriminate |].
    intros [Hk _]. now apply elem_of_empty in Hk.
  - intros x X r Hx IH. rewrite elem_of_union, elem_of_singleton.
    case_bool_decide as Hex.
    + rewrite IH. split; [tauto |].
      intros ([-> | Hk] & Hne & Hc); tauto.
    + destruct (decide (x = k)) as [->|Hne].
      * rewrite lookup_insert_eq. split.
        -- intros [= <-]. tauto.
        -- intros (_ & _ & ->). reflexivity.
      * rewrite lookup_insert_ne by exact Hne. rewrite IH.
        split; [tauto |]. intros ([-> | Hk] & ?); [congruence | tauto].
Qed.

Lemma coherent_fresh_ext (d : fs.disk) : coherent_ext (fresh_ext d).
Proof.
  split; [apply coherent_fresh |].
  intros k v Hk. simpl in Hk. now rewrite lookup_empty in Hk.
Qed.

(** On coherent tables [get_frame_instances] returns what its body
    computes from the stored dataset, and leaves the tables coherent. *)
Lemma get_frame_instances_cold (k : key) (st : app_ext) :
  coherent_ext st ->
  exists st',
    get_frame_instances k st = (cold_instances k (disk (base st)), st') /\
    coherent_ext st' /\ disk (base st') = disk (base st).
Proof.
  intros [Hc Hi]. unfold get_frame_instances, st_cache_instances.
  destruct (instances_cache st !! k) as [v|] eqn:Hhit.
  - exists st. rewrite (Hi _ _ Hhit). split; [reflexivity |]. now split.
  - destruct k as [[[data_root scene_id] frame_id] excluded].
    match goal with
    | |- context [match ?run with _ => _ end] =>
        assert (Hbody : exists b1,
          run = (cold_instances (data_root, scene_id, frame_id, excluded)
                   (disk (base st)), AppExt b1 (instances_cache st))
          /\ coherent b1 /\ disk b1 = disk (base st))
    end.
    { unfold bind, lift, pure, cold_instances.
      destruct (group_instances_for_scene_cold (data_root, scene_id) (base st) Hc)
        as (b1 & -> & Hc1 & Hd1).
      destruct (get_frame_segments_cold (data_root, scene_id, frame_id) b1 Hc1)
        as (b2 & Hrun & Hc2 & Hd2).
      rewrite Hd1 in Hrun, Hd2.
      generalize dependent (cold_segments (data_root, scene_id, frame_id)
                              (disk (base st))).
      intros cs Hrun.
      destruct (cold_grouping (data_root, scene_id) (disk (base st)))
        as [grouped|e]; simpl.
      2: { exists b1. auto. }
      destruct (frame_instance_ids frame_id grouped) as [ids|e]; simpl.
      2: { exists b1. auto. }
      rewrite Hrun.
      destruct cs as [segments|e]; simpl.
      - exists b2. unfold ret. split; [reflexivity |]. split; [exact Hc2 | congruence].
      - exists b2. split; [reflexivity |]. split; [exact Hc2 | congruence]. }
    destruct Hbody as (b1 & -> & Hc1 & Hd1).
    destruct (cold_instances (data_root, scene_id, frame_id, excluded)
                (disk (base st))) as [v|e] eqn:Hv.
    2: { eexists. split; [reflexivity |]. split; [| exact Hd1].
         split; [exact Hc1 |]. simpl. intros k w Hk. rewrite Hd1. eauto. }
    eexists. split; [reflexivity |]. simpl. split; [| exact Hd1].
    split; [exact Hc1 |]. simpl. intros k w Hk. rewrite Hd1.
    destruct (decide ((data_root, scene_id, frame_id, excluded) = k)) as [<-|Hne].
    + rewrite lookup_insert_eq in Hk. now injection Hk as <-.
    + rewrite lookup_insert_ne in Hk by done. eauto.
Qed.

Lemma cold_instances_returned (data_root scene_id frame_id : string)
    (excluded_classes : option (list Z)) (d : fs.disk) (instances : gmap Z nat) :
  cold_instances (data_root, scene_id, frame_id, excluded_classes) d
    = Ret instances ->
  exists grouped ids segments,
    cold_grouping (data_root, scene_id) d = Ret grouped /\
    frame_instance_ids frame_id grouped = Ret ids /\
    cold_segments (data_root, scene_id, frame_id) d = Ret segments /\
    instances
      = instances_of (default config.EXCLUDED_SEGMENT_CLASSES excluded_classes)
          ids (segment_counts segments).
Proof.
  unfold cold_instances.
  destruct (cold_grouping (data_root, scene_id) d) as [grouped|] eqn:Hg;
    [cbn [obind] | discriminate].
  destruct (frame_instance_ids frame_id grouped) as [ids|] eqn:Hi;
    [cbn [obind] | discriminate].
  destruct (cold_segments (data_root, scene_id, frame_id) d) as [segments|];
    [cbn [obind] | discriminate].
  intros [= <-]. exists grouped, ids, segments. auto.
Qed.

(** What [group_instances_for_scene] returns on coherent tables is the
    helper's mapping with its keys printed. *)
Lemma grouping_returned (data_root scene_id : string) (st : app)
    (grouped : gmap string (list string)) :
  coherent st ->
  fst (group_instances_for_scene (data_root, scene_id) st) = Ret grouped ->
  exists dataset index,
    PointceptDataset data_root (disk st) = Ret dataset /\
    group_instances_across_frames scene_id dataset (disk st) = Ret index /\
    grouped = kmap (M2 := gmap string) builtins.str index.
Proof.
  intros Hc.
  destruct (group_instances_for_scene_cold (data_root, scene_id) st Hc)
    as (st' & -> & _). simpl.
  destruct (PointceptDataset data_root (disk st)) as [ds|]; [simpl | discriminate].
  destruct (group_instances_across_frames scene_id ds (disk st)) as [g|] eqn:Hg;
    [simpl | discriminate].
  intros [= <-]. exists ds, g. auto.
Qed.

Lemma size_kmap_str (index : gmap Z (list string)) :
  size (kmap (M2 := gmap string) builtins.str index) = size index.
Proof.
  induction index as [|k frames g Hk IH] using map_ind.
  - now rewrite kmap_empty.
  - rewrite kmap_insert by apply _.
    rewrite !map_size_insert_None; [now rewrite IH | exact Hk |].
    now rewrite grouping_keys_lookup.
Qed.

(** The keys of the string-keyed grouping: under [str k] it holds the frame
    list the helper has for [k], it has as many entries as the helper's
    mapping, and each of its keys is read back by [int] as the integer it
    prints. *)
Theorem group_instances_for_scene_keys (data_root scene_id : string)
    (st : app) (grouped : gmap string (list string)) :
  coherent st ->
  fst (group_instances_for_scene (data_root, scene_id) st) = Ret grouped ->
  exists dataset index,
    PointceptDataset data_root (disk st) = Ret dataset /\
    group_instances_across_frames scene_id dataset (disk st) = Ret index /\
    (forall k, grouped !! builtins.str k = index !! k) /\
    (forall s, is_Some (grouped !! s) ->
       exists k, s = builtins.str k /\ builtins.int s = Ret k) /\
    size grouped = size index.
Proof.
  intros Hc Hrun.
  destruct (grouping_returned _ _ _ _ Hc Hrun) as (ds & g & Hds & Hg & ->).
  exists ds, g. split_and!; [exact Hds | exact Hg | | |].
  - intros k. apply grouping_keys_lookup.
  - intros s [frames Hs]. apply lookup_kmap_Some in Hs as (k & -> & _); [| apply _].
    exists k. split; [reflexivity | apply int_str].
  - apply size_kmap_str.
Qed.

(** What the body computes from a grouping and integer labels. *)
Lemma cold_instances_lookup (data_root scene_id frame_id : string)
    (excluded_classes : option (list Z)) (d : fs.disk)
    (grouped : gmap string (list string)) (labels : list Z) :
  cold_grouping (data_root, scene_id) d = Ret grouped ->
  cold_segments (data_root, scene_id, frame_id) d = Ret (np.Ints labels) ->
  exists instances,
    cold_instances (data_root, scene_id, frame_id, excluded_classes) d
      = Ret instances /\
    forall k c,
      instances !! k = Some c <->
      (exists frames,
         grouped !! builtins.str k = Some frames /\ frame_id ∈ frames) /\
      (k ∉ default config.EXCLUDED_SEGMENT_CLASSES excluded_classes) /\
      c = length (filter (fun l => l = k) labels).
Proof.
  intros Hgrouped Hsegments.
  assert (Hkeys : forall s, is_Some (grouped !! s) -> exists k, s = builtins.str k).
  { unfold cold_grouping in Hgrouped.
    destruct (PointceptDataset data_root d) as [ds|];
      [cbn [obind] in Hgrouped | discriminate].
    destruct (group_instances_across_frames scene_id ds d) as [index|];
      [cbn [obind] in Hgrouped | discriminate].
    injection Hgrouped as <-. intros s [frames Hs].
    apply lookup_kmap_Some in Hs as (k & -> & _); [eauto | apply _]. }
  destruct (frame_instance_ids_spec frame_id grouped Hkeys) as (ids & Hids & Hin).
  unfold cold_instances. rewrite Hgrouped. cbn [obind].
  rewrite Hids. cbn [obind]. rewrite Hsegments. cbn [obind].
  eexists. split; [reflexivity |].
  intros k c. rewrite instances_of_lookup, Hin, segment_counts_get. reflexivity.
Qed.

End FrameInstancesFacts.

Section SelectionFacts.

Import data_service frame_instances.

Context `{api : DatasetApi}.

(** [get_frame_instances] on coherent tables, for a frame whose labels
    are integers: the instances listed are those that the grouping lists
    for this frame and that are not excluded (by default the classes of
    [EXCLUDED_SEGMENT_CLASSES]); each comes with the number of points of the
    frame that carry its id, 0 when there is none. *)
Theorem get_frame_instances_spec (data_root scene_id frame_id : string)
    (excluded_classes : option (list Z)) (st : app_ext)
    (grouped : gmap string (list string)) (labels : list Z) :
  coherent_ext st ->
  fst (group_instances_for_scene (data_root, scene_id) (base st)) = Ret grouped ->
  fst (get_frame_segments (data_root, scene_id, frame_id) (base st))
    = Ret (np.Ints labels) ->
  exists instances,
    fst (get_frame_instances
           (data_root, scene_id, frame_id, excluded_classes) st)
      = Ret instances /\
    forall k c,
      instances !! k = Some c <->
      (exists frames,
         grouped !! builtins.str k = Some frames /\ frame_id ∈ frames) /\
      (k ∉ default config.EXCLUDED_SEGMENT_CLASSES excluded_classes) /\
      c = length (filter (fun l => l = k) labels).
Proof.
  intros Hc Hgrouped Hsegments.
  destruct (get_frame_instances_cold
              (data_root, scene_id, frame_id, excluded_classes) st Hc)
    as (st' & -> & _). cbn [fst].
  destruct Hc as [Hc _].
  destruct (group_instances_for_scene_cold (data_root, scene_id) (base st) Hc)
    as (b1 & Hg & _).
  rewrite Hg in Hgrouped. cbn [fst] in Hgrouped.
  destruct (get_frame_segments_cold (data_root, scene_id, frame_id) (base st) Hc)
    as (b2 & Hs & _).
  rewrite Hs in Hsegments. cbn [fst] in Hsegments.
  now apply cold_instances_lookup.
Qed.

(** For a frame whose segment file is missing, [get_frame_instances] with
    the default exclusions still lists the instances the grouping has for
    the frame, every one of them with 0 points: the stand-in labels are all
    -1, and -1 is an excluded class. *)
Theorem get_frame_instances_missing_file (data_root scene_id frame_id : string)
    (st : app_ext) (grouped : gmap string (list string))
    (dataset : Dataset) (frame_dir : string) (pc : np.ndarray) :
  coherent_ext st ->
  fst (group_instances_for_scene (data_root, scene_id) (base st)) = Ret grouped ->
  PointceptDataset data_root (disk (base st)) = Ret dataset ->
  _get_frame_dir dataset scene_id frame_id (disk (base st)) = Ret frame_dir ->
  fs.os_path_exists (disk (base st)) (fs.os_path_join frame_dir "segment.npy")
    = false ->
  dataset_get_frame_point_cloud dataset scene_id frame_id (disk (base st))
    = Ret pc ->
  exists instances,
    fst (get_frame_instances (data_root, scene_id, frame_id, None) st)
      = Ret instances /\
    (forall k,
       is_Some (instances !! k) <->
       (exists frames,
          grouped !! builtins.str k = Some frames /\ frame_id ∈ frames) /\
       k ∉ config.EXCLUDED_SEGMENT_CLASSES) /\
    forall k c, instances !! k = Some c -> c = 0%nat.
Proof.
  intros Hc Hgrouped Hds Hdir Hmissing Hpc.
  assert (Hsegments :
    cold_segments (data_root, scene_id, frame_id) (disk (base st))
    = Ret (np.Ints (np.full (np.shape1 pc) (-1)))).
  { unfold cold_segments. rewrite Hds. cbn [obind].
    rewrite Hdir. cbn [obind]. rewrite Hmissing.
    unfold cold_point_cloud. rewrite Hds. cbn [obind]. now rewrite Hpc. }
  destruct (group_instances_for_scene_cold (data_root, scene_id) (base st)
              (proj1 Hc)) as (b1 & Hg & _).
  rewrite Hg in Hgrouped. cbn [fst] in Hgrouped.
  destruct (cold_instances_lookup data_root scene_id frame_id None
              (disk (base st)) grouped _ Hgrouped Hsegments)
    as (instances & Hcold & Hlookup).
  destruct (get_frame_instances_cold (data_root, scene_id, frame_id, None) st Hc)
    as (st' & -> & _). cbn [fst].
  exists instances. split; [exact Hcold |]. split.
  - intros k. split.
    + intros [c Hk]. apply Hlookup in Hk as (Hk & Hex & _). auto.
    + intros [Hk Hex]. eexists. apply Hlookup. split_and!; eauto.
  - intros k c Hk. apply Hlookup in Hk as (_ & Hex & ->).
    simpl in Hex.
    destruct (filter (fun l => l = k) (np.full (np.shape1 pc) (-1)))
      as [|l r] eqn:Ef; [reflexivity |].
    assert (Hl : l ∈ filter (fun l => l = k) (np.full (np.shape1 pc) (-1)))
      by (rewrite Ef; left).
    apply list_elem_of_filter in Hl as [-> Hl].
    unfold np.full in Hl. apply elem_of_replicate in Hl as [-> _].
    exfalso. apply Hex. unfold config.EXCLUDED_SEGMENT_CLASSES. left.
Qed.

(** [get_frame_instances] raises nothing of its own: on coherent tables
    an exception it raises was raised by [group_instances_for_scene] or by
    [get_frame_segments].  In particular the conversion of the keys of the
    grouping back to integers never fails. *)
Theorem get_frame_instances_raises_only_then
    (data_root scene_id frame_id : string)
    (excluded_classes : option (list Z)) (st : app_ext) (e : exn) :
  coherent_ext st ->
  fst (get_frame_instances
         (data_root, scene_id, frame_id, excluded_classes) st) = Raise e ->
  fst (group_instances_for_scene (data_root, scene_id) (base st)) = Raise e \/
  fst (get_frame_segments (data_root, scene_id, frame_id) (base st)) = Raise e.
Proof.
  intros Hc.
  destruct (get_frame_instances_cold
              (data_root, scene_id, frame_id, excluded_classes) st Hc)
    as (st' & -> & _). cbn [fst].
  destruct Hc as [Hc _].
  destruct (group_instances_for_scene_cold (data_root, scene_id) (base st) Hc)
    as (b1 & -> & _).
  destruct (get_frame_segments_cold (data_root, scene_id, frame_id) (base st) Hc)
    as (b2 & -> & _). cbn [fst].
  unfold cold_instances.
  destruct (cold_grouping (data_root, scene_id) (disk (base st)))
    as [grouped|e1] eqn:Hgrouped; cbn [obind].
  2: { intros [= ->]. now left. }
  assert (Hkeys : forall s, is_Some (grouped !! s) -> exists k, s = builtins.str k).
  { unfold cold_grouping in Hgrouped.
    destruct (PointceptDataset data_root (disk (base st))) as [ds|];
      [cbn [obind] in Hgrouped | discriminate].
    destruct (group_instances_across_frames scene_id ds (disk (base st)))
      as [index|]; [cbn [obind] in Hgrouped | discriminate].
    injection Hgrouped as <-. intros s [frames Hs].
    apply lookup_kmap_Some in Hs as (k & -> & _); [eauto | apply str_inj]. }
  destruct (frame_instance_ids_spec frame_id grouped Hkeys) as (ids & -> & _).
  cbn [obind].
  destruct (cold_segments (data_root, scene_id, frame_id) (disk (base st)))
    as [segments|e2]; cbn [obind].
  - discriminate.
  - intros [= ->]. now right.
Qed.

(** Every instance [get_frame_instances] lists is, once printed, a key of
    the grouping of the scene: whatever subset of them the user selects,
    [patch_frame] is asked for keys of [grouped_instances] only. *)
Theorem listed_instances_are_grouped (data_root scene_id frame_id : string)
    (excluded_classes : option (list Z)) (st st1 : app_ext)
    (instances : gmap Z nat) :
  coherent_ext st ->
  get_frame_instances (data_root, scene_id, frame_id, excluded_classes) st
    = (Ret instances, st1) ->
  exists grouped,
    fst (group_instances_for_scene (data_root, scene_id) (base st1))
      = Ret grouped /\
    forall (ui : instance_selector.widgets) (selected_instances : gset Z),
      Forall (fun instance_id => is_Some (grouped !! instance_id))
        (instance_selector.instance_ids
           (instance_selector.render_instance_selector ui instances
              selected_instances)).
Proof.
  intros Hc Hrun.
  destruct (get_frame_instances_cold
              (data_root, scene_id, frame_id, excluded_classes) st Hc)
    as (st' & Hcold & [Hc' _] & Hd).
  rewrite Hrun in Hcold.
  assert (Hst : st1 = st') by congruence. subst st'.
  assert (Hcold' : Ret instances
            = cold_instances (data_root, scene_id, frame_id, excluded_classes)
                (disk (base st))) by congruence.
  clear Hcold. rename Hcold' into Hcold.
  destruct (group_instances_for_scene_cold (data_root, scene_id) (base st1) Hc')
    as (b & Hg & _).
  rewrite Hg. cbn [fst]. rewrite Hd.
  symmetry in Hcold.
  apply cold_instances_returned in Hcold
    as (grouped & ids & segments & Hgrouped & Hids & _ & ->).
  rewrite Hgrouped. exists grouped. split; [reflexivity |].
  assert (Hin : forall k, k ∈ ids -> is_Some (grouped !! builtins.str k)).
  { unfold cold_grouping in Hgrouped.
    destruct (PointceptDataset data_root (disk (base st))) as [ds|];
      [cbn [obind] in Hgrouped | discriminate].
    destruct (group_instances_across_frames scene_id ds (disk (base st)));
      [cbn [obind] in Hgrouped | discriminate].
    injection Hgrouped as <-.
    destruct (frame_instance_ids_spec frame_id
                (kmap (M2 := gmap string) builtins.str a)) as (ids' & Hids' & Hin).
    { intros s [frames Hs].
      apply lookup_kmap_Some in Hs as (k & -> & _); [eauto | apply str_inj]. }
    assert (ids' = ids) by congruence. subst ids'.
    intros k Hk. apply Hin in Hk as (frames & Hk & _). eauto. }
  intros ui selected_instances. apply Forall_forall. intros s Hs.
  unfold instance_selector.instance_ids in Hs.
  apply list_elem_of_In, in_map_iff in Hs as (k & <- & Hk).
  apply list_elem_of_In, elem_of_elements in Hk.
  apply render_instance_selector_subseteq in Hk.
  apply elem_of_dom in Hk as [c Hk].
  apply instances_of_lookup in Hk as (Hk & _).
  now apply Hin.
Qed.

End SelectionFacts.

(* ===================================================================== *)
(** * Memo tables and the stored dataset *)
(* ===================================================================== *)

Section CacheFacts.

Import data_service frame_instances.

Context `{api : DatasetApi}.

(** A value [get_frame_instances] has returned is returned again for the
    same arguments whatever happens to the stored dataset, without a look at
    it; only after [clear_cache] does a call compute from the dataset as it
    is stored then. *)
Theorem get_frame_instances_cached_until_cleared (k : key) (st st1 : app_ext)
    (instances : gmap Z nat) :
  get_frame_instances k st = (Ret instances, st1) ->
  forall d,
    get_frame_instances k (with_disk d st1) = (Ret instances, with_disk d st1) /\
    fst (get_frame_instances k (snd (clear_cache (with_disk d st1))))
      = cold_instances k d.
Proof.
  intros Hrun d. split.
  - assert (Hhit : instances_cache st1 !! k = Some instances).
    { unfold get_frame_instances, st_cache_instances in Hrun.
      destruct (instances_cache st !! k) as [v|] eqn:Hk.
      - injection Hrun as -> ->. exact Hk.
      - match type of Hrun with
        | context [match ?run with _ => _ end] => destruct run as [[v|e] st']
        end; [| discriminate].
        injection Hrun as -> <-. simpl. apply lookup_insert_eq. }
    unfold get_frame_instances, st_cache_instances. simpl. now rewrite Hhit.
  - destruct (get_frame_instances_cold k (fresh_ext d) (coherent_fresh_ext d))
      as (st' & Hcold & _).
    change (snd (clear_cache (with_disk d st1))) with (fresh_ext d).
    now rewrite Hcold.
Qed.

End CacheFacts.

(* ===================================================================== *)
(** * Further facts about [patching_service] *)
(* ===================================================================== *)

Section InstanceInfoFacts.

Import patching_service.

Context `{api : PatchingApi}.

Lemma getitem_first {A : Type} (x : A) (l : list A) :
  builtins.getitem (x :: l) 0 = Ret x.
Proof. reflexivity. Qed.

Lemma getitem_last {A : Type} (x : A) (l : list A) :
  exists y, last (x :: l) = Some y /\ builtins.getitem (x :: l) (-1) = Ret y.
Proof.
  unfold builtins.getitem.
  change (-1 <? 0)%Z with true. cbv iota.
  assert (Hj : (-1 + Z.of_nat (length (x :: l)) <? 0)%Z = false).
  { apply Z.ltb_ge. simpl. lia. }
  rewrite Hj.
  replace (Z.to_nat (-1 + Z.of_nat (length (x :: l)))) with (pred (length (x :: l)))
    by (simpl; lia).
  rewrite <- last_lookup.
  destruct (last (x :: l)) as [y|] eqn:E; [eauto |].
  apply last_None in E. discriminate.
Qed.

(** [get_instance_info] never raises, an empty frame list included.  For
    an instance missing from [grouped_instances] the dictionary has the two
    keys [frames], 0, and [exists], false, and no others; for a key of
    [grouped_instances] it has four: the number of its frames, the first and
    the last of them ([None] for both when the list is empty) and [exists],
    true. *)
Theorem get_instance_info_spec (self : PatchingService)
    (scene_id instance_id : string)
    (grouped_instances : gmap string (list string)) :
  exists info,
    get_instance_info self scene_id instance_id grouped_instances = Ret info /\
    match grouped_instances !! instance_id with
    | None =>
        dom info = {[ "frames"; "exists" ]} /\
        info !! "frames" = Some (builtins.PyInt 0) /\
        info !! "exists" = Some (builtins.PyBool false)
    | Some frames =>
        dom info = {[ "frames"; "first_frame"; "last_frame"; "exists" ]} /\
        info !! "frames" = Some (builtins.PyInt (Z.of_nat (length frames))) /\
        info !! "first_frame"
          = Some (from_option builtins.PyStr builtins.PyNone (head frames)) /\
        info !! "last_frame"
          = Some (from_option builtins.PyStr builtins.PyNone (last frames)) /\
        info !! "exists" = Some (builtins.PyBool true)
    end.
Proof.
  unfold get_instance_info.
  destruct (grouped_instances !! instance_id) as [frames|].
  - destruct frames as [|x l].
    + eexists. split; [reflexivity |]. split_and!; try reflexivity;
        rewrite !dom_insert_L, dom_empty_L; set_solver.
    + destruct (getitem_last x l) as (y & Hy & Hlast).
      rewrite getitem_first, Hlast. cbn [obind]. rewrite Hy.
      eexists. split; [reflexivity |]. split_and!; try reflexivity;
        rewrite !dom_insert_L, dom_empty_L; set_solver.
  - eexists. split; [reflexivity |]. split_and!; try reflexivity;
      rewrite !dom_insert_L, dom_empty_L; set_solver.
Qed.

End InstanceInfoFacts.

Section MergeOrderFacts.

Import patching_service.

Context `{api : PatchingApi} {settings : config.Settings} {Ui : Type}.

Abbreviation world := (world (api := api) (Ui := Ui)).
Abbreviation callback := (callback (Ui := Ui)).
Abbreviation event := (event (api := api)).

Implicit Types (self : PatchingService) (w : world) (f : callback)
  (progress_callback : option callback)
  (grouped : gmap string (list string)).

Lemma merges_app (l1 l2 : list event) :
  merges (l1 ++ l2) = merges l1 ++ merges l2.
Proof.
  induction l1 as [|e l1 IH]; [reflexivity |].
  destruct e; simpl; now rewrite ?IH.
Qed.

Lemma patches_app (l1 l2 : list event) :
  patches (l1 ++ l2) = patches l1 ++ patches l2.
Proof.
  induction l1 as [|e l1 IH]; [reflexivity |].
  destruct e; simpl; now rewrite ?IH.
Qed.

Lemma reported_merges progress_callback fraction text w r w1 :
  reported progress_callback fraction text w r w1 ->
  merges (log w1) = merges (log w) /\ patches (log w1) = patches (log w).
Proof.
  intros H. apply reported_log in H as (_ & new & -> & Hnew).
  rewrite merges_app, patches_app.
  destruct Hnew as [-> | (q & _ & ->)]; simpl; now rewrite !app_nil_r.
Qed.

(** One iteration merges and patches its instance when it is a key of the
    index and nothing else; an iteration that raises may stop short. *)
Lemma patched_one_merges self acc patcher scene_id grouped progress_callback
    total i instance_id w r w' :
  patched_one self acc patcher scene_id grouped progress_callback
    total i instance_id w r w' ->
  exists ms ps,
    merges (log w') = merges (log w) ++ ms /\
    patches (log w') = patches (log w) ++ ps /\
    ms `prefix_of` map (fun x => (x, strategy self)) (present grouped [instance_id]) /\
    ps `prefix_of` present grouped [instance_id] /\
    (r = Ret tt ->
       ms = map (fun x => (x, strategy self)) (present grouped [instance_id]) /\
       ps = present grouped [instance_id]).
Proof.
  unfold present.
  intros [e w1 H | w1 H Hg | w1 frames e s' H Hg Hm
         | w1 frames m s2 r0 s' H Hg Hm Hp];
    apply reported_merges in H as [Hms Hps]; simpl.
  - exists [], []. rewrite !app_nil_r. split_and!; try done;
      apply prefix_nil.
  - exists [], []. rewrite !app_nil_r.
    rewrite filter_cons_False by (rewrite Hg; intros [? ?]; discriminate).
    rewrite filter_nil. split_and!; done.
  - rewrite merges_app, patches_app, Hms, Hps. simpl.
    rewrite filter_cons_True by (rewrite Hg; eauto). rewrite filter_nil.
    exists [(instance_id, strategy self)], []. rewrite !app_nil_r.
    split_and!; try done. apply prefix_nil.
  - rewrite merges_app, patches_app, Hms, Hps. simpl.
    rewrite filter_cons_True by (rewrite Hg; eauto). rewrite filter_nil.
    exists [(instance_id, strategy self)], [instance_id].
    split_and!; done.
Qed.

Lemma present_cons grouped (x : string) (xs : list string) :
  present grouped (x :: xs) = present grouped [x] ++ present grouped xs.
Proof.
  unfold present.
  destruct (decide (is_Some (grouped !! x))).
  - rewrite !filter_cons_True by done. now rewrite filter_nil.
  - rewrite !filter_cons_False by done. now rewrite filter_nil.
Qed.

Lemma patch_loop_merges self acc patcher scene_id grouped progress_callback
    total (instance_ids : list string) i w r w' :
  patch_loop self acc patcher scene_id grouped progress_callback
    total i instance_ids w = (r, w') ->
  exists ms ps,
    merges (log w') = merges (log w) ++ ms /\
    patches (log w') = patches (log w) ++ ps /\
    ms `prefix_of` map (fun x => (x, strategy self)) (present grouped instance_ids) /\
    ps `prefix_of` present grouped instance_ids /\
    (r = Ret tt ->
       ms = map (fun x => (x, strategy self)) (present grouped instance_ids) /\
       ps = present grouped instance_ids).
Proof.
  revert i w. induction instance_ids as [|x xs IH]; intros i w Hrun.
  - injection Hrun as <- <-. exists [], []. rewrite !app_nil_r.
    split_and!; done.
  - cbn [patch_loop] in Hrun. unfold bind in Hrun.
    destruct (patch_one self acc patcher scene_id grouped progress_callback
                total i x w) as [r1 w1] eqn:H1.
    apply patch_one_spec, patched_one_merges in H1
      as (ms1 & ps1 & Hm1 & Hp1 & Hpm1 & Hpp1 & Hret1).
    rewrite present_cons, map_app.
    destruct r1 as [[]|e].
    + destruct (Hret1 eq_refl) as [-> ->].
      apply IH in Hrun as (ms & ps & Hm & Hp & Hpm & Hpp & Hret).
      exists (map (fun x => (x, strategy self)) (present grouped [x]) ++ ms),
             (present grouped [x] ++ ps).
      rewrite Hm, Hp, Hm1, Hp1, <- !app_assoc. split_and!; try done.
      * now apply prefix_app.
      * now apply prefix_app.
      * intros Hr. destruct (Hret Hr) as [-> ->]. done.
    + injection Hrun as <- <-. exists ms1, ps1. split_and!; try done.
      * now apply prefix_app_r.
      * now apply prefix_app_r.
Qed.

(** A service built by [__init__] with a strategy name merges, then
    patches, the requested instances that are keys of the index, in the order
    of the request and as often as they are requested, every merge with the
    strategy [_get_strategy] gives for the name; a call that raises has done
    so for an initial part of them.  This is so of the calls made to the
    collaborators, where the merge of an instance comes before the patch of
    its copy and the patch before the merge of the next instance, and of the
    calls recorded. *)
Theorem patch_frame_merges_in_order (dataset : dataset_t)
    (strategy_name scene_id frame_id : string) (instance_ids : list string)
    grouped progress_callback (s : store Ext) (u : Ui)
    (r : outcome (np.ndarray * list Z)) w' :
  patch_frame (__init__ dataset strategy_name) scene_id frame_id instance_ids
    grouped progress_callback (start s u) = (r, w') ->
  (forall patcher s1,
     load_frame_patcher dataset scene_id frame_id s = (Ret patcher, s1) ->
     exists attempted copies o,
       attempted `prefix_of` instance_ids /\
       processed (Accumulator config.ACCUMULATION_STEP grouped dataset)
         (_get_strategy strategy_name) patcher scene_id
         (present grouped attempted) s1 copies o (store_of w') /\
       (returned r ->
          attempted = instance_ids /\ o = Ret tt /\
          length copies = length (present grouped instance_ids)) /\
       (forall e, o = Raise e -> r = Raise e)) /\
  merges (log w')
    `prefix_of` map (fun instance_id => (instance_id, _get_strategy strategy_name))
                  (present grouped instance_ids) /\
  patches (log w') `prefix_of` present grouped instance_ids /\
  (returned r ->
     merges (log w')
     = map (fun instance_id => (instance_id, _get_strategy strategy_name))
         (present grouped instance_ids) /\
     patches (log w') = present grouped instance_ids).
Proof.
  intros Hrun. split.
  { intros patcher s1 Hload.
    destruct (patch_frame_processed (__init__ dataset strategy_name) scene_id
                frame_id instance_ids grouped progress_callback s u patcher
                s1 r w' Hload Hrun)
      as (attempted & copies & o & Hpre & Hproc & Hret & Hraise & _).
    exists attempted, copies, o. split_and!; try done.
    intros Hr. destruct r as [res|e]; [| destruct Hr].
    destruct (Hret res eq_refl) as (-> & -> & _).
    split_and!; try done.
    exact (processed_returned _ _ _ _ _ _ _ _ Hproc). }
  revert Hrun. rewrite patch_frame_unfold. simpl.
  destruct (load_frame_patcher dataset scene_id frame_id s)
    as [[patcher|e0] s1] eqn:Hload.
  2: { intros [= <- <-]. simpl. split_and!; try apply prefix_nil. tauto. }
  destruct (patch_loop _ _ _ _ _ _ _ _ _ _) as [r2 w2] eqn:Hloop.
  apply patch_loop_merges in Hloop as (ms & ps & Hm & Hp & Hpm & Hpp & Hret).
  simpl in Hm, Hp, Hpm, Hret.
  destruct r2 as [[]|e2].
  - destruct (Hret eq_refl) as [-> ->].
    pose proof (report_spec progress_callback (Ret 1%Q) "Patching complete!"
                  w2) as Hrep.
    destruct (report progress_callback (Ret 1%Q) "Patching complete!" w2)
      as [[[]|e3] w3]; simpl in Hrep;
      apply reported_merges in Hrep as [Hm3 Hp3];
      intros [= <- <-]; rewrite Hm3, Hp3, Hm, Hp; simpl; split_and!; done.
  - intros [= <- <-]. rewrite Hm, Hp. simpl. split_and!; try done.
Qed.

End MergeOrderFacts.

(* ===================================================================== *)
(** * The theorems at work on the small scene *)
(* ===================================================================== *)

Lemma cloud_nd_wf : np.wf demo.cloud_nd.
Proof.
  unfold np.wf; simpl.
  repeat (apply Forall_cons_2; [reflexivity |]). apply Forall_nil_2.
Qed.

(** The heights of a float64 cloud of five points stored as (N, D) are
    normalised into [0, 1]. *)
Lemma colorize_by_height_total_demo :
  np.rounds_to_nearest np.float64 /\
  np.wf demo.cloud_nd /\
  color_utils.read_as demo.cloud_nd = color_utils.points_first /\
  color_utils.heights color_utils.points_first demo.cloud_nd
    = Ret [3; 7; 5; 4; 6]%Q /\
  exists out,
    color_utils.colorize_by_height (fmt := np.float64) demo.cloud_nd None None
      = Ret out /\
    length out = 5%nat /\
    Forall (np.between 0 1) out.
Proof.
  split; [exact float64_rounds_to_nearest |].
  split; [exact cloud_nd_wf |]. split; [reflexivity |].
  split; [reflexivity |].
  destruct (colorize_by_height_total (fmt := np.float64)
              float64_rounds_to_nearest color_utils.points_first
              demo.cloud_nd cloud_nd_wf ltac:(vm_compute; lia)
              ltac:(vm_compute; lia) eq_refl)
    as (z & lo & hi & out & Hz & _ & Hlo & Hhi & Hout & Hlen & _ & _ & _
        & Hin & _).
  injection Hz as <-. injection Hlo as <-. injection Hhi as <-.
  exists out. split; [exact Hout |]. split; [exact Hlen |].
  apply (Hin 4%Q). vm_compute. reflexivity.
Defined.

Example colorize_by_height_flat :
  color_utils.colorize_by_height (fmt := np.float64) demo.flat_cloud None None
  = Ret [np.Finite 0; np.Finite 0; np.Finite 0].
Proof. vm_compute. reflexivity. Qed.

Example colorize_by_height_nd :
  color_utils.colorize_by_height (fmt := np.float64) demo.cloud_nd None None
  = Ret [np.Finite 0; np.Finite 1; np.Finite (1 # 2); np.Finite (1 # 4);
         np.Finite (3 # 4)].
Proof. vm_compute. reflexivity. Qed.

(** C10 as stated fails on two clouds.  Four points at one height, stored
    as (N, D), are read as a cloud of three points in the layout (D, N): the
    result has three values for the four points, and they are not all zero.
    And the heights of the two points of [demo.tall_cloud] are so far apart
    that their range is an infinity in float64: the higher point gets a
    NaN, which is no value of [0, 1]. *)
Lemma colorize_by_height_misread_or_overflown :
  (np.wf demo.cloud_nd4 /\
   color_utils.n_points color_utils.points_first demo.cloud_nd4 = 4%nat /\
   color_utils.heights color_utils.points_first demo.cloud_nd4
     = Ret [5; 5; 5; 5]%Q /\
   color_utils.colorize_by_height (fmt := np.float64) demo.cloud_nd4 None None
     = Ret [np.Finite 0; np.Finite (1 # 2); np.Finite 1] /\
   [np.Finite 0; np.Finite (1 # 2); np.Finite 1]
     <> np.zeros_like [5; 5; 5; 5]%Q) /\
  (np.wf demo.tall_cloud /\
   color_utils.read_as demo.tall_cloud = color_utils.channels_first /\
   color_utils.heights color_utils.channels_first demo.tall_cloud
     = Ret [inject_Z (- 2 ^ 1023); inject_Z (2 ^ 1023)] /\
   np.sub (fmt := np.float64) (inject_Z (2 ^ 1023)) (inject_Z (- 2 ^ 1023))
     = np.Inf false /\
   color_utils.colorize_by_height (fmt := np.float64) demo.tall_cloud None None
     = Ret [np.Finite 0; np.NaN] /\
   ~ Forall (np.between 0 1) [np.Finite 0; np.NaN]).
Proof.
  split.
  - split.
    { unfold np.wf; simpl.
      repeat (apply Forall_cons_2; [reflexivity |]). apply Forall_nil_2. }
    split; [reflexivity |]. split; [reflexivity |].
    split; [vm_compute; reflexivity | discriminate].
  - split.
    { unfold np.wf; simpl.
      repeat (apply Forall_cons_2; [reflexivity |]). apply Forall_nil_2. }
    split; [reflexivity |]. split; [reflexivity |].
    split; [vm_compute; reflexivity |].
    split; [vm_compute; reflexivity |].
    intros H. apply Forall_cons_1 in H as [_ H].
    apply Forall_cons_1 in H as [H _]. exact H.
Qed.

(** The frame [f0] of scene [T] has no segment file: all its three points
    are unlabelled. *)
Lemma get_frame_segments_missing_file_demo :
  fs.os_path_exists demo_dataset.stored "/data/training/T/f0/segment.npy"
    = false /\
  exists labels,
    fst (data_service.get_frame_segments (api := demo_dataset.api)
           ("/data", "T", "f0") demo_dataset.cold_app)
      = Ret (np.Ints labels) /\
    length labels = 3%nat /\
    Forall (fun l => l = (-1)%Z) labels.
Proof.
  split; [reflexivity |].
  exact (proj2
    (get_frame_segments_missing_file (api := demo_dataset.api)
       demo_dataset.cold_app "/data" "T" "f0" "/data" "/data/training/T/f0"
       (coherent_fresh demo_dataset.stored) eq_refl eq_refl)
    demo.flat_cloud eq_refl eq_refl).
Defined.

Example get_frame_segments_present :
  fst (data_service.get_frame_segments (api := demo_dataset.api)
         ("/data", "S", "f1") demo_dataset.cold_app)
  = Ret (np.Ints [7; 0; 31]%Z).
Proof. reflexivity. Qed.

(** The grouping of scene [S] asked twice, first on a cold cache, then on
    the cache the first call left: the same mapping. *)
Lemma group_instances_for_scene_deterministic_demo :
  data_service.coherent demo_dataset.cold_app /\
  data_service.coherent demo_dataset.warm_app /\
  data_service.disk demo_dataset.cold_app
    = data_service.disk demo_dataset.warm_app /\
  fst (data_service.group_instances_for_scene ("/data", "S")
         demo_dataset.cold_app)
    = fst (data_service.group_instances_for_scene ("/data", "S")
             demo_dataset.warm_app) /\
  fst (data_service.group_instances_for_scene ("/data", "S")
         demo_dataset.cold_app)
    = Ret (list_to_map [("7", ["f0"; "f1"]); ("30", ["f0"]); ("31", ["f1"])]).
Proof.
  assert (H1 : data_service.coherent demo_dataset.cold_app)
    by apply coherent_fresh.
  assert (H2 : data_service.coherent demo_dataset.warm_app).
  { destruct (group_instances_for_scene_cold (api := demo_dataset.api)
                ("/data", "S") demo_dataset.cold_app H1)
      as (st' & Hrun & Hc & _).
    unfold demo_dataset.warm_app. rewrite Hrun. exact Hc. }
  split; [exact H1 |]. split; [exact H2 |].
  split; [vm_compute; reflexivity |].
  split; [| vm_compute; reflexivity].
  exact (proj1 (group_instances_for_scene_deterministic
                  (api := demo_dataset.api) "/data" "S"
                  demo_dataset.cold_app demo_dataset.warm_app H1 H2
                  ltac:(vm_compute; reflexivity))).
Defined.

(** ** The reference collaborators keep their arrays *)

Lemma reference_keeps_arrays :
  patching_service.keeps_arrays (api := reference.api).
Proof.
  split.
  - intros acc scene_id instance_id strat s. simpl.
    unfold reference.merge, reference.alloc.
    repeat case_match; simpl; rewrite ?length_app; simpl; lia.
  - intros acc scene_id instance_id strat s s' m. simpl.
    unfold reference.merge, reference.alloc.
    repeat case_match; intros [= <- <-]; simpl; rewrite length_app; simpl; lia.
  - intros patcher instance_id l s. simpl. unfold reference.patch_instance.
    repeat case_match; simpl; lia.
Qed.

(** ** Runs of [patch_frame] on the small scene *)

Section Demo.

Import patching_service.

(** A run is determined by its outcome and the state it leaves. *)
Lemma run_eq {A B : Type} (p : A * B) (a : A) : fst p = a -> p = (a, snd p).
Proof. intros <-. now destruct p. Qed.

Lemma progress_bar_never_raises (e : exn) :
  ~ callback_raises demo.progress_bar e.
Proof. intros (q & text & v & H). discriminate H. Qed.

(** Instance 999 is not in the index: asking for it changes nothing, and
    the instances 7 and 9 around it are merged and patched. *)
Lemma patch_frame_skips_absent_demo :
  demo.grouped !! "999" = None /\
  Forall (not_about (api := reference.api) "999")
    (log (snd (demo.run ["7"; "999"; "9"] (Some demo.progress_bar)))) /\
  demo.run ["7"; "999"; "9"] None = demo.run ["7"; "9"] None /\
  fst (demo.run ["7"; "999"; "9"] (Some demo.progress_bar))
    = fst (demo.run ["7"; "9"] (Some demo.progress_bar)) /\
  exists copies,
    length copies = 2%nat /\
    processed (api := reference.api) demo.accumulator
      DefaultAccumulatorStrategy 0%nat "S" ["7"; "9"] demo.loaded_store
      copies (Ret tt)
      (store_of (snd (demo.run ["7"; "999"; "9"] (Some demo.progress_bar)))).
Proof.
  destruct (patch_frame_skips_absent (api := reference.api) demo.service
              "S" "f0" ["7"; "999"; "9"] demo.grouped
              (Some demo.progress_bar) demo.s0 [] "999" eq_refl)
    as (H1 & H2 & H3 & _ & H5).
  split; [reflexivity |]. split; [exact H1 |]. split; [exact H2 |].
  split; [exact (proj1 (H3 demo.progress_bar eq_refl
                          progress_bar_never_raises)) |].
  destruct (H5 0%nat demo.loaded_store eq_refl)
    as (attempted & copies & o & _ & _ & Hproc & Hret & _).
  fold (demo.run ["7"; "999"; "9"] (Some demo.progress_bar)) in Hproc, Hret.
  destruct (fst (demo.run ["7"; "999"; "9"] (Some demo.progress_bar)))
    as [res|e] eqn:Hr; [| vm_compute in Hr; discriminate Hr].
  destruct (Hret res eq_refl) as (-> & -> & Hlen & _).
  assert (Hp : present demo.grouped ["7"; "999"; "9"] = ["7"; "9"])
    by (vm_compute; reflexivity).
  assert (Hq : present demo.grouped
                 (filter (fun x => x <> "999") ["7"; "999"; "9"])
               = ["7"; "9"])
    by (vm_compute; reflexivity).
  rewrite Hp in Hproc. rewrite Hq in Hlen.
  exists copies. split; [exact Hlen | exact Hproc].
Defined.

(** No instance asked for: the frame comes back as it was loaded. *)
Lemma patch_frame_no_instances_demo :
  reference.load_frame_patcher "/data" "S" "f0" demo.s0
    = (Ret 0%nat, Store [] (reference.State
                              (reference.scene_frames demo.stored) [demo.f0]))
  /\
  exists w',
    demo.run [] (Some demo.progress_bar)
      = (Ret (reference.points demo.f0, reference.labels demo.f0), w') /\
    Forall (quiet (api := reference.api)) (log w').
Proof.
  split; [reflexivity |].
  assert (Hcb : forall f, Some demo.progress_bar = Some f ->
                          fst (f 1%Q "Patching complete!" []) = Ret tt).
  { intros f [= <-]. reflexivity. }
  destruct (patch_frame_no_instances (api := reference.api) demo.service
              "S" "f0" demo.grouped (Some demo.progress_bar) demo.s0 []
              0%nat _ eq_refl Hcb)
    as (w' & Hrun & _ & Hquiet).
  exists w'. split; [exact Hrun | exact Hquiet].
Defined.

(** Three instances, one progress bar: thirds, then one. *)
Lemma patch_frame_progress_demo :
  ["7"; "999"; "9"] <> @nil string /\
  called_back demo.progress_bar
    [((0 # 3)%Q, "Patching instance 7...");
     ((1 # 3)%Q, "Patching instance 999...");
     ((2 # 3)%Q, "Patching instance 9...");
     (1%Q, "Patching complete!")]
    [] (Ret tt)
    (ui (snd (demo.run ["7"; "999"; "9"] (Some demo.progress_bar)))) /\
  ui (snd (demo.run ["7"; "999"; "9"] (Some demo.progress_bar)))
  = [0 # 3; 1 # 3; 2 # 3; 1]%Q /\
  fst (demo.run ["7"; "999"; "9"] None)
  = fst (demo.run ["7"; "999"; "9"] (Some demo.progress_bar)).
Proof.
  assert (Hne : ["7"; "999"; "9"] <> @nil string) by discriminate.
  destruct (patch_frame_progress (api := reference.api) demo.service
              "S" "f0" ["7"; "999"; "9"] demo.grouped demo.progress_bar
              demo.s0 [] Hne)
    as (_ & _ & (made & o & _ & Hcalls & Hall & _) & _ & Hsame).
  fold (demo.run ["7"; "999"; "9"] (Some demo.progress_bar)) in Hcalls, Hall.
  assert (Hret : returned (fst (demo.run ["7"; "999"; "9"]
                                  (Some demo.progress_bar))))
    by (vm_compute; exact I).
  destruct (Hall Hret) as [-> ->].
  split; [exact Hne |]. split; [exact Hcalls |].
  split; [vm_compute; reflexivity |].
  symmetry. exact (proj1 (Hsame progress_bar_never_raises)).
Defined.

(** A callback that raises ends the run: the run with it raises where the
    run without it returns, and the reports made are a prefix of the
    expected ones. *)
Example patch_frame_broken_bar :
  fst (demo.run ["7"; "999"; "9"] (Some demo.broken_bar))
    = Raise (Error "progress bar") /\
  fractions (api := reference.api)
    (log (snd (demo.run ["7"; "999"; "9"] (Some demo.broken_bar))))
    = [0 # 3; 1 # 3; 2 # 3]%Q /\
  returned (fst (demo.run ["7"; "999"; "9"] None)).
Proof. split_and!; vm_compute; reflexivity. Qed.

(** The patch of instance 7 in frame [f0]: its two points are replaced by
    the four points accumulated from the frames [f0] and [f3], the frames
    the stride 3 samples from the frame list of the instance. *)
Example patch_frame_instance_7 :
  fst (demo.run ["7"] None)
  = Ret (demo.cloud [2; 4; 1; 3; 31; 32]%Z [0; 1; 0; 1; 4; 5]%Z
           [6; 8; 5; 7; 9; 9]%Z,
         [0; 9; 7; 7; 7; 7]%Z).
Proof. vm_compute. reflexivity. Qed.

(** The index entry of instance 8 names a frame that is not stored: its
    merge raises, after instance 7 has been patched.  The call raises the
    same exception, and the working copy keeps the six points the patch of
    instance 7 left. *)
Lemma patch_frame_propagates_demo :
  exists wf,
    collaborator_raises (api := reference.api) demo.service "S" "f0"
      ["7"; "8"; "9"] demo.grouped (Some demo.progress_bar) demo.s0 []
      FileNotFoundError wf /\
    demo.run ["7"; "8"; "9"] (Some demo.progress_bar)
      = (Raise FileNotFoundError, wf) /\
    np.shape1 (reference.frame 0 (store_of wf)) = 6%nat /\
    reference._segments 0 (store_of wf) = [0; 9; 7; 7; 7; 7]%Z.
Proof.
  assert (Hfail :
    collaborator_raises (api := reference.api) demo.service
      "S" "f0" ["7"; "8"; "9"] demo.grouped (Some demo.progress_bar)
      demo.s0 [] FileNotFoundError
      (World (api := reference.api) demo.after_merge_8 (ui demo.reported_8)
         (log demo.reported_8 ++
          [Merge (api := reference.api) demo.accumulator "S" "8"
             DefaultAccumulatorStrategy]))).
  { apply (merge_raises (api := reference.api) demo.service "S" "f0"
             ["7"; "8"; "9"] demo.grouped (Some demo.progress_bar) demo.s0 []
             FileNotFoundError 0%nat demo.loaded_store ["7"] "8" ["9"]
             demo.after_7 demo.reported_8 demo.after_merge_8).
    - reflexivity.
    - apply run_eq. vm_compute. reflexivity.
    - apply run_eq. vm_compute. reflexivity.
    - apply run_eq. vm_compute. reflexivity.
    - exists ["f9"]. vm_compute. reflexivity.
    - apply run_eq. vm_compute. reflexivity. }
  eexists.
  split; [exact Hfail |]. split.
  - exact (patch_frame_propagates (api := reference.api) demo.service
             "S" "f0" ["7"; "8"; "9"] demo.grouped
             (Some demo.progress_bar) demo.s0 [] FileNotFoundError _ Hfail).
  - split; vm_compute; reflexivity.
Defined.

(** Two instances patched in one call: two copies, each a new array. *)
Lemma patch_frame_passes_fresh_copies_demo :
  keeps_arrays (api := reference.api) /\
  reference.load_frame_patcher "/data" "S" "f0" demo.s0
    = (Ret 0%nat, demo.loaded_store) /\
  exists copies,
    length copies = 2%nat /\
    processed (api := reference.api) demo.accumulator
      DefaultAccumulatorStrategy 0%nat "S" ["7"; "9"] demo.loaded_store
      copies (Ret tt) (store_of (snd (demo.run ["7"; "9"] None))) /\
    (forall j m l,
       copies !! j = Some (m, l) ->
       m <> l /\
       (forall i m' l',
          (i < j)%nat -> copies !! i = Some (m', l') -> m' <> l /\ l' <> l)).
Proof.
  split; [exact reference_keeps_arrays |].
  split; [reflexivity |].
  destruct (proj1 (patch_frame_passes_fresh_copies (api := reference.api)
                     (Ui := list Q) demo.service "S" "f0" ["7"; "9"]
                     demo.grouped None demo.s0 [] 0%nat demo.loaded_store
                     reference_keeps_arrays eq_refl))
    as (attempted & copies & o & _ & Hret & Hproc & Hnew).
  fold (demo.run ["7"; "9"] None) in Hret, Hproc.
  assert (Hr : returned (fst (demo.run ["7"; "9"] None)))
    by (vm_compute; exact I).
  destruct (Hret Hr) as [-> ->].
  assert (Hp : present demo.grouped ["7"; "9"] = ["7"; "9"])
    by (vm_compute; reflexivity).
  rewrite Hp in Hproc.
  exists copies. split; [| split; [exact Hproc |]].
  - exact (processed_returned _ _ _ _ _ _ _ _ Hproc).
  - intros j m l Hj. destruct (Hnew j m l Hj) as (H1 & _ & H2).
    split; [exact H1 | exact H2].
Defined.

(** Under a configuration with stride 1 every frame of an instance is
    used: instance 7 is seen in the four frames of the scene, and its patch
    in frame [f0] has the six points they hold of it. *)
Example patch_frame_stride_one :
  fst (patching_service.patch_frame (api := reference.api)
         (settings := config.Build_Settings 1) demo.service "S" "f0" ["7"]
         demo.grouped None (start (api := reference.api) (Ui := list Q)
                              demo.s0 []))
  = Ret (demo.cloud [2; 4; 1; 3; 11; 22; 31; 32]%Z [0; 1; 0; 1; 0; 3; 4; 5]%Z
           [6; 8; 5; 7; 5; 6; 9; 9]%Z,
         [0; 9; 7; 7; 7; 7; 7; 7]%Z).
Proof. vm_compute. reflexivity. Qed.


End Demo.

(** ** The further facts on small inputs *)

(** In the (N, D) cloud the lowest point gets 0 and the highest 1. *)
Lemma colorize_by_height_spans_unit_demo :
  np.rounds_to_nearest np.float64 /\
  color_utils.heights color_utils.points_first demo.cloud_nd
    = Ret [3; 7; 5; 4; 6]%Q /\
  np.sub (fmt := np.float64) 7 3 = np.Finite 4 /\
  exists out c0 c1,
    color_utils.colorize_by_height (fmt := np.float64) demo.cloud_nd None None
      = Ret out /\
    length out = 5%nat /\
    out !! 0%nat = Some c0 /\ np.has_value c0 0 /\
    out !! 1%nat = Some c1 /\ np.has_value c1 1.
Proof.
  split; [exact float64_rounds_to_nearest |]. split; [reflexivity |].
  assert (Hr : np.sub (fmt := np.float64) 7 3 = np.Finite 4)
    by (vm_compute; reflexivity).
  split; [exact Hr |].
  destruct (colorize_by_height_spans_unit (fmt := np.float64)
              float64_rounds_to_nearest color_utils.points_first
              demo.cloud_nd [3; 7; 5; 4; 6]%Q 3 7 4
              eq_refl eq_refl eq_refl eq_refl Hr ltac:(discriminate))
    as (out & Hout & Hlen & Hends & _).
  destruct out as [|c0 [|c1 rest]]; try discriminate Hlen.
  exists (c0 :: c1 :: rest), c0, c1.
  split; [exact Hout |]. split; [exact Hlen |].
  split; [reflexivity |].
  split; [exact (proj1 (Hends 0%nat 3%Q c0 eq_refl eq_refl)
                   ltac:(reflexivity)) |].
  split; [reflexivity |].
  exact (proj2 (Hends 1%nat 7%Q c1 eq_refl eq_refl) ltac:(reflexivity)).
Defined.

(** With the bounds 4 and 6 the points of height 5, 4 and 6 get values of
    [0, 1]; the point of height 3 gets a value that is 0 at most and the
    point of height 7 a value that is 1 at least. *)
Lemma colorize_by_height_explicit_bounds_demo :
  np.rounds_to_nearest np.float64 /\
  color_utils.heights color_utils.points_first demo.cloud_nd
    = Ret [3; 7; 5; 4; 6]%Q /\
  (4 < 6)%Q /\
  np.sub (fmt := np.float64) 6 4 = np.Finite 2 /\
  exists out,
    color_utils.colorize_by_height (fmt := np.float64) demo.cloud_nd
      (Some 4%Q) (Some 6%Q) = Ret out /\
    length out = 5%nat /\
    forall i v c, [3; 7; 5; 4; 6]%Q !! i = Some v -> out !! i = Some c ->
      ((4 <= v)%Q -> (v <= 6)%Q -> np.between 0 1 c) /\
      ((v <= 4)%Q -> np.float_le c (np.Finite 0)) /\
      ((6 <= v)%Q -> np.float_le (np.Finite 1) c).
Proof.
  split; [exact float64_rounds_to_nearest |]. split; [reflexivity |].
  split; [reflexivity |].
  assert (Hr : np.sub (fmt := np.float64) 6 4 = np.Finite 2)
    by (vm_compute; reflexivity).
  split; [exact Hr |].
  destruct (colorize_by_height_explicit_bounds (fmt := np.float64)
              float64_rounds_to_nearest color_utils.points_first
              demo.cloud_nd [3; 7; 5; 4; 6]%Q 4 6 eq_refl eq_refl eq_refl)
    as (out & Hout & Hlen & Hall).
  exists out. split; [exact Hout |]. split; [exact Hlen |].
  exact (proj1 (Hall 2%Q Hr ltac:(discriminate))).
Defined.

(** The function does not clip: with the bounds 4 and 6 the heights 3 and 7
    of the cloud give -0.5 and 1.5. *)
Example colorize_by_height_unclipped :
  color_utils.colorize_by_height (fmt := np.float64) demo.cloud_nd
    (Some 4%Q) (Some 6%Q)
  = Ret [np.Finite (- 1 # 2); np.Finite (3 # 2); np.Finite (1 # 2);
         np.Finite 0; np.Finite 1].
Proof. vm_compute. reflexivity. Qed.

(** An array without rows is no point cloud. *)
Lemma colorize_by_height_raises_otherwise_demo :
  np.wf (np.Array 3 []) /\
  ~ color_utils.point_cloud (np.Array 3 []) /\
  exists e,
    color_utils.colorize_by_height (fmt := np.float64) (np.Array 3 []) None None
    = Raise e.
Proof.
  assert (Hwf : np.wf (np.Array 3 [])) by apply Forall_nil_2.
  assert (Hnot : ~ color_utils.point_cloud (np.Array 3 [])).
  { intros [_ [[[H | H] _] | [H _]]]; vm_compute in H; lia. }
  split; [exact Hwf |]. split; [exact Hnot |].
  exact (colorize_by_height_raises_otherwise (fmt := np.float64)
           (np.Array 3 []) Hwf Hnot).
Defined.

Lemma flat_cloud_wf : np.wf demo.flat_cloud.
Proof.
  unfold np.wf. simpl.
  repeat (apply Forall_cons_2; [reflexivity |]). apply Forall_nil_2.
Qed.

(** The statistics of the flat cloud. *)
Lemma get_point_cloud_stats_ranges_demo :
  np.wf demo.flat_cloud /\
  exists st x y z,
    visualization_service.get_point_cloud_stats demo.flat_cloud None = Ret st /\
    visualization_service.num_points st = 3%nat /\
    np.row 0 demo.flat_cloud = Ret x /\
    visualization_service.within (visualization_service.x_range st) x /\
    np.row 1 demo.flat_cloud = Ret y /\
    visualization_service.within (visualization_service.y_range st) y /\
    np.row 2 demo.flat_cloud = Ret z /\
    visualization_service.within (visualization_service.z_range st) z /\
    (is_Some (visualization_service.num_instances st)
     <-> is_Some (None : option (list Z))) /\
    (is_Some (visualization_service.instance_ids st)
     <-> is_Some (None : option (list Z))).
Proof.
  split; [exact flat_cloud_wf |].
  apply (get_point_cloud_stats_ranges demo.flat_cloud None flat_cloud_wf);
    vm_compute; lia.
Defined.

Lemma planar_cloud_wf : np.wf demo_views.planar_cloud.
Proof.
  unfold np.wf. simpl.
  repeat (apply Forall_cons_2; [reflexivity |]). apply Forall_nil_2.
Qed.

(** A cloud with two rows has no row 2. *)
Lemma get_point_cloud_stats_raises_demo :
  np.wf demo_views.planar_cloud /\
  visualization_service.get_point_cloud_stats demo_views.planar_cloud None
  = Raise IndexError.
Proof.
  split; [exact planar_cloud_wf |].
  apply (proj1 (get_point_cloud_stats_raises demo_views.planar_cloud None
                  planar_cloud_wf)); vm_compute; lia.
Defined.

(** The label -1 is counted among the instances and not listed. *)
Lemma get_point_cloud_stats_instances_demo :
  visualization_service.get_point_cloud_stats demo.flat_cloud
    (Some [7; -1; 7]%Z) = Ret demo_views.flat_stats /\
  exists n ids,
    visualization_service.num_instances demo_views.flat_stats = Some n /\
    visualization_service.instance_ids demo_views.flat_stats = Some ids /\
    n = size (list_to_set (C := gset Z) [7; -1; 7]%Z) /\
    StronglySorted Z.lt ids /\
    (forall k, k ∈ ids <-> k ∈ [7; -1; 7]%Z /\ (0 <= k)%Z) /\
    (length ids <= n)%nat /\
    (length ids = n <-> Forall (fun k => 0 <= k)%Z [7; -1; 7]%Z).
Proof.
  assert (H : visualization_service.get_point_cloud_stats demo.flat_cloud
                (Some [7; -1; 7]%Z) = Ret demo_views.flat_stats)
    by (vm_compute; reflexivity).
  split; [exact H |].
  exact (get_point_cloud_stats_instances demo.flat_cloud [7; -1; 7]%Z
           demo_views.flat_stats H).
Defined.

(** The sampler of the small inputs samples without replacement. *)
Lemma last_first_samples :
  downsampling.samples_without_replacement demo_views.last_first.
Proof.
  intros n k g Hk _. unfold demo_views.last_first.
  rewrite (proj2 (Z.leb_le 0 k)) by lia.
  rewrite (proj2 (Z.leb_le k (Z.of_nat n))) by lia. simpl.
  do 2 eexists. split; [reflexivity |]. split_and!.
  - rewrite length_reverse, length_seq. lia.
  - rewrite reverse_Permutation. apply NoDup_seq.
  - apply Forall_forall. intros i Hi.
    rewrite elem_of_reverse, elem_of_seq in Hi. lia.
Qed.

Lemma near_cloud_wf : np.wf demo_views.near_cloud.
Proof.
  unfold np.wf. simpl.
  repeat (apply Forall_cons_2; [reflexivity |]). apply Forall_nil_2.
Qed.

(** Two of the four points are kept, with their labels. *)
Lemma random_downsample_spec_demo :
  downsampling.samples_without_replacement demo_views.last_first /\
  np.wf demo_views.near_cloud /\
  exists out k g' indices,
    downsampling.random_downsample demo_views.last_first demo_views.near_cloud
      2 (Some demo_views.near_labels) 0%nat = (Ret (out, k), g') /\
    downsampling.selects demo_views.near_cloud (Some demo_views.near_labels)
      indices out k /\
    NoDup indices /\
    Forall (fun i => i < np.shape1 demo_views.near_cloud)%nat indices /\
    Z.of_nat (length indices)
      = Z.min (Z.of_nat (np.shape1 demo_views.near_cloud)) 2 /\
    ((Z.of_nat (np.shape1 demo_views.near_cloud) <= 2)%Z ->
       out = demo_views.near_cloud /\ g' = 0%nat).
Proof.
  split; [exact last_first_samples |]. split; [exact near_cloud_wf |].
  apply (random_downsample_spec demo_views.last_first demo_views.near_cloud 2
           (Some demo_views.near_labels) 0%nat last_first_samples
           near_cloud_wf); [lia |].
  intros s [= <-]. reflexivity.
Defined.

Example random_downsample_near :
  downsampling.random_downsample demo_views.last_first demo_views.near_cloud
    2 (Some demo_views.near_labels) 0%nat
  = (Ret (demo.cloud [5; 0]%Z [5; 1]%Z [4; 1]%Z, downsampling.Labels [9; 0]%Z), 1%nat).
Proof. reflexivity. Qed.

(** With voxels of width 2 the first three points share a voxel: the first
    of them and the fourth point are kept. *)
Lemma voxel_downsample_spec_demo :
  np.wf demo_views.near_cloud /\
  np.is_zero (np.rounded (Format := np.float64) 2) = false /\
  exists out k indices,
    downsampling.voxel_downsample (fmt := np.float64) demo_views.astype_int32
      demo_views.near_cloud 2 None = Ret (out, k) /\
    downsampling.selects demo_views.near_cloud None indices out k /\
    Forall (fun i => i < np.shape1 demo_views.near_cloud)%nat indices /\
    (forall i j, i ∈ indices -> j ∈ indices ->
       downsampling.voxel (fmt := np.float64) demo_views.astype_int32
         demo_views.near_cloud 2 i
       = downsampling.voxel (fmt := np.float64) demo_views.astype_int32
           demo_views.near_cloud 2 j -> i = j) /\
    (forall j, (j < np.shape1 demo_views.near_cloud)%nat ->
       exists i, i ∈ indices /\
         downsampling.voxel (fmt := np.float64) demo_views.astype_int32
           demo_views.near_cloud 2 i
         = downsampling.voxel (fmt := np.float64) demo_views.astype_int32
             demo_views.near_cloud 2 j /\
         (i <= j)%nat) /\
    StronglySorted (fun a b => np.row_ltb a b = true)
      (map (downsampling.voxel (fmt := np.float64) demo_views.astype_int32
              demo_views.near_cloud 2) indices).
Proof.
  split; [exact near_cloud_wf |]. split; [vm_compute; reflexivity |].
  apply (voxel_downsample_spec (fmt := np.float64) demo_views.astype_int32
           demo_views.near_cloud 2 None near_cloud_wf);
    [vm_compute; lia | vm_compute; lia | vm_compute; reflexivity |].
  intros s [=].
Defined.

Example voxel_downsample_near :
  downsampling.voxel_downsample (fmt := np.float64) demo_views.astype_int32
    demo_views.near_cloud 2 None
  = Ret (demo.cloud [0; 5]%Z [0; 5]%Z [0; 4]%Z, downsampling.Indices [0; 3]%nat).
Proof. vm_compute. reflexivity. Qed.

(** The default voxel size 0.1 is no float: in float64 it stands for a
    number a little above one tenth, and the coordinate 0.5 divided by it
    rounds to 5.0, the voxel index numpy computes, where the exact quotient
    is a little below 5. *)
Example voxel_index_of_a_half :
  np.rounded (Format := np.float64) (1 # 10)
    = np.Finite (3602879701896397 # 36028797018963968) /\
  Qfloor ((1 # 2) / (3602879701896397 # 36028797018963968)) = 4%Z /\
  downsampling.voxel_index (fmt := np.float64) demo_views.astype_int32
    (1 # 10) (1 # 2) = 5%Z.
Proof. split_and!; vm_compute; reflexivity. Qed.

(** The keys of the grouping of scene [S]. *)
Lemma group_instances_for_scene_keys_demo :
  data_service.coherent demo_dataset.cold_app /\
  fst (data_service.group_instances_for_scene (api := demo_dataset.api)
         ("/data", "S") demo_dataset.cold_app) = Ret demo_views.grouped_S /\
  exists dataset index,
    PointceptDataset (DatasetApi := demo_dataset.api) "/data"
      (data_service.disk demo_dataset.cold_app) = Ret dataset /\
    group_instances_across_frames (DatasetApi := demo_dataset.api) "S" dataset
      (data_service.disk demo_dataset.cold_app) = Ret index /\
    (forall k, demo_views.grouped_S !! builtins.str k = index !! k) /\
    (forall s, is_Some (demo_views.grouped_S !! s) ->
       exists k, s = builtins.str k /\ builtins.int s = Ret k) /\
    size demo_views.grouped_S = size index.
Proof.
  assert (Hc : data_service.coherent demo_dataset.cold_app)
    by apply coherent_fresh.
  assert (Hrun :
    fst (data_service.group_instances_for_scene (api := demo_dataset.api)
           ("/data", "S") demo_dataset.cold_app) = Ret demo_views.grouped_S)
    by (vm_compute; reflexivity).
  split; [exact Hc |]. split; [exact Hrun |].
  exact (group_instances_for_scene_keys (api := demo_dataset.api) "/data" "S"
           demo_dataset.cold_app demo_views.grouped_S Hc Hrun).
Defined.

Lemma cold_ext_grouping :
  fst (data_service.group_instances_for_scene (api := demo_dataset.api)
         ("/data", "S") (frame_instances.base demo_views.cold_ext))
  = Ret demo_views.grouped_S.
Proof. vm_compute. reflexivity. Qed.

(** Frame [f0] of scene [S]: the instances 7 and 30, with 2 points and 1. *)
Lemma get_frame_instances_spec_demo :
  frame_instances.coherent_ext demo_views.cold_ext /\
  exists instances,
    fst (frame_instances.get_frame_instances (api := demo_dataset.api)
           ("/data", "S", "f0", None) demo_views.cold_ext) = Ret instances /\
    forall k c,
      instances !! k = Some c <->
      (exists frames,
         demo_views.grouped_S !! builtins.str k = Some frames /\
         "f0" ∈ frames) /\
      (k ∉ config.EXCLUDED_SEGMENT_CLASSES) /\
      c = length (filter (fun l => l = k) [7; 0; 7; 9; 30]%Z).
Proof.
  split; [apply coherent_fresh_ext |].
  exact (get_frame_instances_spec (api := demo_dataset.api) "/data" "S" "f0"
           None demo_views.cold_ext demo_views.grouped_S [7; 0; 7; 9; 30]%Z
           (coherent_fresh_ext _) cold_ext_grouping eq_refl).
Defined.

Example get_frame_instances_f0 :
  fst (frame_instances.get_frame_instances (api := demo_dataset.api)
         ("/data", "S", "f0", None) demo_views.cold_ext)
  = Ret demo_views.instances_f0.
Proof. vm_compute. reflexivity. Qed.

(** Frame [f0] of scene [T] has no segment file: instance 7 is listed with
    no point, the excluded class 1 is not listed. *)
Lemma get_frame_instances_missing_file_demo :
  frame_instances.coherent_ext demo_views.indexed_app /\
  fs.os_path_exists demo_dataset.stored "/data/training/T/f0/segment.npy"
    = false /\
  exists instances,
    fst (frame_instances.get_frame_instances (api := demo_views.indexed_api)
           ("/data", "T", "f0", None) demo_views.indexed_app) = Ret instances /\
    (forall k,
       is_Some (instances !! k) <->
       (exists frames,
          kmap (M2 := gmap string) builtins.str demo_views.index_T
            !! builtins.str k = Some frames /\ "f0" ∈ frames) /\
       k ∉ config.EXCLUDED_SEGMENT_CLASSES) /\
    forall k c, instances !! k = Some c -> c = 0%nat.
Proof.
  split; [apply coherent_fresh_ext |]. split; [reflexivity |].
  exact (get_frame_instances_missing_file (api := demo_views.indexed_api)
           "/data" "T" "f0" demo_views.indexed_app
           (kmap (M2 := gmap string) builtins.str demo_views.index_T)
           "/data" "/data/training/T/f0" demo.flat_cloud
           (coherent_fresh_ext _) eq_refl eq_refl eq_refl eq_refl eq_refl).
Defined.

Example get_frame_instances_T :
  fst (frame_instances.get_frame_instances (api := demo_views.indexed_api)
         ("/data", "T", "f0", None) demo_views.indexed_app)
  = Ret {[ 7%Z := 0%nat ]}.
Proof. vm_compute. reflexivity. Qed.

Lemma cold_ext_run :
  frame_instances.get_frame_instances (api := demo_dataset.api)
    ("/data", "S", "f0", None) demo_views.cold_ext
  = (Ret demo_views.instances_f0, demo_views.warm_ext).
Proof. apply run_eq. vm_compute. reflexivity. Qed.

(** The instances of [f0] stay as first computed when the stored dataset
    is replaced by an empty one, until the cache is cleared. *)
Lemma get_frame_instances_cached_until_cleared_demo :
  frame_instances.get_frame_instances (api := demo_dataset.api)
    ("/data", "S", "f0", None) demo_views.cold_ext
  = (Ret demo_views.instances_f0, demo_views.warm_ext) /\
  forall d,
    frame_instances.get_frame_instances (api := demo_dataset.api)
      ("/data", "S", "f0", None) (frame_instances.with_disk d demo_views.warm_ext)
    = (Ret demo_views.instances_f0,
       frame_instances.with_disk d demo_views.warm_ext) /\
    fst (frame_instances.get_frame_instances (api := demo_dataset.api)
           ("/data", "S", "f0", None)
           (snd (frame_instances.clear_cache
                   (frame_instances.with_disk d demo_views.warm_ext))))
    = frame_instances.cold_instances (api := demo_dataset.api)
        ("/data", "S", "f0", None) d.
Proof.
  split; [exact cold_ext_run |].
  exact (get_frame_instances_cached_until_cleared (api := demo_dataset.api)
           ("/data", "S", "f0", None) demo_views.cold_ext demo_views.warm_ext
           demo_views.instances_f0 cold_ext_run).
Defined.

(** Whatever is selected among the instances of [f0], [patch_frame] is
    asked for keys of the grouping. *)
Lemma listed_instances_are_grouped_demo :
  frame_instances.coherent_ext demo_views.cold_ext /\
  exists grouped,
    fst (data_service.group_instances_for_scene (api := demo_dataset.api)
           ("/data", "S") (frame_instances.base demo_views.warm_ext))
      = Ret grouped /\
    forall (ui : instance_selector.widgets) (selected_instances : gset Z),
      Forall (fun instance_id => is_Some (grouped !! instance_id))
        (instance_selector.instance_ids
           (instance_selector.render_instance_selector ui
              demo_views.instances_f0 selected_instances)).
Proof.
  split; [apply coherent_fresh_ext |].
  exact (listed_instances_are_grouped (api := demo_dataset.api) "/data" "S"
           "f0" None demo_views.cold_ext demo_views.warm_ext
           demo_views.instances_f0 (coherent_fresh_ext _) cold_ext_run).
Defined.

Section FurtherRuns.

Import patching_service.

(** Instance 9 asked for twice is merged and patched twice, instance 999
    not at all. *)
Lemma patch_frame_merges_in_order_demo :
  demo_views.repeated_run
    = (fst demo_views.repeated_run, snd demo_views.repeated_run) /\
  (exists copies,
     length copies = 3%nat /\
     processed (api := reference.api) demo.accumulator
       (_get_strategy "default") 0%nat "S" ["9"; "7"; "9"] demo.loaded_store
       copies (Ret tt) (store_of (snd demo_views.repeated_run))) /\
  merges (log (snd demo_views.repeated_run))
    `prefix_of` map (fun instance_id => (instance_id, _get_strategy "default"))
                  (present demo.grouped ["9"; "999"; "7"; "9"]) /\
  patches (log (snd demo_views.repeated_run))
    `prefix_of` present demo.grouped ["9"; "999"; "7"; "9"] /\
  (returned (fst demo_views.repeated_run) ->
     merges (log (snd demo_views.repeated_run))
     = map (fun instance_id => (instance_id, _get_strategy "default"))
         (present demo.grouped ["9"; "999"; "7"; "9"]) /\
     patches (log (snd demo_views.repeated_run))
     = present demo.grouped ["9"; "999"; "7"; "9"]).
Proof.
  split; [apply surjective_pairing |].
  destruct (patch_frame_merges_in_order (api := reference.api) "/data"
              "default" "S" "f0" ["9"; "999"; "7"; "9"] demo.grouped
              (Some demo.progress_bar) demo.s0 []
              (fst demo_views.repeated_run) (snd demo_views.repeated_run)
              (surjective_pairing demo_views.repeated_run))
    as (Hcalls & Hlog).
  split; [| exact Hlog].
  destruct (Hcalls 0%nat demo.loaded_store eq_refl)
    as (attempted & copies & o & _ & Hproc & Hret & _).
  assert (Hr : returned (fst demo_views.repeated_run))
    by (vm_compute; exact I).
  destruct (Hret Hr) as (-> & -> & Hlen).
  assert (Hp : present demo.grouped ["9"; "999"; "7"; "9"] = ["9"; "7"; "9"])
    by (vm_compute; reflexivity).
  rewrite Hp in Hproc, Hlen.
  exists copies. split; [exact Hlen | exact Hproc].
Defined.

Example patch_frame_repeated :
  returned (fst demo_views.repeated_run) /\
  present demo.grouped ["9"; "999"; "7"; "9"] = ["9"; "7"; "9"] /\
  patches (log (snd demo_views.repeated_run)) = ["9"; "7"; "9"].
Proof.
  split; [vm_compute; exact I |]. split; vm_compute; reflexivity.
Qed.

(** A frame that is not stored: the load of the frame patcher raises, and
    that is what [patch_frame] raises. *)
Lemma patch_frame_raises_only_then_demo :
  demo_views.failed_load
    = (Raise FileNotFoundError, snd demo_views.failed_load) /\
  (collaborator_raises (api := reference.api) demo.service "S" "nope" ["7"]
     demo.grouped None demo.s0 [] FileNotFoundError
     (snd demo_views.failed_load) \/
   exists f : callback (Ui := list Q),
     None = Some f /\ callback_raises f FileNotFoundError).
Proof.
  assert (H : demo_views.failed_load
              = (Raise FileNotFoundError, snd demo_views.failed_load))
    by (apply run_eq; vm_compute; reflexivity).
  split; [exact H |].
  exact (patch_frame_raises_only_then (api := reference.api) demo.service
           "S" "nope" ["7"] demo.grouped None demo.s0 [] FileNotFoundError
           (snd demo_views.failed_load) H).
Defined.

End FurtherRuns.

(** The labels of scene [T] do not load, so its grouping fails, and with it
    the listing of the instances of its frame. *)
Lemma get_frame_instances_raises_only_then_demo :
  frame_instances.coherent_ext demo_views.cold_ext /\
  fst (frame_instances.get_frame_instances (api := demo_dataset.api)
         ("/data", "T", "f0", None) demo_views.cold_ext)
    = Raise FileNotFoundError /\
  (fst (data_service.group_instances_for_scene (api := demo_dataset.api)
          ("/data", "T") (frame_instances.base demo_views.cold_ext))
     = Raise FileNotFoundError \/
   fst (data_service.get_frame_segments (api := demo_dataset.api)
          ("/data", "T", "f0") (frame_instances.base demo_views.cold_ext))
     = Raise FileNotFoundError).
Proof.
  assert (H : fst (frame_instances.get_frame_instances (api := demo_dataset.api)
                     ("/data", "T", "f0", None) demo_views.cold_ext)
              = Raise FileNotFoundError) by (vm_compute; reflexivity).
  split; [apply coherent_fresh_ext |]. split; [exact H |].
  exact (get_frame_instances_raises_only_then (api := demo_dataset.api)
           "/data" "T" "f0" None demo_views.cold_ext FileNotFoundError
           (coherent_fresh_ext _) H).
Defined.
